(** * COO sparse matrices: the reference kernels of [jax/experimental/sparse/coo.py]

    A shallow embedding of the COO (coordinate format) container, of the
    reference implementations of its four primitives ([coo_todense],
    [coo_fromdense], [coo_matvec], [coo_matmat]), of their transposition rules
    and of the argument rewriting done by the GPU lowerings.

    Conventions.
    - A one-dimensional array is a [list]; a two-dimensional array is a shape
      together with its row-major buffer ([ndarray2]).
    - Values of an index array are machine integers, modelled as [Z]; casting
      to an index dtype wraps around ([astype]).
    - The element dtype is abstract: any commutative ring with a decidable
      test against zero ([Dtype]), such as the exact integers ([Z_dtype])
      and the machine integers with wrap-around ([wrapping_dtype]);
      floating-point rounding is not modelled.
    - Shapes and lengths are [nat]. *)

From Stdlib Require Import String.
From Stdlib Require Zmod.
Import Zmod.ZmodDef Zmod.ZmodBase.
From Stdlib Require Import ZArith List Bool Lia Ring Permutation Sorted.
From Stdlib Require Import ZArithRing.
Import ListNotations.

Local Open Scope Z_scope.

(** ** Element dtypes *)

Class Dtype : Type := {
  elt : Type;
  zero : elt;
  one : elt;
  add : elt -> elt -> elt;
  mul : elt -> elt -> elt;
  sub : elt -> elt -> elt;
  opp : elt -> elt;
  (** [x != 0] *)
  nonzero : elt -> bool;
  nonzero_spec : forall x, nonzero x = false <-> x = zero;
  dtype_ring : ring_theory zero one add mul sub opp (@eq elt)
}.

(** Exact integers. *)
#[export] Instance Z_dtype : Dtype := {|
  elt := Z;
  zero := 0;
  one := 1;
  add := Z.add;
  mul := Z.mul;
  sub := Z.sub;
  opp := Z.opp;
  nonzero := fun x => negb (x =? 0);
  nonzero_spec := fun x =>
    conj (fun H => proj1 (Z.eqb_eq x 0) (proj1 (negb_false_iff _) H))
         (fun H => proj2 (negb_false_iff _) (proj2 (Z.eqb_eq x 0) H));
  dtype_ring := Zth
|}.

(** ** Index dtypes and casts *)

Inductive int_dtype : Type := int8 | int16 | int32 | int64.

Definition bits (t : int_dtype) : Z :=
  match t with int8 => 8 | int16 => 16 | int32 => 32 | int64 => 64 end.

(** Machine integers of [bits t] bits: arithmetic modulo [2 ^ bits t]. *)
Definition wrapping_dtype (t : int_dtype) : Dtype := {|
  elt := Zmod.Zmod (2 ^ bits t);
  zero := Zmod.zero;
  one := Zmod.one;
  add := Zmod.add;
  mul := Zmod.mul;
  sub := Zmod.sub;
  opp := Zmod.opp;
  nonzero := fun x => negb (Zmod.eqb x Zmod.zero);
  nonzero_spec := fun x =>
    conj (fun H => proj1 (Zmod.eqb_eq x Zmod.zero)
                     (proj1 (negb_false_iff _) H))
         (fun H => proj2 (negb_false_iff _)
                     (proj2 (Zmod.eqb_eq x Zmod.zero) H));
  dtype_ring := Zmod.ring_theory (2 ^ bits t)
|}.

Definition int_dtype_eqb (a b : int_dtype) : bool :=
  match a, b with
  | int8, int8 | int16, int16 | int32, int32 | int64, int64 => true
  | _, _ => false
  end.

(** [x.astype(t)] on one integer: two's complement wrap-around. *)
Definition astype (t : int_dtype) (x : Z) : Z :=
  (x + 2 ^ (bits t - 1)) mod 2 ^ bits t - 2 ^ (bits t - 1).

(** The largest dimension whose indices [0 .. n-1] all fit in [t]. *)
Definition fits (t : int_dtype) (n : nat) : Prop :=
  Z.of_nat n <= 2 ^ (bits t - 1).

(** ** One-dimensional arrays *)

Section Arrays.
Context {D : Dtype}.

(** [jnp.zeros(n)] and [jnp.ones(n)] *)
Definition zeros (n : nat) : list elt := repeat zero n.
Definition ones (n : nat) : list elt := repeat one n.

(** Elementwise binary operation on arrays of one shape (the shorter length
    decides when the shapes differ; the abstract evaluation rules assert
    equal shapes). *)
Fixpoint map2 {A B C : Type} (f : A -> B -> C) (x : list A) (y : list B) : list C :=
  match x, y with
  | a :: x', b :: y' => f a b :: map2 f x' y'
  | _, _ => []
  end.

(** Indexing follows [jax.numpy], the dense-array library this module is
    written against: a negative index counts from the end of the axis;
    then a retrieval clamps an index that is still out of bounds, and an
    update at such an index is dropped. *)
Definition normalize_index (n : nat) (i : Z) : Z :=
  if i <? 0 then i + Z.of_nat n else i.

Definition in_bounds (n : nat) (i : Z) : bool :=
  (0 <=? i) && (i <? Z.of_nat n).

(** Retrieval: the index is clamped to the axis. *)
Definition clamp_index (n : nat) (i : Z) : nat :=
  Z.to_nat (Z.max 0 (Z.min (normalize_index n i) (Z.of_nat n - 1))).

(** [x[i]] *)
Definition take1 (x : list elt) (i : Z) : elt :=
  nth (clamp_index (length x) i) x zero.

(** [x[idx]] for an index array [idx] *)
Definition take (x : list elt) (idx : list Z) : list elt :=
  map (take1 x) idx.

(** Replace position [k]. *)
Fixpoint set_nth {A : Type} (k : nat) (a : A) (x : list A) : list A :=
  match x, k with
  | [], _ => []
  | _ :: x', O => a :: x'
  | b :: x', S k' => b :: set_nth k' a x'
  end.

(** [x.at[i].add(u)] for one index: an out-of-bounds update is dropped. *)
Definition at_add1 (x : list elt) (i : Z) (u : elt) : list elt :=
  let j := normalize_index (length x) i in
  if in_bounds (length x) j
  then set_nth (Z.to_nat j) (add (nth (Z.to_nat j) x zero) u) x
  else x.

(** [x.at[idx].add(u)]: scatter-add, duplicates accumulate. *)
Fixpoint at_add (x : list elt) (idx : list Z) (u : list elt) : list elt :=
  match idx, u with
  | i :: idx', a :: u' => at_add (at_add1 x i a) idx' u'
  | _, _ => x
  end.

(** [sum(x)] *)
Definition sum (x : list elt) : elt := fold_right add zero x.

(** The inner product [<x, y>] *)
Definition inner (x y : list elt) : elt := sum (map2 mul x y).

End Arrays.

(** ** Two-dimensional arrays *)

Definition Shape : Type := (nat * nat)%type.

(** [shape[::-1]] *)
Definition reversed (s : Shape) : Shape := (snd s, fst s).

Section Arrays2.
Context {D : Dtype}.

(** A dense matrix: its shape and its buffer in row-major order. *)
Record ndarray2 : Type := mk_ndarray2 {
  arr_shape : Shape;
  buf : list elt
}.

Definition wf_ndarray2 (m : ndarray2) : Prop :=
  length (buf m) = (fst (arr_shape m) * snd (arr_shape m))%nat.

(** [jnp.zeros(shape)] *)
Definition zeros2 (s : Shape) : ndarray2 :=
  mk_ndarray2 s (zeros (fst s * snd s)).

(** [m[r, c]]: each axis is normalised and clamped on its own. *)
Definition take2_1 (m : ndarray2) (r c : Z) : elt :=
  let '(R, C) := arr_shape m in
  nth (clamp_index R r * C + clamp_index C c) (buf m) zero.

(** [m[row, col]] for two index arrays of one shape *)
Definition take2 (m : ndarray2) (row col : list Z) : list elt :=
  map2 (take2_1 m) row col.

(** [m.at[r, c].add(u)] for one coordinate: dropped when either index is out
    of bounds. *)
Definition at_add2_1 (m : ndarray2) (r c : Z) (u : elt) : ndarray2 :=
  let '(R, C) := arr_shape m in
  let r' := normalize_index R r in
  let c' := normalize_index C c in
  if in_bounds R r' && in_bounds C c'
  then let k := (Z.to_nat r' * C + Z.to_nat c')%nat in
       mk_ndarray2 (arr_shape m) (set_nth k (add (nth k (buf m) zero) u) (buf m))
  else m.

(** [m.at[row, col].add(data)] *)
Fixpoint at_add2 (m : ndarray2) (row col : list Z) (data : list elt) : ndarray2 :=
  match row, col, data with
  | r :: row', c :: col', u :: data' => at_add2 (at_add2_1 m r c u) row' col' data'
  | _, _, _ => m
  end.

(** Row [j] of the buffer, for [j] within the first axis. *)
Definition row_of (m : ndarray2) (j : nat) : list elt :=
  let C := snd (arr_shape m) in firstn C (skipn (j * C) (buf m)).

(** [m[i]] for one index: a whole row, the index clamped. *)
Definition take_row (m : ndarray2) (i : Z) : list elt :=
  row_of m (clamp_index (fst (arr_shape m)) i).

(** [m[idx]]: an array of shape [(len(idx), m.shape[1])], as a list of rows *)
Definition take_rows (m : ndarray2) (idx : list Z) : list (list elt) :=
  map (take_row m) idx.

(** [m.at[i].add(u)] for one index and one row [u]. *)
Definition at_add_row1 (m : ndarray2) (i : Z) (u : list elt) : ndarray2 :=
  let '(R, C) := arr_shape m in
  let j := normalize_index R i in
  if in_bounds R j
  then let k := (Z.to_nat j * C)%nat in
       mk_ndarray2 (arr_shape m)
         (firstn k (buf m) ++ map2 add (row_of m (Z.to_nat j)) u
                           ++ skipn (k + C) (buf m))
  else m.

(** [m.at[idx].add(rows)] *)
Fixpoint at_add_rows (m : ndarray2) (idx : list Z) (rows : list (list elt)) : ndarray2 :=
  match idx, rows with
  | i :: idx', u :: rows' => at_add_rows (at_add_row1 m i u) idx' rows'
  | _, _ => m
  end.

(** [(m != 0).sum()] *)
Definition count_nonzero (m : ndarray2) : nat :=
  length (filter nonzero (buf m)).

(** Flat positions of the nonzero entries, in increasing order. *)
Fixpoint flatnonzero_from (off : nat) (x : list elt) : list nat :=
  match x with
  | [] => []
  | a :: x' =>
      if nonzero a then off :: flatnonzero_from (S off) x'
      else flatnonzero_from (S off) x'
  end.

Definition flatnonzero (x : list elt) : list nat := flatnonzero_from 0 x.

(** Modelled from the spec: [jnp.nonzero(mat, size=size)] of the dense-array
    library, which is not part of this module.  It returns the coordinates of
    the nonzero entries in row-major order, cut to the first [size] of them
    and padded with coordinate [(0, 0)] when there are fewer. *)
Definition jnp_nonzero (mat : ndarray2) (size : nat) : list Z * list Z :=
  let C := snd (arr_shape mat) in
  let flat := firstn size (flatnonzero (buf mat)) in
  let pad := repeat 0 (size - length flat) in
  (map (fun i => Z.of_nat (i / C)) flat ++ pad,
   map (fun i => Z.of_nat (i mod C)) flat ++ pad).

(** [jnp.where(cond, x, 0)] *)
Definition where0 (cond : list bool) (x : list elt) : list elt :=
  map2 (fun (b : bool) a => if b then a else zero) cond x.

End Arrays2.

(** ** The container *)

Record COOInfo : Type := mk_COOInfo {
  shape : Shape;
  rows_sorted : bool;
  cols_sorted : bool
}.

(** ** Errors, transposition arguments, dtypes of the lowerings *)

Inductive exn : Type :=
  | AssertionError
  | ValueError (msg : string).

(** An argument of a transposition rule: either the linear input being
    transposed (only its abstract value is known) or a known value. *)
Inductive primal (A Aval : Type) : Type :=
  | UndefinedPrimal (aval : Aval)
  | Known (x : A).
Arguments UndefinedPrimal {A Aval} aval.
Arguments Known {A Aval} x.

(** The cotangent of an index output: the symbolic zero [ad.Zero], which
    stands for an output of a known abstract value and so of a known dtype,
    or an array with its dtype. *)
Inductive index_ct : Type :=
  | Zero (dtype : int_dtype)
  | Indices (dtype : int_dtype) (a : list Z).

Definition ct_dtype (c : index_ct) : int_dtype :=
  match c with Zero t => t | Indices t _ => t end.

(** [isinstance(c, ad.Zero)] *)
Definition isinstance_Zero (c : index_ct) : bool :=
  match c with Zero _ => true | Indices _ _ => false end.

(** The array of a cotangent that is not the symbolic zero. *)
Definition ct_values (c : index_ct) : list Z :=
  match c with Zero _ => [] | Indices _ a => a end.

Inductive np_dtype : Type :=
  | np_bool | np_int (t : int_dtype)
  | np_float16 | np_float32 | np_float64 | np_complex64 | np_complex128.

Inductive CuSparseEfficiencyWarning : Type :=
  | lowering_not_available (primitive : string) (dtype : np_dtype)
  | requires_sorted (primitive : string).

(** [dtype in [np.float32, np.float64, np.complex64, np.complex128]] *)
Definition cusparse_dtype (dtype : np_dtype) : bool :=
  match dtype with
  | np_float32 | np_float64 | np_complex64 | np_complex128 => true
  | _ => false
  end.

Section Container.
Context {D : Dtype}.

Record COO : Type := mk_COO {
  data : list elt;
  row : list Z;
  col : list Z;
  coo_shape : Shape;
  _rows_sorted : bool;
  _cols_sorted : bool
}.

(** [COO.__init__(args, shape=shape, rows_sorted=..., cols_sorted=...)] *)
Definition COO_init (args : list elt * list Z * list Z) (shape : Shape)
    (rows_sorted cols_sorted : bool) : COO :=
  let '(data, row, col) := args in
  mk_COO data row col shape rows_sorted cols_sorted.

Definition nse (self : COO) : nat := length (data self).

Definition _info (self : COO) : COOInfo :=
  mk_COOInfo (coo_shape self) (_rows_sorted self) (_cols_sorted self).

Definition _bufs (self : COO) : list elt * list Z * list Z :=
  (data self, row self, col self).

(** The container invariant of the data model: three parallel arrays whose
    coordinates lie inside the shape. *)
Definition index_in (n : nat) (i : Z) : Prop := 0 <= i < Z.of_nat n.

Definition coo_valid (data : list elt) (row col : list Z) (s : Shape) : Prop :=
  length row = length data /\ length col = length data /\
  Forall (index_in (fst s)) row /\ Forall (index_in (snd s)) col.

(** The specified entries as coordinate triples, in storage order. *)
Definition entries (self : COO) : list (Z * Z * elt) :=
  combine (combine (row self) (col self)) (data self).

Definition at_key (r c : Z) (t : Z * Z * elt) : bool :=
  (fst (fst t) =? r) && (snd (fst t) =? c).

(** The values stored at coordinate [(r, c)], in storage order. *)
Definition entries_at (r c : Z) (self : COO) : list elt :=
  map snd (filter (at_key r c) (entries self)).

(** One step of the scatter-add of [todense]. *)
Definition add_entry (m : ndarray2) (t : Z * Z * elt) : ndarray2 :=
  at_add2_1 m (fst (fst t)) (snd (fst t)) (snd t).

(** *** coo_todense *)

Definition _coo_todense_impl (data : list elt) (row col : list Z)
    (spinfo : COOInfo) : ndarray2 :=
  at_add2 (zeros2 (shape spinfo)) row col data.

(** Binding the primitive runs its implementation rule. *)
Definition _coo_todense := _coo_todense_impl.

Definition coo_todense (mat : COO) : ndarray2 :=
  _coo_todense (data mat) (row mat) (col mat) (_info mat).

Definition todense (self : COO) : ndarray2 := coo_todense self.

(** *** coo_fromdense *)

Definition _coo_fromdense_impl (mat : ndarray2) (nse : nat)
    (index_dtype : int_dtype) : list elt * list Z * list Z :=
  let '(row, col) := jnp_nonzero mat nse in
  let data := take2 mat row col in
  let true_nonzeros := map (fun i => (i <? count_nonzero mat)%nat) (seq 0 nse) in
  let data := where0 true_nonzeros data in
  (data, map (astype index_dtype) row, map (astype index_dtype) col).

Definition _coo_fromdense := _coo_fromdense_impl.

(** [nse = None] stands for the omitted argument. *)
Definition coo_fromdense (mat : ndarray2) (nse : option nat)
    (index_dtype : int_dtype) : COO :=
  let nse := match nse with None => count_nonzero mat | Some n => n end in
  COO_init (_coo_fromdense mat nse index_dtype) (arr_shape mat) true false.

Definition fromdense (mat : ndarray2) (nse : option nat)
    (index_dtype : int_dtype) : COO :=
  coo_fromdense mat nse index_dtype.

(** *** coo_matvec *)

Definition _coo_matvec_impl (data : list elt) (row col : list Z) (v : list elt)
    (spinfo : COOInfo) (transpose : bool) : list elt :=
  let '(row, col) := if transpose then (col, row) else (row, col) in
  let out_shape := if transpose then snd (shape spinfo) else fst (shape spinfo) in
  let dv := map2 mul data (take v col) in
  at_add (zeros out_shape) row dv.

Definition _coo_matvec := _coo_matvec_impl.

Definition coo_matvec (mat : COO) (v : list elt) (transpose : bool) : list elt :=
  _coo_matvec (data mat) (row mat) (col mat) v (_info mat) transpose.

(** The shape assertions of [_coo_matvec_abstract_eval] ([None] when one
    fails); the result is the length of the output.  The assertions on the
    dtypes and on the rank of [v] hold by typing. *)
Definition _coo_matvec_abstract_eval (data : list elt) (row col : list Z)
    (v : list elt) (spinfo : COOInfo) (transpose : bool) : option nat :=
  if (length data =? length row)%nat && (length row =? length col)%nat
     && (length v =? (if transpose then fst (shape spinfo)
                      else snd (shape spinfo)))%nat
  then Some (if transpose then snd (shape spinfo) else fst (shape spinfo))
  else None.

(** *** coo_matmat *)

Definition _coo_matmat_impl (data : list elt) (row col : list Z) (B : ndarray2)
    (spinfo : COOInfo) (transpose : bool) : ndarray2 :=
  let '(row, col) := if transpose then (col, row) else (row, col) in
  let out_shape := if transpose then snd (shape spinfo) else fst (shape spinfo) in
  let dB := map2 (fun d r => map (mul d) r) data (take_rows B col) in
  at_add_rows (zeros2 (out_shape, snd (arr_shape B))) row dB.

Definition _coo_matmat := _coo_matmat_impl.

Definition coo_matmat (mat : COO) (B : ndarray2) (transpose : bool) : ndarray2 :=
  _coo_matmat (data mat) (row mat) (col mat) B (_info mat) transpose.

(** *** Sorting *)

(** Lexicographic comparison of two [(row, col)] keys. *)
Definition key_leb (a b : Z * Z) : bool :=
  (fst a <? fst b) || ((fst a =? fst b) && (snd a <=? snd b)).

(** The order of the sort on entries: by [(row, col)]. *)
Definition key_le (a b : Z * Z * elt) : Prop :=
  key_leb (fst a) (fst b) = true.

Fixpoint insert_by (x : Z * Z * elt) (l : list (Z * Z * elt)) : list (Z * Z * elt) :=
  match l with
  | [] => [x]
  | y :: l' => if key_leb (fst x) (fst y) then x :: l else y :: insert_by x l'
  end.

Definition sort_by_keys (l : list (Z * Z * elt)) : list (Z * Z * elt) :=
  fold_right insert_by [] l.

(** Modelled from the spec: [lax.sort(operands, num_keys=2)] of the array
    library, which is not part of this module, on three operands of one
    shape.  It is a stable sort keyed primarily by the first operand and
    secondarily by the second; the third operand is reordered in lockstep. *)
Definition lax_sort2 (operands : list Z * list Z * list elt)
    : list Z * list Z * list elt :=
  let '(k1, k2, payload) := operands in
  let s := sort_by_keys (combine (combine k1 k2) payload) in
  (map (fun t => fst (fst t)) s, map (fun t => snd (fst t)) s, map snd s).

Definition _sort_indices (self : COO) : COO :=
  if _rows_sorted self then self
  else
    let '(row, col, data) := lax_sort2 (row self, col self, data self) in
    COO_init (data, row, col) (coo_shape self) true false.

(** *** Constructors *)

Definition _empty (shape : Shape) : COO :=
  COO_init ([], [], []) shape true true.

(** [jnp.arange(n, dtype=t)] *)
Definition arange (n : nat) (t : int_dtype) : list Z :=
  map (fun i => astype t (Z.of_nat i)) (seq 0 n).

(** [_const(idx, k)]: the scalar [k] in the dtype of [idx]. *)
Definition _const (t : int_dtype) (k : Z) : Z := astype t k.

(** [lax.sub] and [lax.add] of an index array and a scalar of its dtype. *)
Definition lax_sub (t : int_dtype) (idx : list Z) (s : Z) : list Z :=
  map (fun i => astype t (i - s)) idx.
Definition lax_add (t : int_dtype) (idx : list Z) (s : Z) : list Z :=
  map (fun i => astype t (i + s)) idx.

(** The local [diag_size] of [_eye]. *)
Definition diag_size (N M : nat) (k : Z) : Z :=
  if 0 <? k then Z.min (Z.of_nat N) (Z.of_nat M - k)
  else Z.min (Z.of_nat N + k) (Z.of_nat M).

Definition _eye (N M : nat) (k : Z) (index_dtype : int_dtype) : COO :=
  let diag_size := diag_size N M k in
  if diag_size <=? 0 then _empty (N, M)
  else
    let data := ones (Z.to_nat diag_size) in
    let idx := arange (Z.to_nat diag_size) index_dtype in
    let zero := _const index_dtype 0 in
    let k := _const index_dtype k in
    let row := lax_sub index_dtype idx (if 0 <=? k then zero else k) in
    let col := lax_add index_dtype idx (if k <=? 0 then zero else k) in
    COO_init (data, row, col) (N, M) true true.

(** [COO.transpose(axes=None)] *)
Definition transpose (self : COO) : COO :=
  COO_init (data self, col self, row self) (reversed (coo_shape self))
           (_cols_sorted self) (_rows_sorted self).

(** *** Transposition rules *)

Definition _coo_fromdense_transpose (ct : list elt * index_ct * index_ct)
    (M : primal ndarray2 Shape) (nse : nat) (index_dtype : int_dtype)
    : exn + ndarray2 :=
  let '(data, row, col) := ct in
  if negb (length data =? nse)%nat then inl AssertionError
  else if negb (int_dtype_eqb (ct_dtype row) (ct_dtype col)
                && int_dtype_eqb (ct_dtype col) index_dtype)
  then inl AssertionError
  else if isinstance_Zero row || isinstance_Zero col
  then inl (ValueError "Cannot transpose with respect to sparse indices")
  else
    match M with
    | UndefinedPrimal aval_shape =>
        inr (_coo_todense data (ct_values row) (ct_values col)
                          (mk_COOInfo aval_shape false false))
    | Known _ => inl AssertionError
    end.

(** [row] and [col] are known values by type.  When [v] is the undefined
    primal the last component is its cotangent; otherwise the first
    component is the cotangent of [data]. *)
Definition _coo_matvec_transpose (ct : list elt) (data : list elt)
    (row col : list Z) (v : primal (list elt) nat) (spinfo : COOInfo)
    (transpose : bool) : list elt * list Z * list Z * list elt :=
  match v with
  | UndefinedPrimal _ =>
      (data, row, col, _coo_matvec data row col ct spinfo (negb transpose))
  | Known v =>
      (map2 mul (take ct row) (take v col), row, col, v)
  end.

(** [_coo_extract(row, col, mat)] of the sparse utilities: [mat[row, col]]. *)
Definition _coo_extract (row col : list Z) (mat : ndarray2) : list elt :=
  take2 mat row col.

(** [jnp.outer(a, b)] *)
Definition outer (a b : list elt) : ndarray2 :=
  mk_ndarray2 (length a, length b)
              (flat_map (fun x => map (mul x) b) a).

(** *** GPU lowerings *)

(** The lowering of the reference implementation denotes that
    implementation. *)
Definition _coo_matvec_lowering := _coo_matvec_impl.
Definition _coo_matmat_lowering := _coo_matmat_impl.

(** A lowering is modelled by what the lowered program computes, together
    with the warnings emitted while lowering.  [coo_matvec_mhlo] is the
    accelerated kernel, which receives the shape and the transpose flag. *)
Definition _coo_matvec_gpu_lowering
    (coo_matvec_mhlo : list elt -> list Z -> list Z -> list elt ->
                       Shape -> bool -> list elt)
    (dtype : np_dtype) (data : list elt) (row col : list Z) (v : list elt)
    (spinfo : COOInfo) (transpose : bool)
    : list CuSparseEfficiencyWarning * list elt :=
  if negb (cusparse_dtype dtype)
  then ([lowering_not_available "coo_matvec" dtype],
        _coo_matvec_lowering data row col v spinfo transpose)
  else
    let layout :=
      if rows_sorted spinfo then Some (row, col, transpose, shape spinfo)
      else if cols_sorted spinfo
           then Some (col, row, negb transpose, reversed (shape spinfo))
           else None in
    match layout with
    | Some (row, col, transpose, shape) =>
        ([], coo_matvec_mhlo data row col v shape transpose)
    | None =>
        ([requires_sorted "coo_matvec"],
         _coo_matvec_lowering data row col v spinfo transpose)
    end.

Definition _coo_matmat_gpu_lowering
    (coo_matmat_mhlo : list elt -> list Z -> list Z -> ndarray2 ->
                       Shape -> bool -> ndarray2)
    (dtype : np_dtype) (data : list elt) (row col : list Z) (B : ndarray2)
    (spinfo : COOInfo) (transpose : bool)
    : list CuSparseEfficiencyWarning * ndarray2 :=
  if negb (cusparse_dtype dtype)
  then ([lowering_not_available "coo_matmat" dtype],
        _coo_matmat_lowering data row col B spinfo transpose)
  else
    let layout :=
      if rows_sorted spinfo then Some (row, col, transpose, shape spinfo)
      else if cols_sorted spinfo
           then Some (col, row, negb transpose, reversed (shape spinfo))
           else None in
    match layout with
    | Some (row, col, transpose, shape) =>
        ([], coo_matmat_mhlo data row col B shape transpose)
    | None =>
        ([requires_sorted "coo_matmat"],
         _coo_matmat_lowering data row col B spinfo transpose)
    end.

(** The reference semantics behind the interface of an accelerated kernel,
    which is given the shape and the transpose flag but no layout flags. *)
Definition reference_matvec_kernel (data : list elt) (row col : list Z)
    (v : list elt) (shape : Shape) (transpose : bool) : list elt :=
  _coo_matvec_impl data row col v (mk_COOInfo shape false false) transpose.

Definition reference_matmat_kernel (data : list elt) (row col : list Z)
    (B : ndarray2) (shape : Shape) (transpose : bool) : ndarray2 :=
  _coo_matmat_impl data row col B (mk_COOInfo shape false false) transpose.

End Container.

(** ** The remaining rules of the primitives *)

(** A tangent: the symbolic zero [ad.Zero] or a value. *)
Inductive tangent (A : Type) : Type :=
  | TZero
  | Tangent (x : A).
Arguments TZero {A}.
Arguments Tangent {A} x.

(** The two messages of [NotImplementedError] raised by [@]; the second
    names the shape of the operand. *)
Inductive NotImplementedError : Type :=
  | matmul_between_two_sparse_objects
  | matmul_with_object_of_shape (shape : list nat).

(** [np.issubdtype(dtype, np.floating) or
    np.issubdtype(dtype, np.complexfloating)] *)
Definition floating_or_complex (dtype : np_dtype) : bool :=
  match dtype with
  | np_float16 | np_float32 | np_float64 | np_complex64 | np_complex128 => true
  | _ => false
  end.

Section Rules.
Context {D : Dtype}.

(** An entry whose coordinates lie inside the shape. *)
Definition valid_entry (s : Shape) (e : Z * Z * elt) : Prop :=
  index_in (fst s) (fst (fst e)) /\ index_in (snd s) (snd (fst e)).

(** *** Dense operations of the array library *)

(** [a * x + b * y] on two vectors of one length, and on two matrices of
    one shape. *)
Definition axpby (a b : elt) (x y : list elt) : list elt :=
  map2 (fun s t => add (mul a s) (mul b t)) x y.

Definition axpby2 (a b : elt) (x y : ndarray2) : ndarray2 :=
  mk_ndarray2 (arr_shape x) (axpby a b (buf x) (buf y)).

(** The transpose of a dense matrix ([mhlo.TransposeOp] with permutation
    [[1, 0]]): cell [(c, r)] of the result is cell [(r, c)] of [m]. *)
Definition transpose2 (m : ndarray2) : ndarray2 :=
  let '(R, C) := arr_shape m in
  mk_ndarray2 (C, R)
    (map (fun k => nth ((k mod R) * C + k / R)%nat (buf m) zero)
         (seq 0 (C * R))).

(** The dense product [m @ v]: [(m @ v)[r] = sum_c m[r, c] * v[c]]. *)
Definition dense_matvec (m : ndarray2) (v : list elt) : list elt :=
  let '(R, C) := arr_shape m in
  map (fun r => sum (map (fun c => mul (nth (r * C + c)%nat (buf m) zero)
                                       (nth c v zero))
                         (seq 0 C)))
      (seq 0 R).

(** Column [j] of a dense matrix, [m[:, j]]. *)
Definition col_of (m : ndarray2) (j : nat) : list elt :=
  let '(R, C) := arr_shape m in
  map (fun r => nth (r * C + j)%nat (buf m) zero) (seq 0 R).

(** One step of the scatter-add of [matvec]: the entry [e] adds its value
    times [v] at its column to the output at its row. *)
Definition matvec_step (v : list elt) (y : list elt) (e : Z * Z * elt)
    : list elt :=
  at_add1 y (fst (fst e)) (mul (snd e) (take1 v (snd (fst e)))).

(** *** coo_todense *)

Definition _coo_todense_abstract_eval (data : list elt) (row col : list Z)
    (spinfo : COOInfo) : Shape :=
  shape spinfo.

Definition _coo_todense_lowering := _coo_todense_impl.

(** [coo_todense_mhlo] is the accelerated kernel, which receives the shape;
    when only the columns are sorted it is run on the matrix with [row] and
    [col] swapped and its result is transposed. *)
Definition _coo_todense_gpu_lowering
    (coo_todense_mhlo : list elt -> list Z -> list Z -> Shape -> ndarray2)
    (dtype : np_dtype) (data : list elt) (row col : list Z)
    (spinfo : COOInfo) : list CuSparseEfficiencyWarning * ndarray2 :=
  if negb (floating_or_complex dtype)
  then ([lowering_not_available "coo_todense" dtype],
        _coo_todense_lowering data row col spinfo)
  else
    let layout :=
      if rows_sorted spinfo then Some (row, col, false, shape spinfo)
      else if cols_sorted spinfo
           then Some (col, row, true, reversed (shape spinfo))
           else None in
    match layout with
    | Some (row, col, transpose, shape) =>
        let result := coo_todense_mhlo data row col shape in
        ([], if transpose then transpose2 result else result)
    | None =>
        ([requires_sorted "coo_todense"],
         _coo_todense_lowering data row col spinfo)
    end.

Definition reference_todense_kernel (data : list elt) (row col : list Z)
    (shape : Shape) : ndarray2 :=
  _coo_todense_impl data row col (mk_COOInfo shape false false).

Definition _coo_todense_jvp (data_dot data : list elt) (row col : list Z)
    (spinfo : COOInfo) : ndarray2 :=
  _coo_todense data_dot row col spinfo.

Definition shape_eqb (a b : Shape) : bool :=
  (fst a =? fst b)%nat && (snd a =? snd b)%nat.

(** The index arrays carry no dtype here, so the assertion that [row] and
    [col] have one dtype is not modelled; the assertion on the dtype of
    [ct] holds by typing. *)
Definition _coo_todense_transpose (ct : ndarray2)
    (data : primal (list elt) nat) (row col : primal (list Z) nat)
    (spinfo : COOInfo) : exn + (list elt * list Z * list Z) :=
  match data with
  | Known _ => inl AssertionError
  | UndefinedPrimal _ =>
      match row, col with
      | Known row, Known col =>
          if negb (shape_eqb (arr_shape ct) (shape spinfo))
          then inl AssertionError
          else inr (_coo_extract row col ct, row, col)
      | _, _ =>
          inl (ValueError "Cannot transpose with respect to sparse indices")
      end
  end.

(** *** coo_fromdense *)

(** The lengths of [data], [row] and [col]. *)
Definition _coo_fromdense_abstract_eval (mat : ndarray2) (nse : nat)
    (index_dtype : int_dtype) : nat * nat * nat :=
  (nse, nse, nse).

Definition _coo_fromdense_jvp (M : ndarray2) (Mdot : tangent ndarray2)
    (nse : nat) (index_dtype : int_dtype)
    : (list elt * list Z * list Z)
      * (tangent (list elt) * tangent (list Z) * tangent (list Z)) :=
  let primals_out := _coo_fromdense M nse index_dtype in
  let '(data, row, col) := primals_out in
  let data_dot :=
    match Mdot with
    | TZero => TZero
    | Tangent Mdot => Tangent (_coo_extract row col Mdot)
    end in
  (primals_out, (data_dot, TZero, TZero)).

(** *** coo_matvec *)

Definition _coo_matvec_jvp_mat (data_dot data : list elt) (row col : list Z)
    (v : list elt) (spinfo : COOInfo) (transpose : bool) : list elt :=
  _coo_matvec data_dot row col v spinfo transpose.

Definition _coo_matvec_jvp_vec (v_dot data : list elt) (row col : list Z)
    (v : list elt) (spinfo : COOInfo) (transpose : bool) : list elt :=
  _coo_matvec data row col v_dot spinfo transpose.

(** *** coo_matmat *)

(** The shape assertions of [_coo_matmat_abstract_eval] ([None] when one
    fails); the result is the shape of the output. *)
Definition _coo_matmat_abstract_eval (data : list elt) (row col : list Z)
    (B : ndarray2) (spinfo : COOInfo) (transpose : bool) : option Shape :=
  if (length data =? length row)%nat && (length row =? length col)%nat
     && (fst (arr_shape B) =? (if transpose then fst (shape spinfo)
                               else snd (shape spinfo)))%nat
  then Some (if transpose then snd (shape spinfo) else fst (shape spinfo),
             snd (arr_shape B))
  else None.

Definition _coo_matmat_jvp_left (data_dot data : list elt) (row col : list Z)
    (B : ndarray2) (spinfo : COOInfo) (transpose : bool) : ndarray2 :=
  _coo_matmat data_dot row col B spinfo transpose.

Definition _coo_matmat_jvp_right (B_dot : ndarray2) (data : list elt)
    (row col : list Z) (B : ndarray2) (spinfo : COOInfo) (transpose : bool)
    : ndarray2 :=
  _coo_matmat data row col B_dot spinfo transpose.

(** [row] and [col] are known values by type.  When [B] is the undefined
    primal the last component is its cotangent; otherwise the first
    component is the cotangent of [data], [(ct[row] * B[col]).sum(1)]. *)
Definition _coo_matmat_transpose (ct : ndarray2) (data : list elt)
    (row col : list Z) (B : primal ndarray2 Shape) (spinfo : COOInfo)
    (transpose : bool) : list elt * list Z * list Z * ndarray2 :=
  match B with
  | UndefinedPrimal _ =>
      (data, row, col, _coo_matmat data row col ct spinfo (negb transpose))
  | Known B =>
      (map2 (fun u w => sum (map2 mul u w)) (take_rows ct row) (take_rows B col),
       row, col, B)
  end.

(** *** The operator [@] of the container *)

(** The right operand of [@]: a sparse object, or an array given by its
    shape and its row-major buffer. *)
Inductive operand : Type :=
  | Sparse (m : COO)
  | Array (shape : list nat) (buffer : list elt).

Inductive product : Type :=
  | Vector (y : list elt)
  | Matrix (C : ndarray2).

(** [COO.__matmul__(self, other)]; promoting the dtypes changes nothing
    where there is one element dtype. *)
Definition __matmul__ (self : COO) (other : operand)
    : NotImplementedError + product :=
  match other with
  | Sparse _ => inl matmul_between_two_sparse_objects
  | Array shape buffer =>
      let self_promoted :=
        COO_init (data self, row self, col self) (coo_shape self)
                 (_rows_sorted self) (_cols_sorted self) in
      match shape with
      | [_] => inr (Vector (coo_matvec self_promoted buffer false))
      | [n; k] =>
          inr (Matrix (coo_matmat self_promoted (mk_ndarray2 (n, k) buffer)
                                  false))
      | _ => inl (matmul_with_object_of_shape shape)
      end
  end.

End Rules.

(** * Properties *)

(** ** Casts *)

Lemma astype_small (t : int_dtype) (x : Z) :
  - 2 ^ (bits t - 1) <= x < 2 ^ (bits t - 1) -> astype t x = x.
Proof.
  intros H. unfold astype.
  assert (E : 2 ^ bits t = 2 * 2 ^ (bits t - 1)).
  { replace (bits t) with (Z.succ (bits t - 1)) at 1 by lia.
    apply Z.pow_succ_r. destruct t; simpl; lia. }
  rewrite Z.mod_small; lia.
Qed.

Lemma astype_0 (t : int_dtype) : astype t 0 = 0.
Proof. destruct t; reflexivity. Qed.

Lemma astype_index (t : int_dtype) (n : nat) (i : Z) :
  fits t n -> 0 <= i < Z.of_nat n -> astype t i = i.
Proof.
  unfold fits. intros Hn Hi. apply astype_small.
  assert (0 < 2 ^ (bits t - 1)) by (destruct t; simpl; lia). lia.
Qed.

Lemma map_astype_index (t : int_dtype) (n : nat) (l : list Z) :
  fits t n -> Forall (fun i => 0 <= i < Z.of_nat n) l -> map (astype t) l = l.
Proof.
  intros Hn Hl. induction Hl as [|i l Hi _ IH]; simpl.
  - reflexivity.
  - rewrite IH. f_equal. eapply astype_index; eauto.
Qed.

(** ** Lists *)

Section ListFacts.
Context {A : Type}.

Lemma length_set_nth (k : nat) (a : A) (x : list A) :
  length (set_nth k a x) = length x.
Proof.
  revert k. induction x as [|b x IH]; intros [|k]; simpl; auto.
Qed.

Lemma set_nth_ge (k : nat) (a : A) (x : list A) :
  (length x <= k)%nat -> set_nth k a x = x.
Proof.
  revert k. induction x as [|b x IH]; intros [|k] H; simpl in *; auto; try lia.
  f_equal. apply IH. lia.
Qed.

Lemma nth_set_nth_eq (k : nat) (a d : A) (x : list A) :
  (k < length x)%nat -> nth k (set_nth k a x) d = a.
Proof.
  revert k. induction x as [|b x IH]; intros [|k] H; simpl in *; auto; try lia.
  apply IH. lia.
Qed.

Lemma nth_set_nth_neq (i k : nat) (a d : A) (x : list A) :
  i <> k -> nth i (set_nth k a x) d = nth i x d.
Proof.
  revert i k. induction x as [|b x IH]; intros [|i] [|k] H; simpl; auto;
    try congruence; try (apply IH; congruence).
Qed.

Lemma set_nth_twice (k : nat) (a b : A) (x : list A) :
  set_nth k a (set_nth k b x) = set_nth k a x.
Proof.
  revert k. induction x as [|c x IH]; intros [|k]; simpl; auto.
  f_equal. apply IH.
Qed.

Lemma set_nth_swap (i k : nat) (a b : A) (x : list A) :
  i <> k -> set_nth i a (set_nth k b x) = set_nth k b (set_nth i a x).
Proof.
  revert i k. induction x as [|c x IH]; intros [|i] [|k] H; simpl; auto;
    try congruence; try (f_equal; apply IH; congruence).
Qed.

Lemma set_nth_same (k : nat) (d : A) (x : list A) :
  set_nth k (nth k x d) x = x.
Proof.
  revert k. induction x as [|c x IH]; intros [|k]; simpl; auto.
  f_equal. apply IH.
Qed.

Lemma set_nth_middle (p q : list A) (a b : A) :
  set_nth (length p) a (p ++ b :: q) = p ++ a :: q.
Proof. induction p as [|c p IH]; simpl; [reflexivity | now rewrite IH]. Qed.

Lemma nth_StronglySorted (R : A -> A -> Prop) (l : list A) (d : A) :
  StronglySorted R l ->
  forall i j, (i < j < length l)%nat -> R (nth i l d) (nth j l d).
Proof.
  induction 1 as [|a l Hs IH Hall]; intros i j Hij; simpl in *; [lia|].
  destruct j as [|j]; [lia|]. destruct i as [|i].
  - rewrite Forall_forall in Hall. apply Hall. apply nth_In. lia.
  - apply IH. lia.
Qed.

Lemma fold_left_Permutation {S : Type} (step : S -> A -> S) :
  (forall s a b, step (step s a) b = step (step s b) a) ->
  forall l l', Permutation l l' ->
  forall s, fold_left step l s = fold_left step l' s.
Proof.
  intros Hc l l' HP. induction HP; intros s; simpl.
  - reflexivity.
  - apply IHHP.
  - now rewrite Hc.
  - now rewrite IHHP1.
Qed.

End ListFacts.

Lemma map2_nil_r {A B C : Type} (f : A -> B -> C) (x : list A) :
  map2 f x [] = [].
Proof. destruct x; reflexivity. Qed.

Lemma map2_app {A B C : Type} (f : A -> B -> C) (x1 x2 : list A) (y1 y2 : list B) :
  length x1 = length y1 ->
  map2 f (x1 ++ x2) (y1 ++ y2) = map2 f x1 y1 ++ map2 f x2 y2.
Proof.
  revert y1. induction x1 as [|a x1 IH]; intros [|b y1] H; simpl in *;
    try discriminate; auto.
  f_equal. apply IH. lia.
Qed.

Lemma map2_map {A B C E : Type} (f : A -> B -> C) (g : E -> A) (h : E -> B)
    (l : list E) :
  map2 f (map g l) (map h l) = map (fun e => f (g e) (h e)) l.
Proof. induction l; simpl; [reflexivity | now f_equal]. Qed.

Lemma map2_repeat {A B C : Type} (f : A -> B -> C) (a : A) (b : B) (n : nat) :
  map2 f (repeat a n) (repeat b n) = repeat (f a b) n.
Proof. induction n; simpl; [reflexivity | now f_equal]. Qed.

(** ** Indexing and scatter-add *)

Section KernelFacts.
Context {D : Dtype}.

Add Ring dtype_ring_inst : dtype_ring.

Lemma normalize_index_in (n : nat) (i : Z) :
  index_in n i -> normalize_index n i = i.
Proof.
  unfold index_in, normalize_index. intros H.
  destruct (Z.ltb_spec i 0); lia.
Qed.

Lemma in_bounds_in (n : nat) (i : Z) : index_in n i -> in_bounds n i = true.
Proof.
  unfold index_in, in_bounds. intros H.
  apply andb_true_intro. split; [apply Z.leb_le | apply Z.ltb_lt]; lia.
Qed.

Lemma clamp_index_in (n : nat) (i : Z) :
  index_in n i -> clamp_index n i = Z.to_nat i.
Proof.
  intros H. unfold clamp_index. rewrite normalize_index_in by assumption.
  unfold index_in in H. f_equal. lia.
Qed.

Lemma length_zeros (n : nat) : length (zeros n) = n.
Proof. apply repeat_length. Qed.

Lemma length_at_add1 (x : list elt) (i : Z) (u : elt) :
  length (at_add1 x i u) = length x.
Proof.
  unfold at_add1. destruct (in_bounds _ _); [apply length_set_nth | reflexivity].
Qed.

Lemma length_at_add (idx : list Z) (u x : list elt) :
  length (at_add x idx u) = length x.
Proof.
  revert u x. induction idx as [|i idx IH]; intros [|a u] x; simpl; auto.
  rewrite IH. apply length_at_add1.
Qed.

Lemma at_add1_in (x : list elt) (i : Z) (u : elt) :
  index_in (length x) i ->
  at_add1 x i u = set_nth (Z.to_nat i) (add (nth (Z.to_nat i) x zero) u) x.
Proof.
  intros H. unfold at_add1.
  rewrite normalize_index_in, in_bounds_in by assumption. reflexivity.
Qed.

Lemma take1_in (x : list elt) (i : Z) :
  index_in (length x) i -> take1 x i = nth (Z.to_nat i) x zero.
Proof. intros H. unfold take1. now rewrite clamp_index_in. Qed.

(** *** Inner products *)

Lemma inner_nil_r (x : list elt) : inner x [] = zero.
Proof. unfold inner. now rewrite map2_nil_r. Qed.

Lemma inner_cons (a b : elt) (x y : list elt) :
  inner (a :: x) (b :: y) = add (mul a b) (inner x y).
Proof. reflexivity. Qed.

Lemma inner_comm (x y : list elt) : inner x y = inner y x.
Proof.
  revert y. induction x as [|a x IH]; intros [|b y]; try reflexivity.
  rewrite !inner_cons, IH. ring.
Qed.

Lemma inner_zeros_l (n : nat) (y : list elt) : inner (zeros n) y = zero.
Proof.
  revert y. induction n as [|n IH]; intros [|b y]; try reflexivity.
  change (zeros (S n)) with (zero :: zeros n).
  rewrite inner_cons, IH. ring.
Qed.

Lemma inner_set_nth (x y : list elt) (k : nat) (a : elt) :
  length y = length x -> (k < length x)%nat ->
  inner (set_nth k (add (nth k x zero) a) x) y
  = add (inner x y) (mul a (nth k y zero)).
Proof.
  revert y k. induction x as [|c x IH]; intros [|b y] [|k] Hl Hk; simpl in *;
    try discriminate; try lia.
  - rewrite !inner_cons. ring.
  - rewrite !inner_cons, IH by lia. ring.
Qed.

Lemma inner_at_add (idx : list Z) (u x y : list elt) :
  length y = length x -> Forall (index_in (length x)) idx ->
  inner (at_add x idx u) y = add (inner x y) (inner u (take y idx)).
Proof.
  assert (Hnil : forall z : list elt, inner [] z = zero) by reflexivity.
  revert u x. induction idx as [|i idx IH]; intros u x Hl Hin.
  - destruct u; simpl; rewrite ?inner_nil_r, ?Hnil; ring.
  - destruct u as [|a u]; simpl.
    + rewrite Hnil. ring.
    + inversion Hin as [|? ? Hi Hidx]; subst.
      rewrite IH.
      * rewrite at_add1_in by assumption.
        rewrite inner_set_nth; [| assumption | unfold index_in in Hi; lia].
        rewrite inner_cons, take1_in by (rewrite Hl; assumption). ring.
      * now rewrite length_at_add1.
      * now rewrite length_at_add1.
Qed.

Lemma sum_map2_mul_swap (d a b : list elt) :
  sum (map2 mul (map2 mul d a) b) = sum (map2 mul (map2 mul d b) a).
Proof.
  revert a b. induction d as [|x d IH]; intros [|y a] [|z b]; simpl;
    rewrite ?map2_nil_r; auto.
  rewrite IH. ring.
Qed.

(** The inner product of a scatter-add into zeros with [y] gathers [y]. *)
Lemma inner_scatter_zeros (n : nat) (idx : list Z) (u y : list elt) :
  length y = n -> Forall (index_in n) idx ->
  inner (at_add (zeros n) idx u) y = inner u (take y idx).
Proof.
  intros Hl Hin. rewrite inner_at_add.
  - rewrite inner_zeros_l. ring.
  - now rewrite length_zeros.
  - now rewrite length_zeros.
Qed.

(** [<matvec(data, row, col, v, transpose=False), ct>] as one sum over the
    specified entries. *)
Lemma inner_matvec (data : list elt) (row col : list Z) (v ct : list elt)
    (spinfo : COOInfo) :
  Forall (index_in (fst (shape spinfo))) row ->
  length ct = fst (shape spinfo) ->
  inner (_coo_matvec_impl data row col v spinfo false) ct
  = sum (map2 mul (map2 mul data (take v col)) (take ct row)).
Proof.
  intros Hrow Hct. unfold _coo_matvec_impl.
  now rewrite inner_scatter_zeros.
Qed.

Lemma inner_matvec_T (data : list elt) (row col : list Z) (v ct : list elt)
    (spinfo : COOInfo) :
  Forall (index_in (snd (shape spinfo))) col ->
  length ct = snd (shape spinfo) ->
  inner (_coo_matvec_impl data row col v spinfo true) ct
  = sum (map2 mul (map2 mul data (take v row)) (take ct col)).
Proof.
  intros Hcol Hct. unfold _coo_matvec_impl.
  now rewrite inner_scatter_zeros.
Qed.

End KernelFacts.

(** ** Matrix-vector products *)

(** The adjoint identity of the reference product in the dense operand. *)
Lemma inner_matvec_adjoint {D : Dtype}
    (data : list elt) (row col : list Z) (v ct : list elt)
    (spinfo : COOInfo) (transpose : bool) :
  coo_valid data row col (shape spinfo) ->
  _coo_matvec_abstract_eval data row col v spinfo transpose
  = Some (length ct) ->
  inner (_coo_matvec data row col v spinfo transpose) ct
  = inner v (_coo_matvec data row col ct spinfo (negb transpose)).
Proof.
  intros (_ & _ & Hrow & Hcol) Ha.
  unfold _coo_matvec_abstract_eval in Ha.
  destruct (_ && _ && (length v =? _)%nat) eqn:E; [|discriminate].
  apply andb_true_iff in E. destruct E as [_ Hv].
  apply Nat.eqb_eq in Hv. injection Ha as Hct. symmetry in Hct.
  unfold _coo_matvec.
  rewrite (inner_comm v). destruct transpose; cbn [negb].
  - rewrite inner_matvec_T, inner_matvec by assumption.
    apply sum_map2_mul_swap.
  - rewrite inner_matvec, inner_matvec_T by assumption.
    apply sum_map2_mul_swap.
Qed.

(** C6.  For a valid COO matrix, a vector [v] and a cotangent [ct] such
    that the abstract evaluation rule accepts the product and gives the
    length of [ct] for its output: the cotangent that the transposition
    rule of [coo_matvec] returns for [v] is
    [matvec(data, row, col, ct, transpose = not transpose)], and
    [<matvec(data, row, col, v, transpose), ct>] equals the inner product of
    [v] with it. *)
Theorem matvec_transpose_rule_vec_adjoint {D : Dtype}
    (data : list elt) (row col : list Z) (v ct : list elt)
    (spinfo : COOInfo) (transpose : bool) :
  coo_valid data row col (shape spinfo) ->
  _coo_matvec_abstract_eval data row col v spinfo transpose
  = Some (length ct) ->
  snd (_coo_matvec_transpose ct data row col (UndefinedPrimal (length v))
                             spinfo transpose)
  = _coo_matvec data row col ct spinfo (negb transpose)
  /\ inner (_coo_matvec data row col v spinfo transpose) ct
     = inner v (snd (_coo_matvec_transpose ct data row col
                       (UndefinedPrimal (length v)) spinfo transpose)).
Proof.
  intros Hvalid Ha. split; [reflexivity|].
  cbn [_coo_matvec_transpose snd]. now apply inner_matvec_adjoint.
Qed.

Lemma matvec_transpose_rule_vec_adjoint_witness :
  coo_valid (D := Z_dtype) [2; 3; 4] [0; 1; 1] [1; 0; 2] (2, 3)%nat /\
  inner (_coo_matvec [2; 3; 4] [0; 1; 1] [1; 0; 2] [5; 6; 7]
                     (mk_COOInfo (2, 3)%nat false false) false) [1; -1]
  = inner [5; 6; 7]
          (_coo_matvec [2; 3; 4] [0; 1; 1] [1; 0; 2] [1; -1]
                       (mk_COOInfo (2, 3)%nat false false) true).
Proof.
  assert (Hv : coo_valid (D := Z_dtype) [2; 3; 4] [0; 1; 1] [1; 0; 2]
                 (2, 3)%nat).
  { unfold coo_valid, index_in. simpl.
    repeat split; repeat constructor; lia. }
  split; [exact Hv|].
  exact (proj2 (matvec_transpose_rule_vec_adjoint (D := Z_dtype)
                  [2; 3; 4] [0; 1; 1] [1; 0; 2] [5; 6; 7] [1; -1]
                  (mk_COOInfo (2, 3)%nat false false) false
                  Hv eq_refl)).
Defined.

(** The same identity for 32-bit integer data, whose arithmetic wraps. *)
Corollary inner_matvec_adjoint_int32
    (data : list (@elt (wrapping_dtype int32))) (row col : list Z)
    (v ct : list (@elt (wrapping_dtype int32))) (spinfo : COOInfo)
    (transpose : bool) :
  coo_valid data row col (shape spinfo) ->
  _coo_matvec_abstract_eval data row col v spinfo transpose
  = Some (length ct) ->
  inner (_coo_matvec data row col v spinfo transpose) ct
  = inner v (_coo_matvec data row col ct spinfo (negb transpose)).
Proof. apply (inner_matvec_adjoint (D := wrapping_dtype int32)). Qed.

(** C3.  Swapping [row] and [col], reversing the shape and flipping the
    transpose flag does not change what the reference kernels compute, for
    [coo_matvec] and for [coo_matmat]; hence the GPU lowerings, run with
    the reference semantics in place of the accelerated kernel, compute
    what the reference implementation computes, whatever the dtype and the
    layout flags. *)
Theorem swap_row_col_preserves_reference {D : Dtype}
    (data : list elt) (row col : list Z) (R C : nat) (t : bool)
    (rs cs rs' cs' : bool) :
  (forall v : list elt,
      _coo_matvec data col row v (mk_COOInfo (C, R) rs' cs') (negb t)
      = _coo_matvec data row col v (mk_COOInfo (R, C) rs cs) t)
  /\ (forall B : ndarray2,
         _coo_matmat data col row B (mk_COOInfo (C, R) rs' cs') (negb t)
         = _coo_matmat data row col B (mk_COOInfo (R, C) rs cs) t)
  /\ (forall (dtype : np_dtype) (v : list elt),
         snd (_coo_matvec_gpu_lowering reference_matvec_kernel dtype
                data row col v (mk_COOInfo (R, C) rs cs) t)
         = _coo_matvec_impl data row col v (mk_COOInfo (R, C) rs cs) t)
  /\ (forall (dtype : np_dtype) (B : ndarray2),
         snd (_coo_matmat_gpu_lowering reference_matmat_kernel dtype
                data row col B (mk_COOInfo (R, C) rs cs) t)
         = _coo_matmat_impl data row col B (mk_COOInfo (R, C) rs cs) t).
Proof.
  repeat split; intros.
  - destruct t; reflexivity.
  - destruct t; reflexivity.
  - unfold _coo_matvec_gpu_lowering.
    destruct (cusparse_dtype dtype); [|reflexivity].
    destruct rs, cs, t; reflexivity.
  - unfold _coo_matmat_gpu_lowering.
    destruct (cusparse_dtype dtype); [|reflexivity].
    destruct rs, cs, t; reflexivity.
Qed.



Lemma length_matvec {D : Dtype} (data : list elt) (row col : list Z)
    (v : list elt) (spinfo : COOInfo) (transpose : bool) :
  length (_coo_matvec_impl data row col v spinfo transpose)
  = if transpose then snd (shape spinfo) else fst (shape spinfo).
Proof.
  unfold _coo_matvec_impl. destruct transpose;
    now rewrite length_at_add, length_zeros.
Qed.

(** C7, as stated, fails on a 2 x 1 matrix: with the shape left unchanged
    the transposed product has length 1 and the product with swapped index
    arrays has length 2. *)
Lemma matvec_transpose_flag_same_shape_counterexample :
  _coo_matvec (D := Z_dtype) [7] [1] [0] [3; 4]
              (mk_COOInfo (2, 1)%nat false false) true = [28]
  /\ _coo_matvec (D := Z_dtype) [7] [0] [1] [3; 4]
                 (mk_COOInfo (2, 1)%nat false false) false = [28; 0]
  /\ _coo_matvec (D := Z_dtype) [7] [1] [0] [3; 4]
                 (mk_COOInfo (2, 1)%nat false false) true
     <> _coo_matvec (D := Z_dtype) [7] [0] [1] [3; 4]
                    (mk_COOInfo (2, 1)%nat false false) false.
Proof. repeat split. discriminate. Qed.

(** C7, amended.  [matvec(data, row, col, v, transpose=True)] on shape
    [(R, C)] equals [matvec(data, col, row, v, transpose=False)] on the
    reversed shape [(C, R)]; with one and the same shape in both calls the
    two results are equal exactly when the shape is square. *)
Theorem matvec_transpose_flag_is_index_swap {D : Dtype}
    (data : list elt) (row col : list Z) (v : list elt) :
  (forall (R C : nat) (rs cs rs' cs' : bool),
      _coo_matvec data row col v (mk_COOInfo (R, C) rs cs) true
      = _coo_matvec data col row v (mk_COOInfo (C, R) rs' cs') false)
  /\ (forall spinfo : COOInfo,
         _coo_matvec data row col v spinfo true
         = _coo_matvec data col row v spinfo false
         <-> fst (shape spinfo) = snd (shape spinfo)).
Proof.
  split; [reflexivity|]. intros [[R C] rs cs]. simpl. split.
  - intros H. apply (f_equal (@length _)) in H.
    unfold _coo_matvec in H. rewrite !length_matvec in H. simpl in H. lia.
  - intros ->. reflexivity.
Qed.

Section DataCotangent.
Context {D : Dtype}.

Add Ring dtype_ring_cot : dtype_ring.

Lemma sum_map2_mul_assoc (d a b : list elt) :
  sum (map2 mul (map2 mul d a) b) = sum (map2 mul d (map2 mul b a)).
Proof.
  revert a b. induction d as [|x d IH]; intros [|y a] [|z b]; simpl;
    rewrite ?map2_nil_r; auto.
  rewrite IH. ring.
Qed.

Lemma map2_map_map {A B C E F : Type} (f : A -> B -> C) (g : E -> A)
    (h : F -> B) (x : list E) (y : list F) :
  map2 f (map g x) (map h y) = map2 (fun a b => f (g a) (h b)) x y.
Proof.
  revert y. induction x as [|a x IH]; intros [|b y]; simpl; auto.
  now rewrite IH.
Qed.

Lemma map2_ext {A B C : Type} (f g : A -> B -> C) (x : list A) (y : list B) :
  (forall a b, f a b = g a b) -> map2 f x y = map2 g x y.
Proof.
  intros H. revert y. induction x as [|a x IH]; intros [|b y]; simpl; auto.
  now rewrite H, IH.
Qed.

Lemma clamp_index_lt (n : nat) (i : Z) :
  n <> 0%nat -> (clamp_index n i < n)%nat.
Proof. unfold clamp_index. intros Hn. lia. Qed.

Lemma clamp_index_0 (i : Z) : clamp_index 0 i = 0%nat.
Proof. unfold clamp_index. simpl. lia. Qed.

Lemma flat_map_nil {A B : Type} (l : list A) :
  flat_map (fun _ : A => @nil B) l = [].
Proof. induction l; simpl; auto. Qed.

Lemma nth_outer (a b : list elt) (i j : nat) :
  (i < length a)%nat -> (j < length b)%nat ->
  nth (i * length b + j) (buf (outer a b)) zero
  = mul (nth i a zero) (nth j b zero).
Proof.
  unfold outer. cbn [buf]. revert i.
  induction a as [|x a IH]; intros i Hi Hj; simpl in Hi; [lia|].
  cbn [flat_map]. destruct i as [|i].
  - rewrite app_nth1 by now rewrite length_map.
    rewrite (nth_indep _ zero (mul x zero)) by now rewrite length_map.
    now rewrite map_nth.
  - rewrite app_nth2 by (rewrite length_map; lia).
    rewrite length_map.
    replace (S i * length b + j - length b)%nat with (i * length b + j)%nat
      by lia.
    cbn [nth]. apply IH; lia.
Qed.

Lemma take2_1_outer (a b : list elt) (r c : Z) :
  take2_1 (outer a b) r c = mul (take1 a r) (take1 b c).
Proof.
  unfold take2_1, take1. cbn [arr_shape outer].
  destruct b as [|y b].
  - rewrite clamp_index_0. cbn [nth]. replace (buf (outer a [])) with (@nil elt).
    + destruct (_ + _)%nat; simpl; ring.
    + unfold outer. cbn [buf map]. now rewrite flat_map_nil.
  - destruct a as [|x a].
    + rewrite clamp_index_0. cbn [outer buf flat_map nth].
      destruct (_ + _)%nat; simpl; ring.
    + apply nth_outer; apply clamp_index_lt; simpl; lia.
Qed.

End DataCotangent.

(** X1.  The cotangent returned for [data] is, as the comment in the
    source says, [_coo_extract(row, col, jnp.outer(ct, v))], for all inputs and
    either value of the transpose flag. *)
Theorem matvec_transpose_rule_data_is_extract_outer {D : Dtype}
    (ct data : list elt) (row col : list Z) (v : list elt)
    (spinfo : COOInfo) (transpose : bool) :
  fst (fst (fst (_coo_matvec_transpose ct data row col (Known v)
                                       spinfo transpose)))
  = map2 mul (take ct row) (take v col)
  /\ map2 mul (take ct row) (take v col)
     = _coo_extract row col (outer ct v).
Proof.
  split; [reflexivity|].
  unfold _coo_extract, take2, take. rewrite map2_map_map.
  apply map2_ext. intros r c. symmetry. apply take2_1_outer.
Qed.

(** X2.  Without the transpose flag the cotangent returned for [data] is
    the adjoint of the product in [data]: for row indices inside the shape and
    a cotangent of the length of the output,
    [<matvec(ddata, row, col, v), ct> = <ddata, ct[row] * v[col]>]. *)
Theorem matvec_transpose_rule_data_adjoint {D : Dtype}
    (ddata ct data : list elt) (row col : list Z) (v : list elt)
    (spinfo : COOInfo) :
  Forall (index_in (fst (shape spinfo))) row ->
  length ct = fst (shape spinfo) ->
  inner (_coo_matvec ddata row col v spinfo false) ct
  = inner ddata
          (fst (fst (fst (_coo_matvec_transpose ct data row col (Known v)
                                                spinfo false)))).
Proof.
  intros Hrow Hct. unfold _coo_matvec.
  rewrite inner_matvec by assumption.
  cbn [_coo_matvec_transpose fst]. apply sum_map2_mul_assoc.
Qed.

Lemma matvec_transpose_rule_data_adjoint_witness :
  Forall (index_in 2) [0; 1; 1]
  /\ inner (_coo_matvec (D := Z_dtype) [1; 2; 3] [0; 1; 1] [1; 0; 2] [5; 6; 7]
                        (mk_COOInfo (2, 3)%nat false false) false) [1; -1]
     = inner (D := Z_dtype) [1; 2; 3]
             (fst (fst (fst (_coo_matvec_transpose [1; -1] [0; 0; 0]
                               [0; 1; 1] [1; 0; 2] (Known [5; 6; 7])
                               (mk_COOInfo (2, 3)%nat false false) false)))).
Proof.
  assert (H : Forall (index_in 2) [0; 1; 1])
    by (unfold index_in; repeat constructor; lia).
  split; [exact H|].
  exact (matvec_transpose_rule_data_adjoint (D := Z_dtype)
           [1; 2; 3] [1; -1] [0; 0; 0] [0; 1; 1] [1; 0; 2] [5; 6; 7]
           (mk_COOInfo (2, 3)%nat false false) H eq_refl).
Defined.

(** X3.  With the transpose flag the adjoint of the product in [data] gathers
    [ct] at [col] and [v] at [row]:
    [<matvec(ddata, row, col, v, transpose=True), ct>
     = <ddata, ct[col] * v[row]>]. *)
Theorem matvec_transposed_data_adjoint {D : Dtype}
    (ddata ct : list elt) (row col : list Z) (v : list elt)
    (spinfo : COOInfo) :
  Forall (index_in (snd (shape spinfo))) col ->
  length ct = snd (shape spinfo) ->
  inner (_coo_matvec ddata row col v spinfo true) ct
  = inner ddata (map2 mul (take ct col) (take v row)).
Proof.
  intros Hcol Hct. unfold _coo_matvec.
  rewrite inner_matvec_T by assumption. apply sum_map2_mul_assoc.
Qed.

Lemma matvec_transposed_data_adjoint_witness :
  Forall (index_in 2) [1]
  /\ inner (_coo_matvec (D := Z_dtype) [1] [0] [1] [1; 0]
                        (mk_COOInfo (2, 2)%nat false false) true) [0; 1]
     = inner (D := Z_dtype) [1] (map2 mul (take [0; 1] [1]) (take [1; 0] [0])).
Proof.
  assert (H : Forall (index_in 2) [1])
    by (unfold index_in; repeat constructor; lia).
  split; [exact H|].
  exact (matvec_transposed_data_adjoint (D := Z_dtype)
           [1] [0; 1] [0] [1] [1; 0]
           (mk_COOInfo (2, 2)%nat false false) H eq_refl).
Defined.

(** C1, the failing input.  On a 2 x 2 matrix with one entry at [(0, 1)],
    [transpose = True], [v = [1, 0]] and [ct = [0, 1]], the transposition
    rule returns the cotangent [ct[row] * v[col] = [0]] for [data], so that
    [<ddata, ct[row] * v[col]> = 0] for the tangent [ddata = [1]], while
    [<matvec(ddata, row, col, v, transpose=True), ct> = 1]: the adjoint
    identity is broken under the transpose flag. *)
Lemma matvec_transpose_rule_data_ignores_flag :
  fst (fst (fst (_coo_matvec_transpose (D := Z_dtype) [0; 1] [1] [0] [1]
                   (Known [1; 0]) (mk_COOInfo (2, 2)%nat false false) true)))
  = [0]
  /\ inner (_coo_matvec (D := Z_dtype) [1] [0] [1] [1; 0]
                        (mk_COOInfo (2, 2)%nat false false) true) [0; 1] = 1
  /\ inner (D := Z_dtype) [1]
           (fst (fst (fst (_coo_matvec_transpose [0; 1] [1] [0] [1]
                             (Known [1; 0])
                             (mk_COOInfo (2, 2)%nat false false) true)))) = 0
  /\ inner (_coo_matvec (D := Z_dtype) [1] [0] [1] [1; 0]
                        (mk_COOInfo (2, 2)%nat false false) true) [0; 1]
     <> inner (D := Z_dtype) [1]
              (fst (fst (fst (_coo_matvec_transpose [0; 1] [1] [0] [1]
                                (Known [1; 0])
                                (mk_COOInfo (2, 2)%nat false false) true)))).
Proof. repeat split. discriminate. Qed.

(** ** The transposition rule of [coo_fromdense] *)

Lemma int_dtype_eqb_eq (a b : int_dtype) : int_dtype_eqb a b = true <-> a = b.
Proof. destruct a, b; simpl; split; congruence. Qed.

(** C2, as stated, fails in both directions.  With index cotangents that
    are arrays with a non-zero entry the rule succeeds and scatters the
    data cotangent at them; with the symbolic zero on both index outputs
    the rule raises. *)
Lemma fromdense_transpose_zero_indices_counterexample :
  _coo_fromdense_transpose (D := Z_dtype)
      ([5], Indices int32 [0], Indices int32 [1])
      (UndefinedPrimal (2, 2)%nat) 1 int32
  = inr (mk_ndarray2 (2, 2)%nat [0; 5; 0; 0])
  /\ _coo_fromdense_transpose (D := Z_dtype)
         ([5], Zero int32, Zero int32)
         (UndefinedPrimal (2, 2)%nat) 1 int32
     = inl (ValueError "Cannot transpose with respect to sparse indices").
Proof. split; reflexivity. Qed.

(** C2, amended.  The rule raises its [ValueError] exactly when the length
    and dtype assertions hold and the cotangent of [row] or of [col] is the
    symbolic zero; it returns a result exactly when the assertions hold,
    both index cotangents are arrays and [M] is the undefined primal, and
    the result is then [todense(ct_data, ct_row, ct_col)] on the shape of
    [M]. *)
Theorem fromdense_transpose_rule_outcome {D : Dtype}
    (data : list elt) (row col : index_ct) (M : primal ndarray2 Shape)
    (nse : nat) (index_dtype : int_dtype) :
  (_coo_fromdense_transpose (data, row, col) M nse index_dtype
   = inl (ValueError "Cannot transpose with respect to sparse indices")
   <-> length data = nse /\ ct_dtype row = ct_dtype col
       /\ ct_dtype col = index_dtype
       /\ (isinstance_Zero row = true \/ isinstance_Zero col = true))
  /\ (forall out : ndarray2,
         _coo_fromdense_transpose (data, row, col) M nse index_dtype = inr out
         <-> length data = nse /\ ct_dtype row = ct_dtype col
             /\ ct_dtype col = index_dtype
             /\ isinstance_Zero row = false /\ isinstance_Zero col = false
             /\ exists s : Shape,
                  M = UndefinedPrimal s
                  /\ out = _coo_todense data (ct_values row) (ct_values col)
                                        (mk_COOInfo s false false)).
Proof.
  unfold _coo_fromdense_transpose.
  destruct (Nat.eqb_spec (length data) nse) as [Hn|Hn]; cbn [negb].
  2:{ split; [|intros out]; split; try discriminate; intros (? & _);
      contradiction. }
  destruct (int_dtype_eqb (ct_dtype row) (ct_dtype col)) eqn:E1; cbn [andb negb].
  2:{ assert (ct_dtype row <> ct_dtype col)
        by (intros H; apply int_dtype_eqb_eq in H; congruence).
      split; [|intros out]; split; try discriminate; intros (_ & ? & _);
      contradiction. }
  apply int_dtype_eqb_eq in E1.
  destruct (int_dtype_eqb (ct_dtype col) index_dtype) eqn:E2; cbn [negb].
  2:{ assert (ct_dtype col <> index_dtype)
        by (intros H; apply int_dtype_eqb_eq in H; congruence).
      split; [|intros out]; split; try discriminate; intros (_ & _ & ? & _);
      contradiction. }
  apply int_dtype_eqb_eq in E2.
  destruct (isinstance_Zero row) eqn:Zr; cbn [orb].
  { split; [|intros out]; split; try discriminate; auto 6.
    intros (_ & _ & _ & ? & _). discriminate. }
  destruct (isinstance_Zero col) eqn:Zc.
  { split; [|intros out]; split; try discriminate; auto 6.
    intros (_ & _ & _ & _ & ? & _). discriminate. }
  destruct M as [s|m]; split; try intros out; split; try discriminate.
  - intros (_ & _ & _ & [?|?]); discriminate.
  - intros H. injection H as <-. repeat split; auto. now exists s.
  - intros (_ & _ & _ & _ & _ & s' & Hs & ->). now injection Hs as <-.
  - intros (_ & _ & _ & [?|?]); discriminate.
  - intros (_ & _ & _ & _ & _ & s' & Hs & _). discriminate.
Qed.

(** ** Layout flags of [fromdense] *)

(** C10.  Whatever the dense input, the requested [nse] (given or
    defaulted to the count of nonzero entries) and the index dtype, the
    matrix returned by [fromdense] has [rows_sorted = true] and
    [cols_sorted = false].  The flag is set even when the padding breaks
    the order: for the 2 x 1 matrix with its one nonzero entry in row 1 and
    [nse = 2], the returned [row] is [[1, 0]], which is not
    non-decreasing. *)
Theorem fromdense_sets_rows_sorted_unconditionally :
  (forall (D : Dtype) (mat : ndarray2) (nse : option nat)
          (index_dtype : int_dtype),
      _rows_sorted (fromdense mat nse index_dtype) = true
      /\ _cols_sorted (fromdense mat nse index_dtype) = false)
  /\ count_nonzero (mk_ndarray2 (D := Z_dtype) (2, 1)%nat [0; 1]) = 1%nat
  /\ fromdense (mk_ndarray2 (D := Z_dtype) (2, 1)%nat [0; 1]) (Some 2%nat)
               int32
     = mk_COO [1; 0] [1; 0] [0; 0] (2, 1)%nat true false
  /\ ~ Sorted Z.le
        (row (fromdense (mk_ndarray2 (D := Z_dtype) (2, 1)%nat [0; 1])
                        (Some 2%nat) int32)).
Proof.
  split; [|split; [reflexivity|split; [reflexivity|]]].
  - intros D mat nse index_dtype.
    unfold fromdense, coo_fromdense, COO_init.
    destruct (_coo_fromdense mat _ index_dtype) as [[d r] c]. split; reflexivity.
  - intros H. change (Sorted Z.le [1; 0]) in H.
    inversion H as [|? ? _ Hd]; subst. inversion Hd as [|? ? Hle]; subst.
    lia.
Qed.

(** ** The diagonal constructor *)

Lemma seq_map_ext_in {B : Type} (f g : nat -> B) (a n : nat) :
  (forall i, (a <= i < a + n)%nat -> f i = g i) ->
  map f (seq a n) = map g (seq a n).
Proof.
  intros H. apply map_ext_in. intros i Hi. apply in_seq in Hi. auto.
Qed.

(** C9.  For a shape [(N, M)] whose dimensions fit the index dtype and an
    offset [k], let [d] be [min(N, M - k)] for [k > 0] and [min(N + k, M)]
    otherwise.  When [d > 0] the constructor returns [d] unit entries, at
    the coordinates [(i, i + k)] for [k >= 0] and [(i - k, i)] for [k < 0],
    [i = 0 .. d-1]; no cell of the shape lies on the requested diagonal
    exactly when [d <= 0], and the constructor then returns the empty
    matrix.  Shape [(3, 3)] with [k = 1] gives two unit entries at [(0, 1)]
    and [(1, 2)], and with [k = 5] no entry. *)
Theorem eye_entries {D : Dtype} (N M : nat) (k : Z) (index_dtype : int_dtype) :
  fits index_dtype N -> fits index_dtype M ->
  coo_shape (_eye N M k index_dtype) = (N, M)
  /\ (0 < diag_size N M k ->
      nse (_eye N M k index_dtype) = Z.to_nat (diag_size N M k)
      /\ data (_eye N M k index_dtype)
         = repeat one (Z.to_nat (diag_size N M k))
      /\ row (_eye N M k index_dtype)
         = map (fun i => if 0 <=? k then Z.of_nat i else Z.of_nat i - k)
               (seq 0 (Z.to_nat (diag_size N M k)))
      /\ col (_eye N M k index_dtype)
         = map (fun i => if 0 <=? k then Z.of_nat i + k else Z.of_nat i)
               (seq 0 (Z.to_nat (diag_size N M k))))
  /\ ((forall r c : Z,
          0 <= r < Z.of_nat N -> 0 <= c < Z.of_nat M -> c - r <> k)
      <-> diag_size N M k <= 0)
  /\ ((forall r c : Z,
          0 <= r < Z.of_nat N -> 0 <= c < Z.of_nat M -> c - r <> k) ->
      nse (_eye N M k index_dtype) = 0%nat
      /\ _eye N M k index_dtype = _empty (N, M))
  /\ _eye 3 3 1 int32 = mk_COO [one; one] [0; 1] [1; 2] (3, 3)%nat true true
  /\ _eye 3 3 5 int32 = mk_COO [] [] [] (3, 3)%nat true true.
Proof.
  intros HN HM. set (d := diag_size N M k).
  assert (Hp : 0 < 2 ^ (bits index_dtype - 1))
    by (destruct index_dtype; simpl; lia).
  unfold fits in HN, HM.
  assert (Hout : (forall r c : Z,
                     0 <= r < Z.of_nat N -> 0 <= c < Z.of_nat M -> c - r <> k)
                 <-> d <= 0).
  { subst d. unfold diag_size. split.
    - intros H. destruct (Z.ltb_spec 0 k) as [Hk|Hk].
      + destruct (Z.le_gt_cases (Z.min (Z.of_nat N) (Z.of_nat M - k)) 0)
          as [|Hpos]; [assumption|].
        exfalso. apply (H 0 k); lia.
      + destruct (Z.le_gt_cases (Z.min (Z.of_nat N + k) (Z.of_nat M)) 0)
          as [|Hpos]; [assumption|].
        exfalso. apply (H (- k) 0); lia.
    - intros Hd r c Hr Hc. destruct (Z.ltb_spec 0 k); lia. }
  split; [|split; [|split; [exact Hout|split; [|split; reflexivity]]]].
  - unfold _eye. fold d. destruct (d <=? 0); reflexivity.
  - intros Hd. unfold _eye. fold d.
    destruct (Z.leb_spec d 0) as [?|_]; [lia|].
    unfold nse, ones. cbn [COO_init data row col].
    rewrite repeat_length. split; [reflexivity|]. split; [reflexivity|].
    assert (Hk : _const index_dtype k = k).
    { apply astype_small. subst d. unfold diag_size in *.
      destruct (Z.ltb_spec 0 k); lia. }
    assert (H0 : _const index_dtype 0 = 0) by apply astype_0.
    rewrite Hk, H0. unfold lax_sub, lax_add, arange. rewrite !map_map.
    split; apply seq_map_ext_in; intros i Hi.
    + rewrite (astype_small _ (Z.of_nat i))
        by (subst d; unfold diag_size in *; destruct (Z.ltb_spec 0 k); lia).
      destruct (Z.leb_spec 0 k);
        (rewrite astype_small
           by (subst d; unfold diag_size in *; destruct (Z.ltb_spec 0 k); lia));
        lia.
    + rewrite (astype_small _ (Z.of_nat i))
        by (subst d; unfold diag_size in *; destruct (Z.ltb_spec 0 k); lia).
      destruct (Z.leb_spec k 0); destruct (Z.leb_spec 0 k);
        (rewrite astype_small
           by (subst d; unfold diag_size in *; destruct (Z.ltb_spec 0 k); lia));
        lia.
  - intros H. apply Hout in H. unfold _eye. fold d.
    destruct (Z.leb_spec d 0) as [_|?]; [|lia]. split; reflexivity.
Qed.

Lemma eye_entries_witness :
  fits int32 3 /\ fits int32 4
  /\ row (_eye (D := Z_dtype) 3 4 (-1) int32) = [1; 2]
  /\ col (_eye (D := Z_dtype) 3 4 (-1) int32) = [0; 1].
Proof.
  assert (H3 : fits int32 3) by (unfold fits; simpl; lia).
  assert (H4 : fits int32 4) by (unfold fits; simpl; lia).
  split; [exact H3|]. split; [exact H4|].
  destruct (eye_entries (D := Z_dtype) 3 4 (-1) int32 H3 H4)
    as (_ & Hpos & _).
  destruct (Hpos ltac:(vm_compute; reflexivity)) as (_ & _ & Hr & Hc).
  split; [exact Hr | exact Hc].
Defined.

(** ** Dense conversion, both ways *)

Section RoundTrip.
Context {D : Dtype}.

Add Ring dtype_ring_roundtrip : dtype_ring.

Lemma ndarray2_eta (m : ndarray2) : mk_ndarray2 (arr_shape m) (buf m) = m.
Proof. now destruct m. Qed.

Lemma length_flatnonzero_from (off : nat) (x : list elt) :
  length (flatnonzero_from off x) = length (filter nonzero x).
Proof.
  revert off. induction x as [|a x IH]; intros off; simpl; [reflexivity|].
  destruct (nonzero a); simpl; now rewrite IH.
Qed.

Lemma flatnonzero_from_range (off : nat) (x : list elt) :
  Forall (fun i => (off <= i < off + length x)%nat) (flatnonzero_from off x).
Proof.
  revert off. induction x as [|a x IH]; intros off; simpl; [constructor|].
  assert (H : Forall (fun i => (off <= i < off + S (length x))%nat)
                     (flatnonzero_from (S off) x)).
  { eapply Forall_impl; [|apply IH]. simpl. intros; lia. }
  destruct (nonzero a); [constructor; [lia | exact H] | exact H].
Qed.

(** Reading the buffer at the nonzero positions gives the nonzero values. *)
Lemma nth_flatnonzero_from (p x : list elt) :
  map (fun i => nth i (p ++ x) zero) (flatnonzero_from (length p) x)
  = filter nonzero x.
Proof.
  revert p. induction x as [|a x IH]; intros p; simpl; [reflexivity|].
  assert (E : p ++ a :: x = (p ++ [a]) ++ x) by now rewrite <- app_assoc.
  assert (L : S (length p) = length (p ++ [a]))
    by (rewrite length_app; simpl; lia).
  destruct (nonzero a); simpl.
  - f_equal.
    + now rewrite nth_middle.
    + rewrite E, L. apply IH.
  - rewrite E, L. apply IH.
Qed.

(** Scattering the nonzero values at their positions into zeros rebuilds
    the buffer. *)
Lemma at_add_flatnonzero_from (p x : list elt) :
  at_add (p ++ zeros (length x))
         (map Z.of_nat (flatnonzero_from (length p) x)) (filter nonzero x)
  = p ++ x.
Proof.
  revert p. induction x as [|a x IH]; intros p; simpl; [reflexivity|].
  assert (E : forall y, p ++ a :: y = (p ++ [a]) ++ y)
    by (intros; now rewrite <- app_assoc).
  assert (L : S (length p) = length (p ++ [a]))
    by (rewrite length_app; simpl; lia).
  destruct (nonzero a) eqn:Ha; simpl.
  - rewrite at_add1_in.
    2:{ unfold index_in. rewrite length_app. simpl. lia. }
    rewrite Nat2Z.id.
    change (zeros (S (length x))) with (zero :: zeros (length x)).
    rewrite nth_middle, set_nth_middle.
    replace (add zero a) with a by ring.
    rewrite (E x), (E (zeros (length x))), L. apply IH.
  - apply nonzero_spec in Ha. subst a.
    change (zeros (S (length x))) with (zero :: zeros (length x)).
    rewrite (E x), (E (zeros (length x))), L. apply IH.
Qed.

Lemma at_add2_1_ravel (m : ndarray2) (R C i : nat) (u : elt) :
  arr_shape m = (R, C) -> length (buf m) = (R * C)%nat -> (i < R * C)%nat ->
  at_add2_1 m (Z.of_nat (i / C)) (Z.of_nat (i mod C)) u
  = mk_ndarray2 (R, C) (at_add1 (buf m) (Z.of_nat i) u).
Proof.
  intros Hs Hl Hi.
  assert (HC : C <> 0%nat) by (intros ->; lia).
  assert (Hr : (i / C < R)%nat)
    by (apply Nat.Div0.div_lt_upper_bound; lia).
  assert (Hc : (i mod C < C)%nat) by (apply Nat.mod_upper_bound; lia).
  unfold at_add2_1. rewrite Hs.
  rewrite !normalize_index_in by (unfold index_in; lia).
  rewrite !in_bounds_in by (unfold index_in; lia). cbn [andb].
  rewrite at_add1_in by (unfold index_in; lia).
  rewrite !Nat2Z.id.
  replace (i / C * C + i mod C)%nat with i
    by (rewrite (Nat.div_mod_eq i C) at 1; lia).
  reflexivity.
Qed.

(** A scatter-add at the coordinates of flat positions is the scatter-add
    on the buffer. *)
Lemma at_add2_ravel (R C : nat) (pos : list nat) (vals : list elt)
    (m : ndarray2) :
  arr_shape m = (R, C) -> length (buf m) = (R * C)%nat ->
  Forall (fun i => (i < R * C)%nat) pos ->
  at_add2 m (map (fun i => Z.of_nat (i / C)) pos)
            (map (fun i => Z.of_nat (i mod C)) pos) vals
  = mk_ndarray2 (R, C) (at_add (buf m) (map Z.of_nat pos) vals).
Proof.
  revert vals m. induction pos as [|i pos IH]; intros vals m Hs Hl Hpos.
  - simpl. rewrite <- Hs. symmetry. apply ndarray2_eta.
  - destruct vals as [|u vals]; simpl.
    + rewrite <- Hs. symmetry. apply ndarray2_eta.
    + inversion Hpos as [|? ? Hi Hpos']; subst.
      rewrite (at_add2_1_ravel m R C) by assumption.
      rewrite IH; simpl; auto. now rewrite length_at_add1.
Qed.

(** Padding entries: value zero at coordinate [(0, 0)] changes nothing. *)
Lemma at_add2_1_zero (m : ndarray2) (r c : Z) :
  at_add2_1 m r c zero = m.
Proof.
  unfold at_add2_1. destruct (arr_shape m) as [R C] eqn:E.
  destruct (_ && _); [|reflexivity].
  replace (add (nth _ (buf m) zero) zero) with
    (nth (Z.to_nat (normalize_index R r) * C
          + Z.to_nat (normalize_index C c)) (buf m) zero) by ring.
  rewrite set_nth_same. rewrite <- E. apply ndarray2_eta.
Qed.

Lemma at_add2_padding (m : ndarray2) (n : nat) :
  at_add2 m (repeat 0 n) (repeat 0 n) (repeat zero n) = m.
Proof.
  induction n as [|n IH]; simpl; [reflexivity|].
  now rewrite at_add2_1_zero.
Qed.

Lemma at_add2_app (m : ndarray2) (r1 r2 c1 c2 : list Z) (d1 d2 : list elt) :
  length r1 = length d1 -> length c1 = length d1 ->
  at_add2 m (r1 ++ r2) (c1 ++ c2) (d1 ++ d2)
  = at_add2 (at_add2 m r1 c1 d1) r2 c2 d2.
Proof.
  revert m c1 d1. induction r1 as [|r r1 IH]; intros m [|c c1] [|d d1] Hr Hc;
    simpl in *; try discriminate; auto.
Qed.

Lemma map_constant {A B : Type} (f : A -> B) (b : B) (l : list A) :
  (forall a, In a l -> f a = b) -> map f l = repeat b (length l).
Proof.
  induction l as [|a l IH]; intros H; simpl; [reflexivity|].
  rewrite H by now left. f_equal. apply IH. intros; apply H. now right.
Qed.

Lemma true_nonzeros_mask (k n : nat) :
  map (fun i => (i <? k)%nat) (seq 0 (k + n)) = repeat true k ++ repeat false n.
Proof.
  rewrite seq_app, map_app. f_equal.
  - rewrite (map_constant _ true), length_seq; [reflexivity|].
    intros i Hi. apply in_seq in Hi. apply Nat.ltb_lt. lia.
  - rewrite (map_constant _ false), length_seq; [reflexivity|].
    intros i Hi. apply in_seq in Hi. apply Nat.ltb_ge. lia.
Qed.

Lemma where0_true (x : list elt) : where0 (repeat true (length x)) x = x.
Proof.
  unfold where0. induction x as [|a x IH]; simpl; [reflexivity|].
  f_equal. apply IH.
Qed.

Lemma take2_1_ravel (m : ndarray2) (R C i : nat) :
  arr_shape m = (R, C) -> (i < R * C)%nat ->
  take2_1 m (Z.of_nat (i / C)) (Z.of_nat (i mod C)) = nth i (buf m) zero.
Proof.
  intros Hs Hi.
  assert (HC : C <> 0%nat) by (intros ->; lia).
  assert (Hr : (i / C < R)%nat)
    by (apply Nat.Div0.div_lt_upper_bound; lia).
  assert (Hc : (i mod C < C)%nat) by (apply Nat.mod_upper_bound; lia).
  unfold take2_1. rewrite Hs.
  rewrite !clamp_index_in by (unfold index_in; lia).
  rewrite !Nat2Z.id. f_equal.
  rewrite (Nat.div_mod_eq i C) at 3. lia.
Qed.

(** What [_coo_fromdense_impl] returns when [nse] is at least the number of
    nonzero entries of a well-formed matrix. *)
Lemma fromdense_impl_padded (mat : ndarray2) (n : nat) (t : int_dtype) :
  wf_ndarray2 mat ->
  fits t (fst (arr_shape mat)) -> fits t (snd (arr_shape mat)) ->
  (count_nonzero mat <= n)%nat ->
  _coo_fromdense_impl mat n t
  = (filter nonzero (buf mat) ++ repeat zero (n - count_nonzero mat),
     map (fun i => Z.of_nat (i / snd (arr_shape mat))) (flatnonzero (buf mat))
       ++ repeat 0 (n - count_nonzero mat),
     map (fun i => Z.of_nat (i mod snd (arr_shape mat))) (flatnonzero (buf mat))
       ++ repeat 0 (n - count_nonzero mat)).
Proof.
  destruct mat as [[R C] b]. unfold wf_ndarray2, count_nonzero. simpl.
  intros Hwf HR HC Hn.
  set (k := length (filter nonzero b)) in *.
  set (pos := flatnonzero b).
  assert (Hlen : length pos = k) by apply length_flatnonzero_from.
  assert (Hpos : Forall (fun i => (i < R * C)%nat) pos).
  { eapply Forall_impl; [|apply (flatnonzero_from_range 0 b)].
    simpl. intros; lia. }
  assert (HC0 : forall i, (i < R * C)%nat -> C <> 0%nat)
    by (intros i Hi ->; lia).
  unfold _coo_fromdense_impl, jnp_nonzero. cbn [arr_shape buf snd fst].
  fold pos. rewrite firstn_all2 by lia. rewrite Hlen.
  unfold count_nonzero. cbn [buf]. fold k.
  f_equal; [f_equal|].
  - unfold take2. rewrite map2_app by now rewrite !length_map.
    rewrite map2_map, map2_repeat.
    replace n with (k + (n - k))%nat at 1 by lia.
    rewrite true_nonzeros_mask.
    unfold where0.
    rewrite map2_app by (rewrite repeat_length, length_map; now symmetry).
    f_equal.
    + replace (map _ pos) with (filter nonzero b).
      * fold (where0 (repeat true k) (filter nonzero b)). apply where0_true.
      * rewrite <- (nth_flatnonzero_from [] b). apply map_ext_in.
        intros i Hi. rewrite Forall_forall in Hpos.
        symmetry.
        apply (take2_1_ravel (mk_ndarray2 (R, C) b) R C);
          [reflexivity | apply Hpos; exact Hi].
    + now rewrite map2_repeat.
  - rewrite map_app. f_equal.
    + apply (map_astype_index t R); [assumption|].
      apply Forall_map. eapply Forall_impl; [|exact Hpos]. simpl.
      intros i Hi. specialize (HC0 i Hi).
      assert ((i / C < R)%nat) by (apply Nat.Div0.div_lt_upper_bound; lia).
      lia.
    + rewrite map_repeat. now rewrite astype_0.
  - rewrite map_app. f_equal.
    + apply (map_astype_index t C); [assumption|].
      apply Forall_map. eapply Forall_impl; [|exact Hpos]. simpl.
      intros i Hi. specialize (HC0 i Hi).
      assert ((i mod C < C)%nat) by (apply Nat.mod_upper_bound; lia).
      lia.
    + rewrite map_repeat. now rewrite astype_0.
Qed.

(** [todense] of what [fromdense] returns, for any [nse] that is at least
    the number of nonzero entries. *)
Lemma todense_fromdense_impl (mat : ndarray2) (n : nat) (t : int_dtype)
    (rs cs : bool) :
  wf_ndarray2 mat ->
  fits t (fst (arr_shape mat)) -> fits t (snd (arr_shape mat)) ->
  (count_nonzero mat <= n)%nat ->
  todense (COO_init (_coo_fromdense mat n t) (arr_shape mat) rs cs) = mat.
Proof.
  intros Hwf HR HC Hn. unfold _coo_fromdense.
  rewrite fromdense_impl_padded by assumption.
  unfold todense, coo_todense, _coo_todense, _coo_todense_impl, COO_init.
  cbn [data row col _info shape coo_shape].
  destruct mat as [[R C] b]. unfold wf_ndarray2 in Hwf.
  cbn [arr_shape buf fst snd] in *.
  rewrite at_add2_app
    by (rewrite length_map; apply (length_flatnonzero_from 0)).
  rewrite at_add2_padding.
  rewrite (at_add2_ravel R C).
  - f_equal. cbn [zeros2 buf fst snd]. rewrite <- Hwf.
    apply (at_add_flatnonzero_from [] b).
  - reflexivity.
  - cbn [zeros2 buf fst snd]. apply length_zeros.
  - eapply Forall_impl; [|apply (flatnonzero_from_range 0 b)].
    simpl. intros; lia.
Qed.

Lemma flatnonzero_from_sorted (off : nat) (x : list elt) :
  StronglySorted lt (flatnonzero_from off x).
Proof.
  revert off. induction x as [|a x IH]; intros off; simpl; [constructor|].
  destruct (nonzero a); [|apply IH].
  constructor; [apply IH|].
  eapply Forall_impl; [|apply flatnonzero_from_range]. simpl. intros; lia.
Qed.

(** The coordinates returned for the true nonzero entries are in row-major
    order: their flat positions increase. *)
Lemma unravel_row_major (C : nat) (pos : list nat) :
  Forall (fun i => C <> 0%nat) pos ->
  StronglySorted lt pos ->
  StronglySorted Z.lt
    (map2 (fun r c => r * Z.of_nat C + c)
          (map (fun i => Z.of_nat (i / C)) pos)
          (map (fun i => Z.of_nat (i mod C)) pos)).
Proof.
  intros HC Hs. rewrite map2_map.
  assert (E : map (fun i => Z.of_nat (i / C) * Z.of_nat C + Z.of_nat (i mod C))
                  pos = map Z.of_nat pos).
  { apply map_ext_in. intros i Hi. rewrite Forall_forall in HC.
    specialize (HC i Hi). rewrite (Nat.div_mod_eq i C) at 3. lia. }
  rewrite E. clear E HC.
  induction Hs as [|a l Hs IH Hall]; simpl; constructor; auto.
  apply Forall_map. eapply Forall_impl; [|exact Hall]. simpl. intros; lia.
Qed.

End RoundTrip.

(** C4.  For a well-formed dense matrix [M] with exactly [k] nonzero
    entries, whose dimensions fit the index dtype,
    [todense(fromdense(M, nse=k))] is [M]; the same holds when [nse] is
    left to its default. *)
Theorem todense_fromdense_roundtrip {D : Dtype} (M : ndarray2) (k : nat)
    (index_dtype : int_dtype) :
  wf_ndarray2 M ->
  fits index_dtype (fst (arr_shape M)) ->
  fits index_dtype (snd (arr_shape M)) ->
  count_nonzero M = k ->
  todense (fromdense M (Some k) index_dtype) = M
  /\ todense (fromdense M None index_dtype) = M.
Proof.
  intros Hwf HR HC Hk. unfold fromdense, coo_fromdense.
  split; apply todense_fromdense_impl; auto; lia.
Qed.

Lemma todense_fromdense_roundtrip_witness :
  wf_ndarray2 (D := Z_dtype) (mk_ndarray2 (D := Z_dtype) (2, 3)%nat [0; 5; 0; 7; 0; 9])
  /\ count_nonzero (D := Z_dtype) (mk_ndarray2 (D := Z_dtype) (2, 3)%nat [0; 5; 0; 7; 0; 9])
     = 3%nat
  /\ todense (fromdense (D := Z_dtype)
                (mk_ndarray2 (D := Z_dtype) (2, 3)%nat [0; 5; 0; 7; 0; 9]) (Some 3%nat) int32)
     = mk_ndarray2 (D := Z_dtype) (2, 3)%nat [0; 5; 0; 7; 0; 9].
Proof.
  split; [reflexivity|]. split; [reflexivity|].
  apply (todense_fromdense_roundtrip (D := Z_dtype)
           (mk_ndarray2 (D := Z_dtype) (2, 3)%nat [0; 5; 0; 7; 0; 9]) 3 int32).
  - reflexivity.
  - unfold fits. simpl. lia.
  - unfold fits. simpl. lia.
  - reflexivity.
Defined.

(** The dimensions have to fit the index dtype: with 8-bit indices the
    row index 150 of a 200 x 1 matrix wraps to -106, which [todense] reads
    as row 94. *)
Remark todense_fromdense_int8_wraps :
  row (fromdense (D := Z_dtype)
         (mk_ndarray2 (200, 1)%nat (repeat 0 150 ++ [1] ++ repeat 0 49))
         None int8) = [-106]
  /\ todense (fromdense (D := Z_dtype)
                (mk_ndarray2 (200, 1)%nat (repeat 0 150 ++ [1] ++ repeat 0 49))
                None int8)
     = mk_ndarray2 (200, 1)%nat (repeat 0 94 ++ [1] ++ repeat 0 105).
Proof. split; vm_compute; reflexivity. Qed.

(** C5.  For a well-formed dense matrix [M] with exactly [k] nonzero
    entries, whose dimensions fit the index dtype, and a requested
    [nse = n > k]: the arrays of [fromdense(M, nse=n)] are those of
    [fromdense(M, nse=k)], which hold the nonzero values at their
    coordinates in row-major order, followed by [n - k] entries of value
    zero at coordinate [(0, 0)]; each array has length [n]; and [todense]
    of the padded matrix is [M]. *)
Theorem fromdense_pads_with_zero_entries {D : Dtype} (M : ndarray2) (k n : nat)
    (index_dtype : int_dtype) :
  wf_ndarray2 M ->
  fits index_dtype (fst (arr_shape M)) ->
  fits index_dtype (snd (arr_shape M)) ->
  count_nonzero M = k -> (k < n)%nat ->
  data (fromdense M (Some n) index_dtype)
  = data (fromdense M (Some k) index_dtype) ++ repeat zero (n - k)
  /\ row (fromdense M (Some n) index_dtype)
     = row (fromdense M (Some k) index_dtype) ++ repeat 0 (n - k)
  /\ col (fromdense M (Some n) index_dtype)
     = col (fromdense M (Some k) index_dtype) ++ repeat 0 (n - k)
  /\ length (data (fromdense M (Some k) index_dtype)) = k
  /\ Forall (fun x => nonzero x = true)
            (data (fromdense M (Some k) index_dtype))
  /\ data (fromdense M (Some k) index_dtype)
     = take2 M (row (fromdense M (Some k) index_dtype))
               (col (fromdense M (Some k) index_dtype))
  /\ StronglySorted Z.lt
       (map2 (fun r c => r * Z.of_nat (snd (arr_shape M)) + c)
             (row (fromdense M (Some k) index_dtype))
             (col (fromdense M (Some k) index_dtype)))
  /\ length (data (fromdense M (Some n) index_dtype)) = n
  /\ length (row (fromdense M (Some n) index_dtype)) = n
  /\ length (col (fromdense M (Some n) index_dtype)) = n
  /\ todense (fromdense M (Some n) index_dtype) = M.
Proof.
  intros Hwf HR HC Hk Hn.
  assert (Hpos : Forall (fun i => (i < length (buf M))%nat)
                        (flatnonzero (buf M))).
  { eapply Forall_impl; [|apply (flatnonzero_from_range 0)].
    simpl. intros; lia. }
  assert (Hlen : length (flatnonzero (buf M)) = k).
  { unfold flatnonzero. now rewrite length_flatnonzero_from. }
  assert (Hfil : length (filter nonzero (buf M)) = k) by exact Hk.
  assert (Et : todense (fromdense M (Some n) index_dtype) = M).
  { unfold fromdense, coo_fromdense.
    apply todense_fromdense_impl; auto; lia. }
  revert Et. unfold fromdense, coo_fromdense, _coo_fromdense.
  rewrite !fromdense_impl_padded by (auto; lia).
  rewrite Hk, Nat.sub_diag. cbn [repeat]. rewrite !app_nil_r.
  cbn [COO_init data row col]. intros Et.
  repeat split; auto.
  - apply Forall_forall. intros x Hx. now apply filter_In in Hx.
  - unfold take2. rewrite map2_map.
    rewrite <- (nth_flatnonzero_from [] (buf M)).
    apply map_ext_in. intros i Hi. rewrite Forall_forall in Hpos.
    destruct M as [[R C] b]. unfold wf_ndarray2 in Hwf.
    cbn [arr_shape buf fst snd] in *. symmetry.
    apply (take2_1_ravel (mk_ndarray2 (R, C) b) R C);
      [reflexivity | rewrite <- Hwf; apply Hpos; exact Hi].
  - apply unravel_row_major; [|apply flatnonzero_from_sorted].
    eapply Forall_impl; [|exact Hpos]. simpl. intros i Hi HC0.
    unfold wf_ndarray2 in Hwf. rewrite HC0 in Hwf. lia.
  - rewrite length_app, repeat_length. lia.
  - rewrite length_app, repeat_length, length_map. lia.
  - rewrite length_app, repeat_length, length_map. lia.
Qed.

Lemma fromdense_pads_with_zero_entries_witness :
  wf_ndarray2 (D := Z_dtype) (mk_ndarray2 (D := Z_dtype) (2, 3)%nat [0; 5; 0; 7; 0; 9])
  /\ data (fromdense (D := Z_dtype)
             (mk_ndarray2 (D := Z_dtype) (2, 3)%nat [0; 5; 0; 7; 0; 9]) (Some 5%nat) int32)
     = [5; 7; 9; 0; 0]
  /\ row (fromdense (D := Z_dtype)
            (mk_ndarray2 (D := Z_dtype) (2, 3)%nat [0; 5; 0; 7; 0; 9]) (Some 5%nat) int32)
     = [0; 1; 1; 0; 0]
  /\ col (fromdense (D := Z_dtype)
            (mk_ndarray2 (D := Z_dtype) (2, 3)%nat [0; 5; 0; 7; 0; 9]) (Some 5%nat) int32)
     = [1; 0; 2; 0; 0]
  /\ todense (fromdense (D := Z_dtype)
                (mk_ndarray2 (D := Z_dtype) (2, 3)%nat [0; 5; 0; 7; 0; 9]) (Some 5%nat) int32)
     = mk_ndarray2 (D := Z_dtype) (2, 3)%nat [0; 5; 0; 7; 0; 9].
Proof.
  split; [reflexivity|].
  destruct (fromdense_pads_with_zero_entries (D := Z_dtype)
              (mk_ndarray2 (D := Z_dtype) (2, 3)%nat [0; 5; 0; 7; 0; 9]) 3 5 int32)
    as (Hd & Hr & Hc & _ & _ & _ & _ & _ & _ & _ & Ht).
  - reflexivity.
  - unfold fits. simpl. lia.
  - unfold fits. simpl. lia.
  - reflexivity.
  - lia.
  - split; [exact Hd|]. split; [exact Hr|]. split; [exact Hc | exact Ht].
Defined.

Lemma in_flatnonzero_from {D : Dtype} (off j : nat) (x : list elt) :
  (j < length x)%nat -> nonzero (nth j x zero) = true ->
  In (off + j)%nat (flatnonzero_from off x).
Proof.
  revert off j. induction x as [|a x IH]; intros off j Hj Hnz; simpl in Hj;
    [lia|].
  destruct j as [|j]; simpl in *.
  - rewrite Hnz, Nat.add_0_r. now left.
  - replace (off + S j)%nat with (S off + j)%nat by lia.
    destruct (nonzero a); [right|]; apply IH; auto; lia.
Qed.

Lemma StronglySorted_app_inv {A : Type} (R : A -> A -> Prop) (l1 l2 : list A) :
  StronglySorted R (l1 ++ l2) ->
  forall a b, In a l1 -> In b l2 -> R a b.
Proof.
  induction l1 as [|c l1 IH]; simpl; intros Hs a b Ha Hb; [contradiction|].
  inversion Hs as [|? ? Hs' Hall]; subst. destruct Ha as [->|Ha].
  - rewrite Forall_forall in Hall. apply Hall, in_or_app. now right.
  - now apply IH.
Qed.

(** X5.  The flag [rows_sorted] set by [fromdense] is wrong whenever there
    is padding after a nonzero entry outside the first row: for a
    well-formed matrix whose dimensions fit the index dtype, with a nonzero
    entry at a flat position [i >= C] and [nse] above the count of nonzero
    entries, the returned [row] is not non-decreasing. *)
Theorem fromdense_padding_breaks_row_order {D : Dtype} (M : ndarray2)
    (n i : nat) (index_dtype : int_dtype) :
  wf_ndarray2 M ->
  fits index_dtype (fst (arr_shape M)) ->
  fits index_dtype (snd (arr_shape M)) ->
  (count_nonzero M < n)%nat ->
  (snd (arr_shape M) <= i < length (buf M))%nat ->
  nonzero (nth i (buf M) zero) = true ->
  _rows_sorted (fromdense M (Some n) index_dtype) = true
  /\ ~ Sorted Z.le (row (fromdense M (Some n) index_dtype)).
Proof.
  intros Hwf HR HC Hn Hi Hnz. split.
  { unfold fromdense, coo_fromdense, COO_init.
    destruct (_coo_fromdense M n index_dtype) as [[d r] c]. reflexivity. }
  unfold fromdense, coo_fromdense, _coo_fromdense.
  rewrite fromdense_impl_padded by (auto; lia).
  cbn [COO_init row]. intros Hs.
  apply Sorted_StronglySorted in Hs; [|exact Z.le_trans].
  assert (HC0 : snd (arr_shape M) <> 0%nat).
  { unfold wf_ndarray2 in Hwf. intros E. rewrite E in Hwf. lia. }
  assert (Hle : Z.of_nat (i / snd (arr_shape M)) <= 0).
  { apply (StronglySorted_app_inv _ _ _ Hs).
    - apply in_map_iff. exists i. split; [reflexivity|].
      apply (in_flatnonzero_from 0 i); [lia | exact Hnz].
    - destruct (n - count_nonzero M)%nat eqn:E; [lia|]. now left. }
  assert (1 <= i / snd (arr_shape M))%nat
    by (apply Nat.div_le_lower_bound; lia).
  lia.
Qed.

Lemma fromdense_padding_breaks_row_order_witness :
  wf_ndarray2 (mk_ndarray2 (D := Z_dtype) (2, 3)%nat [0; 5; 0; 7; 0; 9])
  /\ ~ Sorted Z.le
        (row (fromdense (mk_ndarray2 (D := Z_dtype) (2, 3)%nat
                           [0; 5; 0; 7; 0; 9]) (Some 4%nat) int32)).
Proof.
  split; [reflexivity|].
  apply (fromdense_padding_breaks_row_order (D := Z_dtype)
           (mk_ndarray2 (D := Z_dtype) (2, 3)%nat [0; 5; 0; 7; 0; 9])
           4 3 int32).
  - reflexivity.
  - unfold fits. simpl. lia.
  - unfold fits. simpl. lia.
  - vm_compute. lia.
  - simpl. lia.
  - reflexivity.
Defined.

(** ** Sorting *)

Section Sorting.
Context {D : Dtype}.

Add Ring dtype_ring_sorting : dtype_ring.

Lemma key_leb_spec (a b : Z * Z) :
  key_leb a b = true <-> fst a < fst b \/ (fst a = fst b /\ snd a <= snd b).
Proof.
  unfold key_leb.
  rewrite orb_true_iff, andb_true_iff, Z.ltb_lt, Z.eqb_eq, Z.leb_le.
  reflexivity.
Qed.

Lemma key_le_trans (a b c : Z * Z * elt) :
  key_le a b -> key_le b c -> key_le a c.
Proof. unfold key_le. rewrite !key_leb_spec. lia. Qed.

Lemma key_le_total (a b : Z * Z * elt) :
  key_leb (fst a) (fst b) = false -> key_le b a.
Proof.
  unfold key_le. intros H. apply key_leb_spec.
  destruct (key_leb (fst b) (fst a)) eqn:E; [now apply key_leb_spec|].
  assert (Ha : ~ (fst (fst a) < fst (fst b)
                  \/ fst (fst a) = fst (fst b) /\ snd (fst a) <= snd (fst b)))
    by (rewrite <- key_leb_spec; congruence).
  assert (Hb : ~ (fst (fst b) < fst (fst a)
                  \/ fst (fst b) = fst (fst a) /\ snd (fst b) <= snd (fst a)))
    by (rewrite <- key_leb_spec; congruence).
  lia.
Qed.

Lemma insert_by_perm (x : Z * Z * elt) (l : list (Z * Z * elt)) :
  Permutation (insert_by x l) (x :: l).
Proof.
  induction l as [|y l IH]; simpl; [reflexivity|].
  destruct (key_leb (fst x) (fst y)); [reflexivity|].
  rewrite IH. apply perm_swap.
Qed.

Lemma sort_by_keys_perm (l : list (Z * Z * elt)) :
  Permutation (sort_by_keys l) l.
Proof.
  induction l as [|x l IH]; simpl; [reflexivity|].
  rewrite insert_by_perm. now constructor.
Qed.

Lemma insert_by_sorted (x : Z * Z * elt) (l : list (Z * Z * elt)) :
  StronglySorted key_le l -> StronglySorted key_le (insert_by x l).
Proof.
  induction 1 as [|y l Hs IH Hall]; simpl.
  - repeat constructor.
  - destruct (key_leb (fst x) (fst y)) eqn:E.
    + constructor; [now constructor|].
      constructor; [exact E|].
      eapply Forall_impl; [|exact Hall].
      intros z Hz. now apply (key_le_trans x y z).
    + constructor; [exact IH|].
      apply (Permutation_Forall (Permutation_sym (insert_by_perm x l))).
      constructor; [now apply key_le_total | exact Hall].
Qed.

Lemma sort_by_keys_sorted (l : list (Z * Z * elt)) :
  StronglySorted key_le (sort_by_keys l).
Proof.
  induction l as [|x l IH]; simpl; [constructor | now apply insert_by_sorted].
Qed.

(** Stability: the entries of one key keep their order. *)
Lemma insert_by_stable (r c : Z) (x : Z * Z * elt) (l : list (Z * Z * elt)) :
  filter (at_key r c) (insert_by x l) = filter (at_key r c) (x :: l).
Proof.
  induction l as [|y l IH]; [reflexivity|].
  cbn [insert_by]. destruct (key_leb (fst x) (fst y)) eqn:E; [reflexivity|].
  cbn [filter] in *. rewrite IH.
  destruct (at_key r c x) eqn:Ex, (at_key r c y) eqn:Ey; try reflexivity.
  exfalso. unfold at_key in Ex, Ey.
  apply andb_true_iff in Ex, Ey.
  rewrite !Z.eqb_eq in Ex, Ey.
  assert (key_leb (fst x) (fst y) = true) by (apply key_leb_spec; lia).
  congruence.
Qed.

Lemma sort_by_keys_stable (r c : Z) (l : list (Z * Z * elt)) :
  filter (at_key r c) (sort_by_keys l) = filter (at_key r c) l.
Proof.
  induction l as [|x l IH]; [reflexivity|].
  cbn [sort_by_keys fold_right]. rewrite insert_by_stable.
  cbn [filter]. fold (sort_by_keys l). now rewrite IH.
Qed.

Lemma combine_unzip3 (s : list (Z * Z * elt)) :
  combine (combine (map (fun t => fst (fst t)) s) (map (fun t => snd (fst t)) s))
          (map snd s) = s.
Proof.
  induction s as [|[[r c] u] s IH]; simpl; [reflexivity | now rewrite IH].
Qed.

(** *** Scatter-add does not depend on the order of the entries *)

Lemma at_add2_fold (row col : list Z) (data : list elt) (m : ndarray2) :
  at_add2 m row col data
  = fold_left add_entry (combine (combine row col) data) m.
Proof.
  revert col data m.
  induction row as [|r row IH]; intros [|c col] [|u data] m; simpl; auto.
Qed.

Lemma add_entry_comm (m : ndarray2) (a b : Z * Z * elt) :
  add_entry (add_entry m a) b = add_entry (add_entry m b) a.
Proof.
  destruct a as [[r1 c1] u1], b as [[r2 c2] u2], m as [[R C] x].
  unfold add_entry, at_add2_1. cbn [fst snd arr_shape buf].
  destruct (in_bounds R (normalize_index R r1)
            && in_bounds C (normalize_index C c1)) eqn:E1;
  destruct (in_bounds R (normalize_index R r2)
            && in_bounds C (normalize_index C c2)) eqn:E2;
    cbn [arr_shape buf]; rewrite ?E1, ?E2; cbn [arr_shape buf];
    try reflexivity.
  f_equal.
  set (i := (Z.to_nat (normalize_index R r1) * C
             + Z.to_nat (normalize_index C c1))%nat).
  set (j := (Z.to_nat (normalize_index R r2) * C
             + Z.to_nat (normalize_index C c2))%nat).
  destruct (Nat.eq_dec i j) as [<-|Hij].
  - destruct (Nat.lt_ge_cases i (length x)) as [Hi|Hi].
    + rewrite !nth_set_nth_eq, !set_nth_twice by assumption.
      f_equal. ring.
    + rewrite !(set_nth_ge i) by (rewrite ?length_set_nth; assumption).
      reflexivity.
  - rewrite !nth_set_nth_neq by congruence.
    apply set_nth_swap. congruence.
Qed.

Lemma todense_Permutation (self other : COO) :
  coo_shape self = coo_shape other ->
  Permutation (entries self) (entries other) ->
  todense self = todense other.
Proof.
  intros Hs HP.
  unfold todense, coo_todense, _coo_todense, _coo_todense_impl, _info.
  cbn [shape]. rewrite !at_add2_fold, Hs.
  apply fold_left_Permutation; [apply add_entry_comm | exact HP].
Qed.

End Sorting.

Lemma entries_sort_indices {D : Dtype} (self : COO) :
  _rows_sorted self = false ->
  entries (_sort_indices self) = sort_by_keys (entries self).
Proof.
  intros H. unfold _sort_indices, lax_sort2, COO_init, entries. rewrite H.
  cbn [row col data]. apply combine_unzip3.
Qed.

Lemma rows_of_sorted_entries {D : Dtype} (s : list (Z * Z * elt)) :
  StronglySorted key_le s ->
  StronglySorted Z.le (map (fun t => fst (fst t)) s).
Proof.
  induction 1 as [|a l Hs IH Hall]; simpl; constructor; auto.
  apply Forall_map. eapply Forall_impl; [|exact Hall].
  intros b Hb. apply key_leb_spec in Hb. lia.
Qed.

(** C8.  On a matrix whose three arrays have one length: [sort] returns
    the matrix itself when [rows_sorted] is set; otherwise it returns a
    matrix of the same shape and number of entries with [rows_sorted] set,
    whose [row] is non-decreasing and whose [col] is non-decreasing within
    each run of equal rows, whose entries are a permutation of the entries
    of the input, the values at one coordinate keeping their order; and in
    both cases [todense] of the result is [todense] of the input. *)
Theorem sort_indices_sorts {D : Dtype} (self : COO) :
  length (row self) = length (data self) ->
  length (col self) = length (data self) ->
  (_rows_sorted self = true -> _sort_indices self = self)
  /\ (_rows_sorted self = false ->
      _rows_sorted (_sort_indices self) = true
      /\ coo_shape (_sort_indices self) = coo_shape self
      /\ length (data (_sort_indices self)) = length (data self)
      /\ length (row (_sort_indices self)) = length (data self)
      /\ length (col (_sort_indices self)) = length (data self)
      /\ Sorted Z.le (row (_sort_indices self))
      /\ (forall i j : nat,
             (i < j < length (data self))%nat ->
             nth i (row (_sort_indices self)) 0
             = nth j (row (_sort_indices self)) 0 ->
             nth i (col (_sort_indices self)) 0
             <= nth j (col (_sort_indices self)) 0)
      /\ Permutation (entries (_sort_indices self)) (entries self)
      /\ (forall r c : Z,
             entries_at r c (_sort_indices self) = entries_at r c self))
  /\ todense (_sort_indices self) = todense self.
Proof.
  intros Hr Hc.
  assert (Hlen : length (entries self) = length (data self)).
  { unfold entries. rewrite !length_combine. lia. }
  assert (Hperm : _rows_sorted self = false ->
                  Permutation (entries (_sort_indices self)) (entries self)).
  { intros H. rewrite entries_sort_indices by assumption.
    apply sort_by_keys_perm. }
  assert (Hshape : coo_shape (_sort_indices self) = coo_shape self).
  { unfold _sort_indices, lax_sort2, COO_init.
    destruct (_rows_sorted self); reflexivity. }
  split; [|split].
  - intros H. unfold _sort_indices. now rewrite H.
  - intros H.
    pose proof (sort_by_keys_sorted (entries self)) as Hs.
    pose proof (Permutation_length (sort_by_keys_perm (entries self))) as Hl.
    rewrite Hlen in Hl.
    assert (Erow : row (_sort_indices self)
                   = map (fun t => fst (fst t)) (sort_by_keys (entries self))).
    { unfold _sort_indices, lax_sort2, COO_init. now rewrite H. }
    assert (Ecol : col (_sort_indices self)
                   = map (fun t => snd (fst t)) (sort_by_keys (entries self))).
    { unfold _sort_indices, lax_sort2, COO_init. now rewrite H. }
    assert (Edata : data (_sort_indices self)
                    = map snd (sort_by_keys (entries self))).
    { unfold _sort_indices, lax_sort2, COO_init. now rewrite H. }
    split; [unfold _sort_indices, lax_sort2, COO_init; now rewrite H|].
    split; [exact Hshape|].
    split; [now rewrite Edata, length_map|].
    split; [now rewrite Erow, length_map|].
    split; [now rewrite Ecol, length_map|].
    split; [rewrite Erow; apply StronglySorted_Sorted;
            now apply rows_of_sorted_entries|].
    split; [|split].
    + intros i j Hij. rewrite Erow, Ecol.
      rewrite !(map_nth (fun t => fst (fst t)) _ (0, 0, zero)).
      rewrite !(map_nth (fun t => snd (fst t)) _ (0, 0, zero)).
      intros Heq.
      assert (Hle : key_le (nth i (sort_by_keys (entries self)) (0, 0, zero))
                           (nth j (sort_by_keys (entries self)) (0, 0, zero)))
        by (apply nth_StronglySorted; [exact Hs | lia]).
      apply key_leb_spec in Hle. lia.
    + now apply Hperm.
    + intros r c. unfold entries_at.
      rewrite entries_sort_indices by assumption.
      now rewrite sort_by_keys_stable.
  - destruct (_rows_sorted self) eqn:H.
    + unfold _sort_indices. now rewrite H.
    + apply todense_Permutation; [exact Hshape | now apply Hperm].
Qed.

Lemma sort_indices_sorts_witness :
  _sort_indices (D := Z_dtype)
    (mk_COO [1; 2; 3; 4; 5] [1; 0; 1; 0; 1] [2; 1; 0; 1; 2] (2, 3)%nat
            false false)
  = mk_COO [2; 4; 3; 1; 5] [0; 0; 1; 1; 1] [1; 1; 0; 2; 2] (2, 3)%nat
           true false
  /\ todense (_sort_indices (D := Z_dtype)
                (mk_COO [1; 2; 3; 4; 5] [1; 0; 1; 0; 1] [2; 1; 0; 1; 2]
                        (2, 3)%nat false false))
     = todense (mk_COO (D := Z_dtype) [1; 2; 3; 4; 5] [1; 0; 1; 0; 1]
                       [2; 1; 0; 1; 2] (2, 3)%nat false false).
Proof.
  split; [reflexivity|].
  exact (proj2 (proj2 (sort_indices_sorts (D := Z_dtype)
                         (mk_COO [1; 2; 3; 4; 5] [1; 0; 1; 0; 1]
                                 [2; 1; 0; 1; 2] (2, 3)%nat false false)
                         eq_refl eq_refl))).
Defined.

(** * Further properties of the kernels and rules *)

(** ** Shapes *)

Lemma length_map2_min {A B C : Type} (f : A -> B -> C) (x : list A)
    (y : list B) :
  length (map2 f x y) = Nat.min (length x) (length y).
Proof.
  revert y. induction x as [|a x IH]; intros [|b y]; simpl; auto.
Qed.

Section Shapes.
Context {D : Dtype}.

Lemma at_add2_1_shape (m : ndarray2) (r c : Z) (u : elt) :
  arr_shape (at_add2_1 m r c u) = arr_shape m
  /\ length (buf (at_add2_1 m r c u)) = length (buf m).
Proof.
  unfold at_add2_1. destruct (arr_shape m) as [R C] eqn:E.
  destruct (_ && _); cbn [arr_shape buf]; rewrite ?length_set_nth; auto.
Qed.

Lemma at_add2_shape (row col : list Z) (data : list elt) (m : ndarray2) :
  arr_shape (at_add2 m row col data) = arr_shape m
  /\ length (buf (at_add2 m row col data)) = length (buf m).
Proof.
  revert col data m.
  induction row as [|r row IH]; intros [|c col] [|u data] m; simpl; auto.
  destruct (IH col data (at_add2_1 m r c u)) as [-> ->].
  apply at_add2_1_shape.
Qed.

Lemma todense_impl_wf (data : list elt) (row col : list Z) (spinfo : COOInfo) :
  arr_shape (_coo_todense_impl data row col spinfo) = shape spinfo
  /\ wf_ndarray2 (_coo_todense_impl data row col spinfo).
Proof.
  unfold _coo_todense_impl, wf_ndarray2.
  destruct (at_add2_shape row col data (zeros2 (shape spinfo))) as [-> ->].
  split; [reflexivity|]. cbn [zeros2 arr_shape buf]. apply length_zeros.
Qed.

Lemma length_jnp_nonzero (mat : ndarray2) (n : nat) :
  length (fst (jnp_nonzero mat n)) = n /\ length (snd (jnp_nonzero mat n)) = n.
Proof.
  unfold jnp_nonzero. cbn [fst snd].
  rewrite !length_app, !length_map, repeat_length.
  pose proof (firstn_le_length n (flatnonzero (buf mat))). lia.
Qed.

Lemma length_fromdense_impl (mat : ndarray2) (n : nat) (t : int_dtype) :
  length (fst (fst (_coo_fromdense_impl mat n t))) = n
  /\ length (snd (fst (_coo_fromdense_impl mat n t))) = n
  /\ length (snd (_coo_fromdense_impl mat n t)) = n.
Proof.
  unfold _coo_fromdense_impl.
  destruct (length_jnp_nonzero mat n) as [Hr Hc].
  destruct (jnp_nonzero mat n) as [r c]. cbn [fst snd] in *.
  rewrite !length_map. repeat split; auto.
  unfold where0, take2.
  rewrite !length_map2_min, length_map, length_seq. lia.
Qed.

End Shapes.

(** X6.  The reference kernels return arrays of the shapes that the
    abstract evaluation rules declare, for all inputs: [todense] a
    well-formed matrix of the shape of [spinfo]; [fromdense] three arrays
    of length [nse], whatever the number of nonzero entries; [matvec] a
    vector of the length the rule returns whenever its assertions pass. *)
Theorem reference_kernels_have_declared_shapes {D : Dtype} :
  (forall (data : list elt) (row col : list Z) (spinfo : COOInfo),
      arr_shape (_coo_todense_impl data row col spinfo)
      = _coo_todense_abstract_eval data row col spinfo
      /\ wf_ndarray2 (_coo_todense_impl data row col spinfo))
  /\ (forall (mat : ndarray2) (nse : nat) (index_dtype : int_dtype),
         (length (fst (fst (_coo_fromdense_impl mat nse index_dtype))),
          length (snd (fst (_coo_fromdense_impl mat nse index_dtype))),
          length (snd (_coo_fromdense_impl mat nse index_dtype)))
         = _coo_fromdense_abstract_eval mat nse index_dtype)
  /\ (forall (data : list elt) (row col : list Z) (v : list elt)
             (spinfo : COOInfo) (transpose : bool) (n : nat),
         _coo_matvec_abstract_eval data row col v spinfo transpose = Some n ->
         length (_coo_matvec_impl data row col v spinfo transpose) = n).
Proof.
  split; [|split].
  - intros. apply todense_impl_wf.
  - intros mat n t. unfold _coo_fromdense_abstract_eval.
    destruct (length_fromdense_impl mat n t) as (-> & -> & ->). reflexivity.
  - intros data row col v spinfo transpose n H.
    rewrite length_matvec. unfold _coo_matvec_abstract_eval in H.
    destruct (_ && _ && _); [|discriminate]. now injection H.
Qed.

Lemma reference_kernels_have_declared_shapes_witness :
  _coo_matvec_abstract_eval (D := Z_dtype) [1; 2] [0; 1] [1; 0] [3; 4]
    (mk_COOInfo (2, 2)%nat false false) false = Some 2%nat
  /\ length (_coo_matvec_impl (D := Z_dtype) [1; 2] [0; 1] [1; 0] [3; 4]
               (mk_COOInfo (2, 2)%nat false false) false) = 2%nat.
Proof.
  assert (H : _coo_matvec_abstract_eval (D := Z_dtype) [1; 2] [0; 1] [1; 0]
                [3; 4] (mk_COOInfo (2, 2)%nat false false) false
              = Some 2%nat) by reflexivity.
  split; [exact H|].
  exact (proj2 (proj2 (reference_kernels_have_declared_shapes (D := Z_dtype)))
           [1; 2] [0; 1] [1; 0] [3; 4] (mk_COOInfo (2, 2)%nat false false)
           false 2%nat H).
Defined.

(** ** [fromdense] for every [nse] *)

Section FromDense.
Context {D : Dtype}.

Lemma in_firstn {A : Type} (n : nat) (l : list A) (a : A) :
  In a (firstn n l) -> In a l.
Proof.
  intros H. rewrite <- (firstn_skipn n l). apply in_or_app. now left.
Qed.

Lemma where0_all_true (mask : list bool) (x : list elt) :
  Forall (fun b => b = true) mask -> length mask = length x ->
  where0 mask x = x.
Proof.
  unfold where0. revert x.
  induction mask as [|b mask IH]; intros [|a x] Hm Hl; simpl in *;
    try discriminate; auto.
  inversion Hm; subst. f_equal. apply IH; auto.
Qed.

(** What [_coo_fromdense_impl] returns for every [nse]: the first [nse]
    nonzero entries in row-major order, then padding. *)
Lemma fromdense_impl_any (mat : ndarray2) (n : nat) (t : int_dtype) :
  wf_ndarray2 mat ->
  fits t (fst (arr_shape mat)) -> fits t (snd (arr_shape mat)) ->
  _coo_fromdense_impl mat n t
  = (firstn n (filter nonzero (buf mat)) ++ repeat zero (n - count_nonzero mat),
     firstn n (map (fun i => Z.of_nat (i / snd (arr_shape mat)))
                   (flatnonzero (buf mat)))
       ++ repeat 0 (n - count_nonzero mat),
     firstn n (map (fun i => Z.of_nat (i mod snd (arr_shape mat)))
                   (flatnonzero (buf mat)))
       ++ repeat 0 (n - count_nonzero mat)).
Proof.
  intros Hwf HR HC.
  assert (Hlen : length (flatnonzero (buf mat)) = count_nonzero mat)
    by apply length_flatnonzero_from.
  destruct (Nat.le_gt_cases (count_nonzero mat) n) as [Hn|Hn].
  - rewrite fromdense_impl_padded by assumption.
    rewrite !firstn_all2; auto; rewrite ?length_map; unfold count_nonzero in *;
      lia.
  - replace (n - count_nonzero mat)%nat with 0%nat by lia.
    cbn [repeat]. rewrite !app_nil_r.
    destruct mat as [[R C] b]. unfold wf_ndarray2, count_nonzero in *.
    cbn [arr_shape buf fst snd] in *.
    set (pos := flatnonzero b) in *.
    assert (Hpos : Forall (fun i => (i < R * C)%nat) (firstn n pos)).
    { apply Forall_forall. intros i Hi. apply in_firstn in Hi.
      pose proof (flatnonzero_from_range 0 b) as Hr.
      rewrite Forall_forall in Hr. specialize (Hr i Hi). simpl in Hr. lia. }
    assert (HC0 : forall i, (i < R * C)%nat -> C <> 0%nat)
      by (intros i Hi ->; lia).
    unfold _coo_fromdense_impl, jnp_nonzero. cbn [arr_shape buf snd fst].
    fold pos. rewrite length_firstn.
    replace (n - Nat.min n (length pos))%nat with 0%nat by lia.
    cbn [repeat]. rewrite !app_nil_r, !firstn_map.
    f_equal; [f_equal|].
    + unfold take2. rewrite map2_map. rewrite where0_all_true.
      * rewrite <- (nth_flatnonzero_from [] b), firstn_map.
        apply map_ext_in. intros i Hi. rewrite Forall_forall in Hpos.
        apply (take2_1_ravel (mk_ndarray2 (R, C) b) R C);
          [reflexivity | now apply Hpos].
      * apply Forall_forall. intros x Hx. apply in_map_iff in Hx.
        destruct Hx as (i & <- & Hi). apply in_seq in Hi.
        apply Nat.ltb_lt. unfold count_nonzero. cbn [buf]. lia.
      * rewrite !length_map, length_seq, length_firstn. lia.
    + apply (map_astype_index t R); [assumption|].
      apply Forall_map. eapply Forall_impl; [|exact Hpos]. simpl.
      intros i Hi. specialize (HC0 i Hi).
      assert ((i / C < R)%nat) by (apply Nat.Div0.div_lt_upper_bound; lia).
      lia.
    + apply (map_astype_index t C); [assumption|].
      apply Forall_map. eapply Forall_impl; [|exact Hpos]. simpl.
      intros i Hi. specialize (HC0 i Hi).
      assert ((i mod C < C)%nat) by (apply Nat.mod_upper_bound; lia).
      lia.
Qed.

End FromDense.

(** X7.  For a well-formed dense matrix whose dimensions fit the index
    dtype and every requested [nse]: the arrays of [fromdense(M, nse)] are
    the first [nse] entries of the arrays of the exact conversion
    [fromdense(M)], followed by [nse - k] padding entries when [nse]
    exceeds the number [k] of nonzero entries.  In particular a too small
    [nse] keeps the first [nse] nonzero entries in row-major order, all of
    them nonzero. *)
Theorem fromdense_keeps_first_nse_entries {D : Dtype} (M : ndarray2) (n : nat)
    (index_dtype : int_dtype) :
  wf_ndarray2 M ->
  fits index_dtype (fst (arr_shape M)) ->
  fits index_dtype (snd (arr_shape M)) ->
  data (fromdense M (Some n) index_dtype)
  = firstn n (data (fromdense M None index_dtype))
    ++ repeat zero (n - count_nonzero M)
  /\ row (fromdense M (Some n) index_dtype)
     = firstn n (row (fromdense M None index_dtype))
       ++ repeat 0 (n - count_nonzero M)
  /\ col (fromdense M (Some n) index_dtype)
     = firstn n (col (fromdense M None index_dtype))
       ++ repeat 0 (n - count_nonzero M)
  /\ ((n <= count_nonzero M)%nat ->
      Forall (fun x => nonzero x = true)
             (data (fromdense M (Some n) index_dtype))).
Proof.
  intros Hwf HR HC.
  unfold fromdense, coo_fromdense, _coo_fromdense.
  rewrite !fromdense_impl_any by assumption.
  rewrite Nat.sub_diag. cbn [repeat COO_init data row col].
  rewrite !app_nil_r.
  assert (Hlen : length (flatnonzero (buf M)) = count_nonzero M)
    by apply length_flatnonzero_from.
  rewrite !(firstn_all2 (n := count_nonzero M))
    by (rewrite ?length_map; unfold count_nonzero in *; lia).
  repeat split; auto.
  intros Hn. replace (n - count_nonzero M)%nat with 0%nat by lia.
  cbn [repeat]. rewrite app_nil_r.
  apply Forall_forall. intros x Hx. apply in_firstn in Hx.
  now apply filter_In in Hx.
Qed.

Lemma fromdense_keeps_first_nse_entries_witness :
  wf_ndarray2 (mk_ndarray2 (D := Z_dtype) (2, 3)%nat [0; 5; 0; 7; 0; 9])
  /\ data (fromdense (mk_ndarray2 (D := Z_dtype) (2, 3)%nat
                        [0; 5; 0; 7; 0; 9]) (Some 2%nat) int32) = [5; 7]
  /\ row (fromdense (mk_ndarray2 (D := Z_dtype) (2, 3)%nat
                       [0; 5; 0; 7; 0; 9]) (Some 2%nat) int32) = [0; 1]
  /\ col (fromdense (mk_ndarray2 (D := Z_dtype) (2, 3)%nat
                       [0; 5; 0; 7; 0; 9]) (Some 2%nat) int32) = [1; 0].
Proof.
  split; [reflexivity|].
  destruct (fromdense_keeps_first_nse_entries (D := Z_dtype)
              (mk_ndarray2 (D := Z_dtype) (2, 3)%nat [0; 5; 0; 7; 0; 9])
              2 int32) as (Hd & Hr & Hc & _).
  - reflexivity.
  - unfold fits. simpl. lia.
  - unfold fits. simpl. lia.
  - split; [exact Hd|]. split; [exact Hr | exact Hc].
Defined.

(** X8.  For a well-formed dense matrix whose dimensions fit the index
    dtype, the arrays returned by [fromdense] satisfy the container
    invariant (three arrays of one length, coordinates inside the shape)
    exactly when there is no padding or the matrix has at least one cell:
    the padding coordinate [(0, 0)] lies outside a matrix with an empty
    dimension. *)
Theorem fromdense_valid_iff {D : Dtype} (M : ndarray2) (n : nat)
    (index_dtype : int_dtype) :
  wf_ndarray2 M ->
  fits index_dtype (fst (arr_shape M)) ->
  fits index_dtype (snd (arr_shape M)) ->
  coo_valid (data (fromdense M (Some n) index_dtype))
            (row (fromdense M (Some n) index_dtype))
            (col (fromdense M (Some n) index_dtype))
            (coo_shape (fromdense M (Some n) index_dtype))
  <-> ((n <= count_nonzero M)%nat
       \/ (0 < fst (arr_shape M) * snd (arr_shape M))%nat).
Proof.
  intros Hwf HR HC.
  destruct (length_fromdense_impl M n index_dtype) as (Ld & Lr & Lc).
  revert Ld Lr Lc.
  unfold fromdense, coo_fromdense, _coo_fromdense.
  rewrite fromdense_impl_any by assumption.
  cbn [COO_init data row col coo_shape fst snd]. intros Ld Lr Lc.
  destruct M as [[R C] b]. unfold wf_ndarray2 in Hwf.
  cbn [arr_shape buf fst snd] in *.
  assert (Hpos : Forall (fun i => (i < R * C)%nat) (flatnonzero b)).
  { eapply Forall_impl; [|apply (flatnonzero_from_range 0 b)].
    simpl. intros; lia. }
  unfold coo_valid. cbn [fst snd]. split.
  - intros (_ & _ & Hr & Hc).
    destruct (Nat.le_gt_cases n (count_nonzero (mk_ndarray2 (R, C) b)))
      as [Hn|Hn]; [now left | right].
    apply Forall_app in Hr, Hc. destruct Hr as [_ Hr], Hc as [_ Hc].
    destruct (n - count_nonzero (mk_ndarray2 (R, C) b))%nat eqn:E; [lia|].
    cbn [repeat] in Hr, Hc. inversion Hr; inversion Hc; subst.
    unfold index_in in *. nia.
  - intros Hn. split; [congruence|]. split; [congruence|].
    split; apply Forall_app; split.
    + apply Forall_forall. intros x Hx. apply in_firstn, in_map_iff in Hx.
      destruct Hx as (i & <- & Hi). rewrite Forall_forall in Hpos.
      specialize (Hpos i Hi). unfold index_in.
      assert (C <> 0%nat) by (intros ->; lia).
      assert ((i / C < R)%nat) by (apply Nat.Div0.div_lt_upper_bound; lia).
      lia.
    + apply Forall_forall. intros x Hx. destruct Hn as [Hn|Hn].
      * replace (n - count_nonzero (mk_ndarray2 (R, C) b))%nat with 0%nat
          in Hx by lia.
        destruct Hx.
      * apply repeat_spec in Hx. subst x. unfold index_in. nia.
    + apply Forall_forall. intros x Hx. apply in_firstn, in_map_iff in Hx.
      destruct Hx as (i & <- & Hi). rewrite Forall_forall in Hpos.
      specialize (Hpos i Hi). unfold index_in.
      assert (C <> 0%nat) by (intros ->; lia).
      assert ((i mod C < C)%nat) by (apply Nat.mod_upper_bound; lia).
      lia.
    + apply Forall_forall. intros x Hx. destruct Hn as [Hn|Hn].
      * replace (n - count_nonzero (mk_ndarray2 (R, C) b))%nat with 0%nat
          in Hx by lia.
        destruct Hx.
      * apply repeat_spec in Hx. subst x. unfold index_in. nia.
Qed.

Lemma fromdense_valid_iff_witness :
  wf_ndarray2 (mk_ndarray2 (D := Z_dtype) (2, 3)%nat [0; 5; 0; 7; 0; 9])
  /\ coo_valid (D := Z_dtype) [5; 7; 9; 0; 0] [0; 1; 1; 0; 0] [1; 0; 2; 0; 0]
               (2, 3)%nat.
Proof.
  split; [reflexivity|].
  apply (proj2 (fromdense_valid_iff (D := Z_dtype)
                  (mk_ndarray2 (D := Z_dtype) (2, 3)%nat [0; 5; 0; 7; 0; 9])
                  5 int32 eq_refl
                  ltac:(unfold fits; simpl; lia)
                  ltac:(unfold fits; simpl; lia))).
  right. simpl. lia.
Defined.

(** ** The cells of [todense] *)

Section Cells.
Context {D : Dtype}.

Add Ring dtype_ring_cells : dtype_ring.

Lemma sum_cons (a : elt) (l : list elt) : sum (a :: l) = add a (sum l).
Proof. reflexivity. Qed.

Lemma valid_entries (data : list elt) (row col : list Z) (s : Shape) :
  Forall (index_in (fst s)) row -> Forall (index_in (snd s)) col ->
  Forall (valid_entry s) (combine (combine row col) data).
Proof.
  intros Hr Hc. apply Forall_forall. intros [[r c] u] H.
  apply in_combine_l in H. rewrite Forall_forall in Hr, Hc.
  split; cbn [fst snd].
  - apply Hr. eapply in_combine_l; eassumption.
  - apply Hc. eapply in_combine_r; eassumption.
Qed.

Lemma flat_index_lt (R C : nat) (r c : Z) :
  index_in R r -> index_in C c ->
  (Z.to_nat r * C + Z.to_nat c < R * C)%nat.
Proof. unfold index_in. intros Hr Hc. nia. Qed.

Lemma flat_index_inj (R C : nat) (r c r' c' : Z) :
  index_in R r -> index_in C c -> index_in R r' -> index_in C c' ->
  (Z.to_nat r * C + Z.to_nat c = Z.to_nat r' * C + Z.to_nat c')%nat ->
  r = r' /\ c = c'.
Proof.
  unfold index_in. intros Hr Hc Hr' Hc' H.
  assert (Z.to_nat r = Z.to_nat r') by nia.
  assert (Z.to_nat c = Z.to_nat c') by nia. lia.
Qed.

(** A valid entry on a well-formed matrix is an update of the buffer at its
    flat index. *)
Lemma add_entry_valid (m : ndarray2) (e : Z * Z * elt) :
  valid_entry (arr_shape m) e ->
  add_entry m e
  = mk_ndarray2 (arr_shape m)
      (set_nth (Z.to_nat (fst (fst e)) * snd (arr_shape m)
                + Z.to_nat (snd (fst e)))
               (add (nth (Z.to_nat (fst (fst e)) * snd (arr_shape m)
                          + Z.to_nat (snd (fst e))) (buf m) zero) (snd e))
               (buf m)).
Proof.
  destruct e as [[r c] u], m as [[R C] b]. unfold valid_entry.
  cbn [fst snd arr_shape buf]. intros [Hr Hc].
  unfold add_entry, at_add2_1. cbn [fst snd arr_shape buf].
  now rewrite !normalize_index_in, !in_bounds_in by assumption.
Qed.

Lemma take2_1_valid (m : ndarray2) (i j : Z) :
  index_in (fst (arr_shape m)) i -> index_in (snd (arr_shape m)) j ->
  take2_1 m i j
  = nth (Z.to_nat i * snd (arr_shape m) + Z.to_nat j) (buf m) zero.
Proof.
  destruct m as [[R C] b]. cbn [fst snd arr_shape buf]. intros Hi Hj.
  unfold take2_1. cbn [arr_shape buf].
  now rewrite !clamp_index_in by assumption.
Qed.

Lemma take2_1_add_entry (m : ndarray2) (e : Z * Z * elt) (i j : Z) :
  wf_ndarray2 m -> valid_entry (arr_shape m) e ->
  index_in (fst (arr_shape m)) i -> index_in (snd (arr_shape m)) j ->
  take2_1 (add_entry m e) i j
  = if at_key i j e then add (take2_1 m i j) (snd e) else take2_1 m i j.
Proof.
  intros Hwf He Hi Hj. rewrite add_entry_valid by assumption.
  rewrite !take2_1_valid by assumption. cbn [arr_shape buf].
  destruct e as [[r c] u], m as [[R C] b]. destruct He as [Hr Hc].
  unfold wf_ndarray2 in Hwf. unfold at_key. cbn [fst snd arr_shape buf] in *.
  destruct (Z.eqb_spec r i) as [->|Hri]; cbn [andb].
  - destruct (Z.eqb_spec c j) as [->|Hcj].
    + apply nth_set_nth_eq. rewrite Hwf. now apply flat_index_lt.
    + apply nth_set_nth_neq. intros E.
      apply (flat_index_inj R C) in E; auto. destruct E; congruence.
  - apply nth_set_nth_neq. intros E.
    apply (flat_index_inj R C) in E; auto. destruct E; congruence.
Qed.

Lemma add_entry_wf (m : ndarray2) (e : Z * Z * elt) :
  arr_shape (add_entry m e) = arr_shape m
  /\ (wf_ndarray2 m -> wf_ndarray2 (add_entry m e)).
Proof.
  unfold add_entry, wf_ndarray2.
  destruct (at_add2_1_shape m (fst (fst e)) (snd (fst e)) (snd e)) as [-> ->].
  auto.
Qed.

Lemma take2_1_fold_entries (es : list (Z * Z * elt)) (m : ndarray2) (i j : Z) :
  wf_ndarray2 m -> Forall (valid_entry (arr_shape m)) es ->
  index_in (fst (arr_shape m)) i -> index_in (snd (arr_shape m)) j ->
  take2_1 (fold_left add_entry es m) i j
  = add (take2_1 m i j) (sum (map snd (filter (at_key i j) es))).
Proof.
  revert m. induction es as [|e es IH]; intros m Hwf Hes Hi Hj.
  - simpl. ring.
  - inversion Hes as [|? ? He Hes']; subst. cbn [fold_left filter].
    destruct (add_entry_wf m e) as [Hs Hw].
    rewrite IH; rewrite ?Hs; auto.
    rewrite take2_1_add_entry by assumption.
    destruct (at_key i j e); cbn [map]; rewrite ?sum_cons; ring.
Qed.

Lemma take2_1_zeros2 (s : Shape) (i j : Z) : take2_1 (zeros2 s) i j = zero.
Proof.
  destruct s as [R C]. unfold take2_1, zeros2, zeros. cbn [arr_shape buf fst snd].
  apply nth_repeat.
Qed.

End Cells.

Lemma take2_1_todense {D : Dtype} (self : COO) (i j : Z) :
  Forall (index_in (fst (coo_shape self))) (row self) ->
  Forall (index_in (snd (coo_shape self))) (col self) ->
  index_in (fst (coo_shape self)) i -> index_in (snd (coo_shape self)) j ->
  take2_1 (todense self) i j = sum (entries_at i j self).
Proof.
  intros Hr Hc Hi Hj.
  unfold todense, coo_todense, _coo_todense, _coo_todense_impl, _info.
  cbn [shape]. rewrite at_add2_fold. fold (entries self).
  rewrite take2_1_fold_entries.
  - rewrite take2_1_zeros2. unfold entries_at.
    assert (R := dtype_ring). rewrite (Radd_0_l R). reflexivity.
  - unfold wf_ndarray2, zeros2. cbn [arr_shape buf]. apply length_zeros.
  - now apply valid_entries.
  - exact Hi.
  - exact Hj.
Qed.

(** X9.  Duplicate coordinates accumulate: for a valid COO matrix, every
    cell [(i, j)] of [todense] inside the shape is the sum of the values
    stored at coordinate [(i, j)], and is zero when there is none. *)
Theorem todense_cell_is_sum_of_entries {D : Dtype} (self : COO) (i j : Z) :
  coo_valid (data self) (row self) (col self) (coo_shape self) ->
  index_in (fst (coo_shape self)) i -> index_in (snd (coo_shape self)) j ->
  take2_1 (todense self) i j = sum (entries_at i j self).
Proof.
  intros (_ & _ & Hr & Hc) Hi Hj. now apply take2_1_todense.
Qed.

Lemma todense_cell_is_sum_of_entries_witness :
  coo_valid (D := Z_dtype) [2; 3; 4] [1; 0; 1] [2; 1; 2] (2, 3)%nat
  /\ take2_1 (todense (mk_COO (D := Z_dtype) [2; 3; 4] [1; 0; 1] [2; 1; 2]
                              (2, 3)%nat false false)) 1 2
     = sum (D := Z_dtype) [2; 4].
Proof.
  assert (Hv : coo_valid (D := Z_dtype) [2; 3; 4] [1; 0; 1] [2; 1; 2]
                 (2, 3)%nat).
  { unfold coo_valid, index_in. simpl.
    repeat split; repeat constructor; lia. }
  split; [exact Hv|].
  apply (todense_cell_is_sum_of_entries (D := Z_dtype)
           (mk_COO (D := Z_dtype) [2; 3; 4] [1; 0; 1] [2; 1; 2] (2, 3)%nat
                   false false) 1 2 Hv);
    unfold index_in; simpl; lia.
Defined.

(** ** Linearity *)

Section Linearity.
Context {D : Dtype}.

Add Ring dtype_ring_linearity : dtype_ring.

Variables a b : elt.

Lemma length_axpby (x y : list elt) :
  length x = length y -> length (axpby a b x y) = length x.
Proof. intros H. unfold axpby. rewrite length_map2_min. lia. Qed.

Lemma nth_axpby (x y : list elt) (k : nat) :
  length x = length y ->
  nth k (axpby a b x y) zero
  = add (mul a (nth k x zero)) (mul b (nth k y zero)).
Proof.
  unfold axpby. revert y k.
  induction x as [|s x IH]; intros [|t y] k H; simpl in *; try discriminate.
  - destruct k; ring.
  - destruct k as [|k]; [reflexivity|]. apply IH. lia.
Qed.

Lemma set_nth_axpby (x y : list elt) (k : nat) (p q : elt) :
  length x = length y ->
  set_nth k (add (mul a p) (mul b q)) (axpby a b x y)
  = axpby a b (set_nth k p x) (set_nth k q y).
Proof.
  unfold axpby. revert y k.
  induction x as [|s x IH]; intros [|t y] k H; simpl in *; try discriminate.
  - destruct k; reflexivity.
  - destruct k as [|k]; simpl; [reflexivity|]. f_equal. apply IH. lia.
Qed.

Lemma at_add1_axpby (x y : list elt) (i : Z) (p q : elt) :
  length x = length y ->
  at_add1 (axpby a b x y) i (add (mul a p) (mul b q))
  = axpby a b (at_add1 x i p) (at_add1 y i q).
Proof.
  intros H. unfold at_add1. rewrite length_axpby by assumption. rewrite <- H.
  destruct (in_bounds (length x) (normalize_index (length x) i));
    [|reflexivity].
  rewrite nth_axpby by assumption.
  rewrite <- set_nth_axpby by assumption. f_equal. ring.
Qed.

Lemma at_add_axpby (idx : list Z) (u w x y : list elt) :
  length x = length y -> length u = length w ->
  at_add (axpby a b x y) idx (axpby a b u w)
  = axpby a b (at_add x idx u) (at_add y idx w).
Proof.
  revert u w x y.
  induction idx as [|i idx IH]; intros [|p u] [|q w] x y Hx Hu; simpl in *;
    try discriminate; try reflexivity.
  rewrite at_add1_axpby by assumption.
  apply IH; [now rewrite !length_at_add1 | lia].
Qed.

Lemma axpby_zeros (n : nat) : axpby a b (zeros n) (zeros n) = zeros n.
Proof.
  unfold axpby, zeros. rewrite map2_repeat. f_equal. ring.
Qed.

Lemma map2_mul_axpby_l (d1 d2 w : list elt) :
  length d1 = length d2 ->
  map2 mul (axpby a b d1 d2) w
  = axpby a b (map2 mul d1 w) (map2 mul d2 w).
Proof.
  unfold axpby. revert d2 w.
  induction d1 as [|s d1 IH]; intros [|t d2] [|z w] H; simpl in *;
    try discriminate; try reflexivity.
  f_equal; [ring | apply IH; lia].
Qed.

Lemma map2_mul_axpby_r (d w1 w2 : list elt) :
  length w1 = length w2 ->
  map2 mul d (axpby a b w1 w2)
  = axpby a b (map2 mul d w1) (map2 mul d w2).
Proof.
  unfold axpby. revert d w2.
  induction w1 as [|s w1 IH]; intros [|z d] [|t w2] H; simpl in *;
    try discriminate; try reflexivity.
  f_equal; [ring | apply IH; lia].
Qed.

Lemma take_axpby (v1 v2 : list elt) (idx : list Z) :
  length v1 = length v2 ->
  take (axpby a b v1 v2) idx = axpby a b (take v1 idx) (take v2 idx).
Proof.
  intros H. unfold take at 1 2 3. unfold axpby at 2. rewrite map2_map.
  apply map_ext. intros i. unfold take1.
  rewrite length_axpby by assumption. rewrite <- H.
  now apply nth_axpby.
Qed.

Lemma length_take (v : list elt) (idx : list Z) :
  length (take v idx) = length idx.
Proof. apply length_map. Qed.

Lemma matvec_axpby_data (d1 d2 : list elt) (row col : list Z) (v : list elt)
    (spinfo : COOInfo) (t : bool) :
  length d1 = length d2 ->
  _coo_matvec_impl (axpby a b d1 d2) row col v spinfo t
  = axpby a b (_coo_matvec_impl d1 row col v spinfo t)
              (_coo_matvec_impl d2 row col v spinfo t).
Proof.
  intros H. unfold _coo_matvec_impl.
  destruct t; rewrite map2_mul_axpby_l by assumption;
    rewrite <- at_add_axpby, axpby_zeros;
    rewrite ?length_map2_min, ?length_take; auto; lia.
Qed.

Lemma matvec_axpby_vec (data : list elt) (row col : list Z) (v1 v2 : list elt)
    (spinfo : COOInfo) (t : bool) :
  length v1 = length v2 ->
  _coo_matvec_impl data row col (axpby a b v1 v2) spinfo t
  = axpby a b (_coo_matvec_impl data row col v1 spinfo t)
              (_coo_matvec_impl data row col v2 spinfo t).
Proof.
  intros H. unfold _coo_matvec_impl.
  destruct t; rewrite take_axpby by assumption;
    rewrite map2_mul_axpby_r by (now rewrite !length_take);
    rewrite <- at_add_axpby, axpby_zeros;
    rewrite ?length_map2_min, ?length_take; auto.
Qed.

(** *** The two-dimensional scatter-add *)

Lemma at_add2_1_axpby2 (x y : ndarray2) (r c : Z) (p q : elt) :
  arr_shape x = arr_shape y -> length (buf x) = length (buf y) ->
  at_add2_1 (axpby2 a b x y) r c (add (mul a p) (mul b q))
  = axpby2 a b (at_add2_1 x r c p) (at_add2_1 y r c q).
Proof.
  destruct x as [[R C] bx], y as [sy yb]. cbn [arr_shape buf].
  intros <- Hl. unfold at_add2_1, axpby2. cbn [arr_shape buf].
  destruct (in_bounds R (normalize_index R r)
            && in_bounds C (normalize_index C c)); cbn [arr_shape buf];
    [|reflexivity].
  f_equal. rewrite nth_axpby by assumption.
  rewrite <- set_nth_axpby by assumption. f_equal. ring.
Qed.

Lemma at_add2_axpby2 (row col : list Z) (u w : list elt) (x y : ndarray2) :
  arr_shape x = arr_shape y -> length (buf x) = length (buf y) ->
  length u = length w ->
  at_add2 (axpby2 a b x y) row col (axpby a b u w)
  = axpby2 a b (at_add2 x row col u) (at_add2 y row col w).
Proof.
  revert col u w x y.
  induction row as [|r row IH]; intros [|c col] [|p u] [|q w] x y Hs Hl Hu;
    simpl in *; try discriminate; try reflexivity.
  rewrite at_add2_1_axpby2 by assumption.
  destruct (at_add2_1_shape x r c p) as [Sx Lx].
  destruct (at_add2_1_shape y r c q) as [Sy Ly].
  apply IH; [congruence | congruence | lia].
Qed.

Lemma todense_axpby (d1 d2 : list elt) (row col : list Z) (spinfo : COOInfo) :
  length d1 = length d2 ->
  _coo_todense_impl (axpby a b d1 d2) row col spinfo
  = axpby2 a b (_coo_todense_impl d1 row col spinfo)
               (_coo_todense_impl d2 row col spinfo).
Proof.
  intros H. unfold _coo_todense_impl.
  rewrite <- at_add2_axpby2; auto.
  unfold axpby2, zeros2. cbn [arr_shape buf]. now rewrite axpby_zeros.
Qed.

End Linearity.

(** X10.  [todense] is linear in [data]: for two value arrays of one
    length on the same sparsity pattern,
    [todense(a * d1 + b * d2) = a * todense(d1) + b * todense(d2)] for all
    indices, in or out of bounds; so the forward rule, which applies
    [todense] to the tangent, gives the exact change of the result:
    [todense(data + data_dot) = todense(data) + jvp(data_dot)]. *)
Theorem todense_linear_in_data {D : Dtype} (a b : elt) (d1 d2 : list elt)
    (row col : list Z) (spinfo : COOInfo) :
  length d1 = length d2 ->
  _coo_todense (axpby a b d1 d2) row col spinfo
  = axpby2 a b (_coo_todense d1 row col spinfo)
               (_coo_todense d2 row col spinfo)
  /\ _coo_todense (axpby one one d1 d2) row col spinfo
     = axpby2 one one (_coo_todense d1 row col spinfo)
                      (_coo_todense_jvp d2 d1 row col spinfo).
Proof.
  intros H. split; now apply todense_axpby.
Qed.

Lemma todense_linear_in_data_witness :
  _coo_todense (D := Z_dtype) (axpby 2 3 [1; 2; 3] [10; 20; 30])
               [0; 1; 0] [1; 0; 1] (mk_COOInfo (2, 2)%nat false false)
  = axpby2 2 3
      (_coo_todense [1; 2; 3] [0; 1; 0] [1; 0; 1]
                    (mk_COOInfo (2, 2)%nat false false))
      (_coo_todense [10; 20; 30] [0; 1; 0] [1; 0; 1]
                    (mk_COOInfo (2, 2)%nat false false)).
Proof.
  exact (proj1 (todense_linear_in_data (D := Z_dtype) 2 3 [1; 2; 3]
                  [10; 20; 30] [0; 1; 0] [1; 0; 1]
                  (mk_COOInfo (2, 2)%nat false false) eq_refl)).
Defined.

(** X11.  [matvec] is linear in [data] and in the dense operand, for
    either value of the transpose flag and all indices:
    [matvec(a * d1 + b * d2, v) = a * matvec(d1, v) + b * matvec(d2, v)]
    for value arrays of one length, and
    [matvec(d, a * v1 + b * v2) = a * matvec(d, v1) + b * matvec(d, v2)]
    for vectors of one length; so the two forward rules give the exact
    change of the product in each argument. *)
Theorem matvec_linear {D : Dtype} (a b : elt) (d1 d2 v1 v2 : list elt)
    (row col : list Z) (spinfo : COOInfo) (transpose : bool) :
  length d1 = length d2 -> length v1 = length v2 ->
  _coo_matvec (axpby a b d1 d2) row col v1 spinfo transpose
  = axpby a b (_coo_matvec d1 row col v1 spinfo transpose)
              (_coo_matvec d2 row col v1 spinfo transpose)
  /\ _coo_matvec d1 row col (axpby a b v1 v2) spinfo transpose
     = axpby a b (_coo_matvec d1 row col v1 spinfo transpose)
                 (_coo_matvec d1 row col v2 spinfo transpose)
  /\ _coo_matvec (axpby one one d1 d2) row col v1 spinfo transpose
     = axpby one one (_coo_matvec d1 row col v1 spinfo transpose)
         (_coo_matvec_jvp_mat d2 d1 row col v1 spinfo transpose)
  /\ _coo_matvec d1 row col (axpby one one v1 v2) spinfo transpose
     = axpby one one (_coo_matvec d1 row col v1 spinfo transpose)
         (_coo_matvec_jvp_vec v2 d1 row col v1 spinfo transpose).
Proof.
  intros Hd Hv. unfold _coo_matvec_jvp_mat, _coo_matvec_jvp_vec, _coo_matvec.
  repeat split;
    first [now apply matvec_axpby_data | now apply matvec_axpby_vec].
Qed.

Lemma matvec_linear_witness :
  _coo_matvec (D := Z_dtype) (axpby 2 3 [1; 2; 3] [10; 20; 30])
              [0; 1; 0] [1; 0; 1] [5; 7]
              (mk_COOInfo (2, 2)%nat false false) true
  = axpby 2 3
      (_coo_matvec [1; 2; 3] [0; 1; 0] [1; 0; 1] [5; 7]
                   (mk_COOInfo (2, 2)%nat false false) true)
      (_coo_matvec [10; 20; 30] [0; 1; 0] [1; 0; 1] [5; 7]
                   (mk_COOInfo (2, 2)%nat false false) true).
Proof.
  exact (proj1 (matvec_linear (D := Z_dtype) 2 3 [1; 2; 3] [10; 20; 30]
                  [5; 7] [5; 7] [0; 1; 0] [1; 0; 1]
                  (mk_COOInfo (2, 2)%nat false false) true
                  eq_refl eq_refl)).
Defined.

(** ** The transposition rule of [coo_todense] *)

Section TodenseTranspose.
Context {D : Dtype}.

Add Ring dtype_ring_todense_transpose : dtype_ring.

Lemma shape_eqb_eq (s t : Shape) : shape_eqb s t = true <-> s = t.
Proof.
  destruct s as [a b], t as [c d]. unfold shape_eqb. cbn [fst snd].
  rewrite andb_true_iff, !Nat.eqb_eq. split; [intros []|intros [=]]; subst; auto.
Qed.

Lemma inner_fold_entries (es : list (Z * Z * elt)) (m : ndarray2)
    (y : ndarray2) :
  wf_ndarray2 m -> wf_ndarray2 y -> arr_shape y = arr_shape m ->
  Forall (valid_entry (arr_shape m)) es ->
  inner (buf (fold_left add_entry es m)) (buf y)
  = add (inner (buf m) (buf y))
        (sum (map (fun e => mul (snd e)
                                (take2_1 y (fst (fst e)) (snd (fst e)))) es)).
Proof.
  revert m. induction es as [|e es IH]; intros m Hm Hy Hs Hes.
  - simpl. ring.
  - inversion Hes as [|? ? He Hes']; subst. cbn [fold_left map].
    destruct (add_entry_wf m e) as [Hs' Hw].
    rewrite IH; rewrite ?Hs'; auto.
    rewrite add_entry_valid by assumption. cbn [buf].
    destruct He as [Hr Hc].
    rewrite inner_set_nth.
    + rewrite take2_1_valid by (rewrite Hs; assumption).
      rewrite Hs, sum_cons. ring.
    + unfold wf_ndarray2 in *. rewrite Hs in Hy. congruence.
    + unfold wf_ndarray2 in Hm. rewrite Hm. now apply flat_index_lt.
Qed.

Lemma sum_entries_inner (y : ndarray2) (row col : list Z) (d : list elt) :
  sum (map (fun e => mul (snd e) (take2_1 y (fst (fst e)) (snd (fst e))))
           (combine (combine row col) d))
  = inner d (take2 y row col).
Proof.
  unfold take2. revert col d.
  induction row as [|r row IH]; intros [|c col] [|u d];
    cbn [combine map map2 fst snd]; rewrite ?inner_nil_r; try reflexivity.
  rewrite sum_cons, inner_cons, IH. reflexivity.
Qed.

Lemma inner_todense (ddata : list elt) (row col : list Z) (ct : ndarray2)
    (spinfo : COOInfo) :
  Forall (index_in (fst (shape spinfo))) row ->
  Forall (index_in (snd (shape spinfo))) col ->
  wf_ndarray2 ct -> arr_shape ct = shape spinfo ->
  inner (buf (_coo_todense_impl ddata row col spinfo)) (buf ct)
  = inner ddata (_coo_extract row col ct).
Proof.
  intros Hr Hc Hwf Hs. unfold _coo_todense_impl, _coo_extract.
  rewrite at_add2_fold, inner_fold_entries.
  - cbn [zeros2 buf]. rewrite inner_zeros_l, sum_entries_inner. ring.
  - unfold wf_ndarray2, zeros2. cbn [arr_shape buf]. apply length_zeros.
  - exact Hwf.
  - exact Hs.
  - now apply valid_entries.
Qed.

End TodenseTranspose.

(** X12.  The transposition rule of [coo_todense] raises [ValueError] when
    [row] or [col] is the quantity being transposed; for known indices
    inside the shape and a well-formed cotangent [ct] of the shape of
    [spinfo] it returns [ct[row, col]] together with the indices, and that
    is the adjoint of [todense] in [data]:
    [<todense(ddata, row, col), ct> = <ddata, ct[row, col]>] for every
    tangent [ddata], the inner product of matrices being taken cell by
    cell. *)
Theorem todense_transpose_rule_adjoint {D : Dtype} (ct : ndarray2)
    (row col : list Z) (spinfo : COOInfo) :
  Forall (index_in (fst (shape spinfo))) row ->
  Forall (index_in (snd (shape spinfo))) col ->
  wf_ndarray2 ct -> arr_shape ct = shape spinfo ->
  (forall n : nat,
      _coo_todense_transpose ct (UndefinedPrimal n) (Known row) (Known col)
                             spinfo
      = inr (take2 ct row col, row, col))
  /\ (forall ddata : list elt,
         inner (buf (_coo_todense ddata row col spinfo)) (buf ct)
         = inner ddata (take2 ct row col))
  /\ (forall (n k : nat) (r c : primal (list Z) nat),
         _coo_todense_transpose ct (UndefinedPrimal n) (UndefinedPrimal k) c
                                spinfo
         = inl (ValueError "Cannot transpose with respect to sparse indices")
         /\ _coo_todense_transpose ct (UndefinedPrimal n) r (UndefinedPrimal k)
                                   spinfo
            = inl (ValueError
                     "Cannot transpose with respect to sparse indices")).
Proof.
  intros Hr Hc Hwf Hs. split; [|split].
  - intros n. unfold _coo_todense_transpose.
    rewrite (proj2 (shape_eqb_eq _ _) Hs). reflexivity.
  - intros ddata. now apply inner_todense.
  - intros n k r c. split; [reflexivity|]. now destruct r.
Qed.

Lemma todense_transpose_rule_adjoint_witness :
  Forall (index_in 2) [1; 0; 1] /\ Forall (index_in 3) [2; 1; 2]
  /\ inner (buf (_coo_todense (D := Z_dtype) [2; 3; 4] [1; 0; 1] [2; 1; 2]
                              (mk_COOInfo (2, 3)%nat false false)))
           [1; 2; 3; 4; 5; 6]
     = inner (D := Z_dtype) [2; 3; 4]
             (take2 (mk_ndarray2 (2, 3)%nat [1; 2; 3; 4; 5; 6])
                    [1; 0; 1] [2; 1; 2]).
Proof.
  assert (Hr : Forall (index_in 2) [1; 0; 1])
    by (unfold index_in; repeat constructor; lia).
  assert (Hc : Forall (index_in 3) [2; 1; 2])
    by (unfold index_in; repeat constructor; lia).
  split; [exact Hr|]. split; [exact Hc|].
  exact (proj1 (proj2 (todense_transpose_rule_adjoint (D := Z_dtype)
                         (mk_ndarray2 (2, 3)%nat [1; 2; 3; 4; 5; 6])
                         [1; 0; 1] [2; 1; 2]
                         (mk_COOInfo (2, 3)%nat false false)
                         Hr Hc eq_refl eq_refl))
               [2; 3; 4]).
Defined.

(** ** Transposition of the matrix *)

Section Transposition.
Context {D : Dtype}.

Lemma nth_map_seq {B : Type} (F : nat -> B) (n r : nat) (d : B) :
  (r < n)%nat -> nth r (map F (seq 0 n)) d = F r.
Proof.
  intros H. rewrite (nth_indep _ d (F 0%nat)) by now rewrite length_map, length_seq.
  rewrite map_nth, seq_nth; auto.
Qed.

Lemma transposed_index (R C k : nat) :
  (k < C * R)%nat ->
  (k mod R < R)%nat /\ (k / R < C)%nat /\ (k = k / R * R + k mod R)%nat.
Proof.
  intros H. assert (R <> 0%nat) by (intros ->; lia).
  split; [now apply Nat.mod_upper_bound|].
  split; [apply Nat.Div0.div_lt_upper_bound; lia|].
  rewrite (Nat.div_mod_eq k R) at 1. lia.
Qed.

Lemma transposed_index_of (R C i j : nat) :
  (i < R)%nat -> (j < C)%nat ->
  ((j * R + i) mod R = i)%nat /\ ((j * R + i) / R = j)%nat.
Proof.
  intros Hi Hj. split.
  - rewrite Nat.add_comm, Nat.Div0.mod_add. now apply Nat.mod_small.
  - rewrite Nat.add_comm, Nat.div_add by lia.
    rewrite Nat.div_small by assumption. reflexivity.
Qed.

Lemma flat_nat_inj (C p q i j : nat) :
  (q < C)%nat -> (j < C)%nat -> (p * C + q = i * C + j)%nat ->
  p = i /\ q = j.
Proof.
  intros Hq Hj E. destruct (Nat.lt_trichotomy p i) as [H|[H|H]].
  - assert (H1 : (S p * C <= i * C)%nat) by (apply Nat.mul_le_mono_r; lia).
    simpl in H1. lia.
  - subst p. lia.
  - assert (H1 : (S i * C <= p * C)%nat) by (apply Nat.mul_le_mono_r; lia).
    simpl in H1. lia.
Qed.

Lemma transpose2_at_add2_1 (m : ndarray2) (r c : Z) (u : elt) :
  wf_ndarray2 m ->
  transpose2 (at_add2_1 m r c u) = at_add2_1 (transpose2 m) c r u.
Proof.
  destruct m as [[R C] b]. unfold wf_ndarray2. cbn [arr_shape buf fst snd].
  intros Hwf. unfold at_add2_1, transpose2. cbn [arr_shape buf].
  rewrite (andb_comm (in_bounds C _)).
  destruct (in_bounds R (normalize_index R r)) eqn:Er; cbn [andb];
    [|reflexivity].
  destruct (in_bounds C (normalize_index C c)) eqn:Ec; cbn [arr_shape buf];
    [|reflexivity].
  unfold in_bounds in Er, Ec. apply andb_true_iff in Er, Ec.
  rewrite Z.leb_le, Z.ltb_lt in Er, Ec.
  set (i := Z.to_nat (normalize_index R r)) in *.
  set (j := Z.to_nat (normalize_index C c)) in *.
  assert (Hi : (i < R)%nat) by lia. assert (Hj : (j < C)%nat) by lia.
  destruct (transposed_index_of R C i j Hi Hj) as [Em Ed].
  f_equal. apply (nth_ext _ _ zero zero).
  - now rewrite length_set_nth, !length_map.
  - rewrite length_map, length_seq. intros k Hk.
    rewrite nth_map_seq by assumption.
    destruct (transposed_index R C k Hk) as (Hm & Hd & Ek).
    destruct (Nat.eq_dec k (j * R + i)) as [->|Hne].
    + rewrite Em, Ed. rewrite !nth_set_nth_eq.
      * rewrite nth_map_seq by nia. now rewrite Em, Ed.
      * rewrite length_map, length_seq. nia.
      * rewrite Hwf. nia.
    + rewrite (nth_set_nth_neq k (j * R + i)) by exact Hne.
      rewrite nth_map_seq by assumption.
      apply nth_set_nth_neq. intros E.
      assert (k mod R = i /\ k / R = j)%nat as [E1 E2].
      { apply (flat_nat_inj C); auto. }
      apply Hne. rewrite Ek, E1, E2. reflexivity.
Qed.

Lemma transpose2_wf (m : ndarray2) :
  arr_shape (transpose2 m) = reversed (arr_shape m)
  /\ wf_ndarray2 (transpose2 m).
Proof.
  destruct m as [[R C] b]. unfold transpose2, wf_ndarray2, reversed.
  cbn [arr_shape buf fst snd]. now rewrite length_map, length_seq.
Qed.

Lemma transpose2_at_add2 (row col : list Z) (data : list elt) (m : ndarray2) :
  wf_ndarray2 m ->
  transpose2 (at_add2 m row col data) = at_add2 (transpose2 m) col row data.
Proof.
  revert col data m.
  induction row as [|r row IH]; intros [|c col] [|u data] m Hwf; simpl; auto.
  rewrite IH, transpose2_at_add2_1; auto.
  unfold wf_ndarray2 in *.
  destruct (at_add2_1_shape m r c u) as [-> ->]. exact Hwf.
Qed.

Lemma transpose2_zeros2 (s : Shape) :
  transpose2 (zeros2 s) = zeros2 (reversed s).
Proof.
  destruct s as [R C]. unfold transpose2, zeros2, zeros, reversed.
  cbn [arr_shape buf fst snd]. f_equal.
  rewrite (map_constant _ zero), length_seq; [reflexivity|].
  intros k _. apply nth_repeat.
Qed.

Lemma transpose2_todense_impl (data : list elt) (row col : list Z)
    (s : Shape) (rs cs rs' cs' : bool) :
  transpose2 (_coo_todense_impl data col row (mk_COOInfo (reversed s) rs cs))
  = _coo_todense_impl data row col (mk_COOInfo s rs' cs').
Proof.
  unfold _coo_todense_impl. cbn [shape].
  rewrite transpose2_at_add2, transpose2_zeros2.
  - destruct s. reflexivity.
  - unfold wf_ndarray2, zeros2. cbn [arr_shape buf]. apply length_zeros.
Qed.

End Transposition.

(** X13.  [COO.transpose] is the transposition of the matrix:
    [todense(mat.transpose())] is the dense transpose of [todense(mat)],
    for all indices, in or out of bounds; transposing twice gives the
    matrix back, and the layout flags are exchanged. *)
Theorem transpose_is_dense_transpose {D : Dtype} (self : COO) :
  todense (transpose self) = transpose2 (todense self)
  /\ transpose (transpose self) = self
  /\ _rows_sorted (transpose self) = _cols_sorted self
  /\ _cols_sorted (transpose self) = _rows_sorted self.
Proof.
  split; [|split; [|split; reflexivity]].
  - unfold todense, coo_todense, _coo_todense, transpose, COO_init, _info.
    cbn [data row col coo_shape _rows_sorted _cols_sorted].
    rewrite <- (transpose2_todense_impl (data self) (col self) (row self)
                  (reversed (coo_shape self)) (_rows_sorted self)
                  (_cols_sorted self)).
    destruct (coo_shape self). reflexivity.
  - destruct self as [d r c [R C] rs cs]. reflexivity.
Qed.

(** X14.  The GPU lowering of [coo_todense], run with the reference
    semantics in place of the accelerated kernel, computes what the
    reference implementation computes, for every dtype and every setting
    of the layout flags: when only the columns are sorted, converting the
    matrix with [row] and [col] swapped on the reversed shape and
    transposing the result gives the same dense matrix.  It falls back,
    with one warning, exactly when the dtype is neither floating nor
    complex or no layout flag is set. *)
Theorem todense_gpu_lowering_preserves_reference {D : Dtype}
    (dtype : np_dtype) (data : list elt) (row col : list Z)
    (spinfo : COOInfo) :
  snd (_coo_todense_gpu_lowering reference_todense_kernel dtype data row col
                                 spinfo)
  = _coo_todense_impl data row col spinfo
  /\ (fst (_coo_todense_gpu_lowering reference_todense_kernel dtype data
                                     row col spinfo) = []
      <-> floating_or_complex dtype = true
          /\ (rows_sorted spinfo = true \/ cols_sorted spinfo = true)).
Proof.
  destruct spinfo as [s rs cs]. unfold _coo_todense_gpu_lowering.
  cbn [rows_sorted cols_sorted shape].
  destruct (floating_or_complex dtype); cbn [negb].
  - destruct rs; [|destruct cs]; cbn [fst snd].
    + split; [reflexivity | intuition auto].
    + split; [|intuition auto].
      unfold reference_todense_kernel. apply transpose2_todense_impl.
    + split; [reflexivity|]. intuition discriminate.
  - cbn [fst snd]. split; [reflexivity|]. intuition discriminate.
Qed.

(** ** The product with a vector is the dense product *)

Section DenseProduct.
Context {D : Dtype}.

Add Ring dtype_ring_dense_product : dtype_ring.

Lemma at_add_entries (v : list elt) (row col : list Z) (data x : list elt) :
  at_add x row (map2 mul data (take v col))
  = fold_left (matvec_step v) (combine (combine row col) data) x.
Proof.
  revert col data x.
  induction row as [|r row IH]; intros [|c col] [|u data] x;
    cbn [combine take map map2 at_add fold_left]; rewrite ?map2_nil_r;
    try reflexivity.
  apply IH.
Qed.

Lemma sum_map_seq_update (f f' : nat -> elt) (x : elt) (c0 : nat) :
  (forall c, c <> c0 -> f' c = f c) -> f' c0 = add (f c0) x ->
  forall n a,
    sum (map f' (seq a n))
    = if (a <=? c0)%nat && (c0 <? a + n)%nat
      then add (sum (map f (seq a n))) x
      else sum (map f (seq a n)).
Proof.
  intros Hne Heq. induction n as [|n IH]; intros a.
  - cbn [seq map]. destruct (Nat.leb_spec a c0), (Nat.ltb_spec c0 (a + 0));
      cbn [andb]; try reflexivity; lia.
  - cbn [seq map]. rewrite !sum_cons, IH.
    destruct (Nat.eq_dec a c0) as [->|Ha].
    + rewrite Heq.
      destruct (Nat.leb_spec (S c0) c0); [lia|]. cbn [andb].
      destruct (Nat.leb_spec c0 c0); [|lia].
      destruct (Nat.ltb_spec c0 (c0 + S n)); [|lia]. cbn [andb]. ring.
    + rewrite Hne by assumption.
      destruct (Nat.leb_spec (S a) c0), (Nat.ltb_spec c0 (S a + n)),
        (Nat.leb_spec a c0), (Nat.ltb_spec c0 (a + S n));
        cbn [andb]; try lia; ring.
Qed.

Lemma dense_matvec_add_entry (m : ndarray2) (e : Z * Z * elt) (v : list elt) :
  wf_ndarray2 m -> valid_entry (arr_shape m) e ->
  length v = snd (arr_shape m) ->
  dense_matvec (add_entry m e) v = matvec_step v (dense_matvec m v) e.
Proof.
  intros Hwf He Hv. rewrite add_entry_valid by assumption.
  destruct m as [[R C] b], e as [[r0 c0] u]. destruct He as [Hr Hc].
  unfold wf_ndarray2 in Hwf. cbn [arr_shape buf fst snd] in *.
  unfold dense_matvec, matvec_step. cbn [arr_shape buf fst snd].
  set (i0 := Z.to_nat r0). set (j0 := Z.to_nat c0).
  assert (Hi0 : (i0 < R)%nat) by (unfold index_in in Hr; lia).
  assert (Hj0 : (j0 < C)%nat) by (unfold index_in in Hc; lia).
  assert (Hk0 : (i0 * C + j0 < length b)%nat) by (rewrite Hwf; nia).
  rewrite at_add1_in by now rewrite length_map, length_seq.
  rewrite take1_in by now rewrite Hv. fold i0 j0.
  apply (nth_ext _ _ zero zero).
  - now rewrite length_set_nth, !length_map.
  - rewrite length_map, length_seq. intros r Hr'.
    rewrite nth_map_seq by assumption.
    destruct (Nat.eq_dec r i0) as [->|Hne].
    + rewrite nth_set_nth_eq by now rewrite length_map, length_seq.
      rewrite nth_map_seq by assumption.
      rewrite (sum_map_seq_update
                 (fun c => mul (nth (i0 * C + c) b zero) (nth c v zero))
                 _ (mul u (nth j0 v zero)) j0).
      * destruct (Nat.leb_spec 0 j0); [|lia].
        destruct (Nat.ltb_spec j0 (0 + C)); [|lia]. reflexivity.
      * intros c Hc'. rewrite nth_set_nth_neq by lia. reflexivity.
      * rewrite nth_set_nth_eq by assumption. ring.
    + rewrite nth_set_nth_neq by assumption.
      rewrite nth_map_seq by assumption. f_equal.
      apply map_ext_in. intros c Hc'. apply in_seq in Hc'.
      rewrite nth_set_nth_neq; [reflexivity|].
      intros E. apply (flat_nat_inj C) in E; [|lia|lia]. destruct E. auto.
Qed.

Lemma dense_matvec_fold (es : list (Z * Z * elt)) (m : ndarray2)
    (v : list elt) :
  wf_ndarray2 m -> Forall (valid_entry (arr_shape m)) es ->
  length v = snd (arr_shape m) ->
  dense_matvec (fold_left add_entry es m) v
  = fold_left (matvec_step v) es (dense_matvec m v).
Proof.
  revert m. induction es as [|e es IH]; intros m Hwf Hes Hv; [reflexivity|].
  inversion Hes as [|? ? He Hes']; subst. cbn [fold_left].
  destruct (add_entry_wf m e) as [Hs Hw].
  rewrite IH; rewrite ?Hs; auto.
  now rewrite dense_matvec_add_entry.
Qed.

Lemma dense_matvec_zeros2 (s : Shape) (v : list elt) :
  dense_matvec (zeros2 s) v = zeros (fst s).
Proof.
  destruct s as [R C]. unfold dense_matvec, zeros2, zeros.
  cbn [arr_shape buf fst snd].
  rewrite (map_constant _ zero), length_seq; [reflexivity|].
  intros r _. induction (seq 0 C) as [|c l IH]; [reflexivity|].
  cbn [map]. rewrite sum_cons, IH, nth_repeat. ring.
Qed.

Lemma matvec_impl_dense (data : list elt) (row col : list Z) (v : list elt)
    (spinfo : COOInfo) :
  Forall (index_in (fst (shape spinfo))) row ->
  Forall (index_in (snd (shape spinfo))) col ->
  length v = snd (shape spinfo) ->
  _coo_matvec_impl data row col v spinfo false
  = dense_matvec (_coo_todense_impl data row col spinfo) v.
Proof.
  intros Hr Hc Hv. unfold _coo_matvec_impl, _coo_todense_impl.
  rewrite at_add_entries, at_add2_fold, dense_matvec_fold.
  - now rewrite dense_matvec_zeros2.
  - unfold wf_ndarray2, zeros2. cbn [arr_shape buf]. apply length_zeros.
  - now apply valid_entries.
  - exact Hv.
Qed.

End DenseProduct.

(** X15.  The sparse product is the dense product of the dense matrix:
    for a matrix whose coordinates lie inside its shape [(R, C)],
    [coo_matvec(mat, v)] equals [todense(mat) @ v] for [v] of length [C],
    and [coo_matvec(mat, v, transpose=True)] equals [todense(mat).T @ v]
    for [v] of length [R]; so does the operator [mat @ v] of the container
    on a one-dimensional operand. *)
Theorem matvec_is_dense_product {D : Dtype} (self : COO) (v : list elt) :
  Forall (index_in (fst (coo_shape self))) (row self) ->
  Forall (index_in (snd (coo_shape self))) (col self) ->
  (length v = snd (coo_shape self) ->
   coo_matvec self v false = dense_matvec (todense self) v
   /\ __matmul__ self (Array [length v] v)
      = inr (Vector (dense_matvec (todense self) v)))
  /\ (length v = fst (coo_shape self) ->
      coo_matvec self v true = dense_matvec (transpose2 (todense self)) v).
Proof.
  intros Hr Hc. split; intros Hv.
  - assert (E : coo_matvec self v false = dense_matvec (todense self) v)
      by now apply matvec_impl_dense.
    split; [exact E|].
    unfold __matmul__, COO_init. rewrite <- E.
    destruct self; reflexivity.
  - destruct self as [d r c [R C] rs cs].
    cbn [coo_shape row col fst snd] in *.
    unfold todense, coo_todense, _coo_todense, _info.
    cbn [data row col coo_shape _rows_sorted _cols_sorted].
    pose proof (transpose2_todense_impl d c r (C, R) rs cs false false) as E.
    unfold reversed in E. cbn [fst snd] in E. rewrite E.
    rewrite <- matvec_impl_dense; auto.
Qed.

Lemma matvec_is_dense_product_witness :
  Forall (index_in 2) [0; 1; 1] /\ Forall (index_in 3) [1; 0; 2]
  /\ coo_matvec (mk_COO (D := Z_dtype) [2; 3; 4] [0; 1; 1] [1; 0; 2]
                        (2, 3)%nat false false) [5; 6; 7] false
     = dense_matvec (todense (mk_COO (D := Z_dtype) [2; 3; 4] [0; 1; 1]
                                     [1; 0; 2] (2, 3)%nat false false))
                    [5; 6; 7].
Proof.
  assert (Hr : Forall (index_in 2) [0; 1; 1])
    by (unfold index_in; repeat constructor; lia).
  assert (Hc : Forall (index_in 3) [1; 0; 2])
    by (unfold index_in; repeat constructor; lia).
  split; [exact Hr|]. split; [exact Hc|].
  exact (proj1 (proj1 (matvec_is_dense_product (D := Z_dtype)
                         (mk_COO (D := Z_dtype) [2; 3; 4] [0; 1; 1] [1; 0; 2]
                                 (2, 3)%nat false false) [5; 6; 7] Hr Hc)
                      eq_refl)).
Defined.

(** ** The product does not depend on the order of the entries *)

Section EntryOrder.
Context {D : Dtype}.

Add Ring dtype_ring_entry_order : dtype_ring.

Lemma at_add1_comm (y : list elt) (i j : Z) (p q : elt) :
  at_add1 (at_add1 y i p) j q = at_add1 (at_add1 y j q) i p.
Proof.
  set (n := length y).
  assert (E : forall (x : list elt) (k : Z) (u : elt),
             length x = n ->
             at_add1 x k u
             = if in_bounds n (normalize_index n k)
               then set_nth (Z.to_nat (normalize_index n k))
                      (add (nth (Z.to_nat (normalize_index n k)) x zero) u) x
               else x)
    by (intros x k u <-; reflexivity).
  rewrite (E (at_add1 y i p)), (E (at_add1 y j q))
    by apply length_at_add1.
  rewrite !(E y) by reflexivity.
  destruct (in_bounds n (normalize_index n i)) eqn:Ei;
  destruct (in_bounds n (normalize_index n j)) eqn:Ej; try reflexivity.
  set (a := Z.to_nat (normalize_index n i)).
  set (b := Z.to_nat (normalize_index n j)).
  destruct (Nat.eq_dec a b) as [<-|Hab].
  - destruct (Nat.lt_ge_cases a (length y)) as [Ha|Ha].
    + rewrite !nth_set_nth_eq, !set_nth_twice by assumption. f_equal. ring.
    + rewrite !(set_nth_ge a) by (rewrite ?length_set_nth; assumption).
      reflexivity.
  - rewrite !nth_set_nth_neq by congruence.
    apply set_nth_swap. congruence.
Qed.

Lemma matvec_step_comm (v y : list elt) (e1 e2 : Z * Z * elt) :
  matvec_step v (matvec_step v y e1) e2
  = matvec_step v (matvec_step v y e2) e1.
Proof. unfold matvec_step. apply at_add1_comm. Qed.

Lemma combine_swap (row col : list Z) (data : list elt) :
  combine (combine col row) data
  = map (fun e : Z * Z * elt => (snd (fst e), fst (fst e), snd e))
        (combine (combine row col) data).
Proof.
  revert col data.
  induction row as [|r row IH]; intros [|c col] [|u data]; simpl;
    try reflexivity.
  now rewrite IH.
Qed.

Lemma coo_matvec_fold (self : COO) (v : list elt) (t : bool) :
  coo_matvec self v t
  = fold_left (matvec_step v)
      (if t
       then map (fun e : Z * Z * elt => (snd (fst e), fst (fst e), snd e))
                (entries self)
       else entries self)
      (zeros (if t then snd (coo_shape self) else fst (coo_shape self))).
Proof.
  unfold coo_matvec, _coo_matvec, _coo_matvec_impl, _info, entries.
  cbn [shape]. destruct t; rewrite at_add_entries; [|reflexivity].
  now rewrite combine_swap.
Qed.

Lemma coo_matvec_Permutation (self other : COO) (v : list elt) (t : bool) :
  coo_shape self = coo_shape other ->
  Permutation (entries self) (entries other) ->
  coo_matvec self v t = coo_matvec other v t.
Proof.
  intros Hs HP. rewrite !coo_matvec_fold, Hs.
  apply fold_left_Permutation; [intros; apply matvec_step_comm|].
  destruct t; [now apply Permutation_map | exact HP].
Qed.

End EntryOrder.

(** X16.  The product with a vector depends on the entries of the matrix
    only as a multiset: two matrices of one shape whose entries are a
    permutation of each other have the same [coo_matvec], for either
    value of the transpose flag and all indices; in particular sorting the
    indices never changes the product. *)
Theorem matvec_ignores_entry_order {D : Dtype} (self : COO) (v : list elt)
    (transpose : bool) :
  (forall other : COO,
      coo_shape self = coo_shape other ->
      Permutation (entries self) (entries other) ->
      coo_matvec self v transpose = coo_matvec other v transpose)
  /\ coo_matvec (_sort_indices self) v transpose
     = coo_matvec self v transpose.
Proof.
  split.
  - intros other. apply coo_matvec_Permutation.
  - destruct (_rows_sorted self) eqn:H.
    + unfold _sort_indices. now rewrite H.
    + apply coo_matvec_Permutation.
      * unfold _sort_indices, lax_sort2, COO_init. now rewrite H.
      * rewrite entries_sort_indices by assumption. apply sort_by_keys_perm.
Qed.

Lemma matvec_ignores_entry_order_witness :
  Permutation
    (entries (mk_COO (D := Z_dtype) [5; 7] [1; 0] [0; 1] (2, 2)%nat
                     false false))
    (entries (mk_COO (D := Z_dtype) [7; 5] [0; 1] [1; 0] (2, 2)%nat
                     true false))
  /\ coo_matvec (mk_COO (D := Z_dtype) [5; 7] [1; 0] [0; 1] (2, 2)%nat
                        false false) [3; 4] false
     = coo_matvec (mk_COO (D := Z_dtype) [7; 5] [0; 1] [1; 0] (2, 2)%nat
                          true false) [3; 4] false.
Proof.
  assert (Hp : Permutation
                 (entries (mk_COO (D := Z_dtype) [5; 7] [1; 0] [0; 1]
                                  (2, 2)%nat false false))
                 (entries (mk_COO (D := Z_dtype) [7; 5] [0; 1] [1; 0]
                                  (2, 2)%nat true false)))
    by apply perm_swap.
  split; [exact Hp|].
  exact (proj1 (matvec_ignores_entry_order (D := Z_dtype)
                  (mk_COO (D := Z_dtype) [5; 7] [1; 0] [0; 1] (2, 2)%nat
                          false false) [3; 4] false)
               (mk_COO (D := Z_dtype) [7; 5] [0; 1] [1; 0] (2, 2)%nat
                       true false) eq_refl Hp).
Defined.

(** ** The dense form of the diagonal constructor *)

Section EyeDense.
Context {D : Dtype}.

Add Ring dtype_ring_eye : dtype_ring.

Lemma eye_arrays (N M : nat) (k : Z) (t : int_dtype) :
  fits t N -> fits t M -> 0 < diag_size N M k ->
  _eye N M k t
  = mk_COO (repeat one (Z.to_nat (diag_size N M k)))
      (map (fun i => if 0 <=? k then Z.of_nat i else Z.of_nat i - k)
           (seq 0 (Z.to_nat (diag_size N M k))))
      (map (fun i => if 0 <=? k then Z.of_nat i + k else Z.of_nat i)
           (seq 0 (Z.to_nat (diag_size N M k))))
      (N, M) true true.
Proof.
  intros HN HM Hd. unfold fits in HN, HM.
  assert (Hp : 0 < 2 ^ (bits t - 1)) by (destruct t; simpl; lia).
  unfold _eye. destruct (Z.leb_spec (diag_size N M k) 0) as [?|_]; [lia|].
  unfold COO_init, ones.
  assert (Hk : _const t k = k).
  { apply astype_small. unfold diag_size in *.
    destruct (Z.ltb_spec 0 k); lia. }
  rewrite Hk, (astype_0 t : _const t 0 = 0).
  unfold lax_sub, lax_add, arange. rewrite !map_map.
  f_equal; apply seq_map_ext_in; intros i Hi.
  - rewrite (astype_small _ (Z.of_nat i))
      by (unfold diag_size in *; destruct (Z.ltb_spec 0 k); lia).
    destruct (Z.leb_spec 0 k);
      (rewrite astype_small
         by (unfold diag_size in *; destruct (Z.ltb_spec 0 k); lia)); lia.
  - rewrite (astype_small _ (Z.of_nat i))
      by (unfold diag_size in *; destruct (Z.ltb_spec 0 k); lia).
    destruct (Z.leb_spec k 0); destruct (Z.leb_spec 0 k);
      (rewrite astype_small
         by (unfold diag_size in *; destruct (Z.ltb_spec 0 k); lia)); lia.
Qed.

Lemma combine_map_repeat {A B C : Type} (f : nat -> A) (g : nat -> B) (c : C)
    (a n : nat) :
  combine (combine (map f (seq a n)) (map g (seq a n))) (repeat c n)
  = map (fun i => (f i, g i, c)) (seq a n).
Proof.
  revert a. induction n as [|n IH]; intros a; simpl; [reflexivity|].
  now rewrite IH.
Qed.

Lemma sum_filter_seq (P : nat -> bool) (i0 : nat) :
  (forall i, P i = true -> i = i0) ->
  forall n a,
    sum (map (fun _ => one) (filter P (seq a n)))
    = if (a <=? i0)%nat && (i0 <? a + n)%nat && P i0 then one else zero.
Proof.
  intros HP. induction n as [|n IH]; intros a.
  - cbn [seq filter map].
    destruct (Nat.leb_spec a i0), (Nat.ltb_spec i0 (a + 0));
      cbn [andb]; try reflexivity; lia.
  - cbn [seq filter]. destruct (P a) eqn:Pa.
    + pose proof (HP a Pa) as ->. cbn [map]. rewrite sum_cons, IH, Pa.
      destruct (Nat.leb_spec (S i0) i0); [lia|].
      destruct (Nat.leb_spec i0 i0); [|lia].
      destruct (Nat.ltb_spec i0 (i0 + S n)); [|lia]. cbn [andb]. ring.
    + rewrite IH.
      destruct (Nat.leb_spec (S a) i0), (Nat.ltb_spec i0 (S a + n)),
        (Nat.leb_spec a i0), (Nat.ltb_spec i0 (a + S n));
        cbn [andb]; try lia; try reflexivity.
      assert (a = i0) by lia. subst a. now rewrite Pa.
Qed.

Lemma filter_map_comm {A B : Type} (P : B -> bool) (h : A -> B) (l : list A) :
  filter P (map h l) = map h (filter (fun x => P (h x)) l).
Proof.
  induction l as [|x l IH]; simpl; [reflexivity|].
  destruct (P (h x)); simpl; now rewrite IH.
Qed.

End EyeDense.

(** X17.  The diagonal constructor builds the banded identity: for a shape
    [(N, M)] whose dimensions fit the index dtype and every offset [k],
    cell [(r, c)] of [todense(_eye(N, M, k))] inside the shape is one when
    [c - r = k] and zero otherwise. *)
Theorem eye_todense_is_banded_identity {D : Dtype} (N M : nat) (k : Z)
    (index_dtype : int_dtype) (r c : Z) :
  fits index_dtype N -> fits index_dtype M ->
  index_in N r -> index_in M c ->
  take2_1 (todense (_eye N M k index_dtype)) r c
  = if c - r =? k then one else zero.
Proof.
  intros HN HM Hr Hc.
  destruct (Z.le_gt_cases (diag_size N M k) 0) as [Hd|Hd].
  - assert (E : _eye N M k index_dtype = _empty (N, M)).
    { unfold _eye. destruct (Z.leb_spec (diag_size N M k) 0); [reflexivity|lia]. }
    rewrite E. unfold todense, coo_todense, _coo_todense, _coo_todense_impl.
    cbn [_empty COO_init data row col _info shape coo_shape at_add2].
    rewrite take2_1_zeros2.
    destruct (Z.eqb_spec (c - r) k); [|reflexivity].
    exfalso. unfold index_in, diag_size in *.
    destruct (Z.ltb_spec 0 k); lia.
  - rewrite eye_arrays by (assumption || lia).
    set (d := Z.to_nat (diag_size N M k)).
    assert (Hdz : Z.of_nat d = diag_size N M k) by (subst d; lia).
    rewrite take2_1_todense; cbn [coo_shape row col fst snd]; auto.
    + unfold entries_at, entries. cbn [data row col].
      rewrite combine_map_repeat, filter_map_comm, map_map. cbn [snd].
      unfold index_in, diag_size in *.
      destruct (Z.leb_spec 0 k) as [Hk|Hk].
      * rewrite (sum_filter_seq _ (Z.to_nat r)).
        -- unfold at_key. cbn [fst snd]. rewrite Z2Nat.id by lia.
           rewrite Z.eqb_refl. cbn [andb].
           destruct (Z.eqb_spec (c - r) k) as [E|E].
           ++ destruct (Z.eqb_spec (r + k) c); [|lia].
              destruct (Nat.leb_spec 0 (Z.to_nat r)); [|lia].
              destruct (Nat.ltb_spec (Z.to_nat r) (0 + d)); [reflexivity|].
              exfalso. destruct (Z.ltb_spec 0 k); lia.
           ++ destruct (Z.eqb_spec (r + k) c); [lia|].
              now rewrite andb_false_r.
        -- intros i Hi. unfold at_key in Hi. cbn [fst snd] in Hi.
           apply andb_true_iff in Hi. destruct Hi as [Hi _].
           apply Z.eqb_eq in Hi. lia.
      * rewrite (sum_filter_seq _ (Z.to_nat c)).
        -- unfold at_key. cbn [fst snd]. rewrite Z2Nat.id by lia.
           rewrite Z.eqb_refl, andb_true_r.
           destruct (Z.eqb_spec (c - r) k) as [E|E].
           ++ destruct (Z.eqb_spec (c - k) r); [|lia].
              destruct (Nat.leb_spec 0 (Z.to_nat c)); [|lia].
              destruct (Nat.ltb_spec (Z.to_nat c) (0 + d)); [reflexivity|].
              exfalso. destruct (Z.ltb_spec 0 k); lia.
           ++ destruct (Z.eqb_spec (c - k) r); [lia|].
              now rewrite andb_false_r.
        -- intros i Hi. unfold at_key in Hi. cbn [fst snd] in Hi.
           apply andb_true_iff in Hi. destruct Hi as [_ Hi].
           apply Z.eqb_eq in Hi. lia.
    + apply Forall_forall. intros x Hx. apply in_map_iff in Hx.
      destruct Hx as (i & <- & Hi). apply in_seq in Hi.
      unfold index_in, diag_size in *.
      destruct (Z.leb_spec 0 k), (Z.ltb_spec 0 k); lia.
    + apply Forall_forall. intros x Hx. apply in_map_iff in Hx.
      destruct Hx as (i & <- & Hi). apply in_seq in Hi.
      unfold index_in, diag_size in *.
      destruct (Z.leb_spec 0 k), (Z.ltb_spec 0 k); lia.
Qed.

Lemma eye_todense_is_banded_identity_witness :
  fits int32 3 /\ fits int32 4 /\ index_in 3 2 /\ index_in 4 1
  /\ take2_1 (todense (_eye (D := Z_dtype) 3 4 (-1) int32)) 2 1 = 1.
Proof.
  assert (H3 : fits int32 3) by (unfold fits; simpl; lia).
  assert (H4 : fits int32 4) by (unfold fits; simpl; lia).
  assert (Hr : index_in 3 2) by (unfold index_in; lia).
  assert (Hc : index_in 4 1) by (unfold index_in; lia).
  split; [exact H3|]. split; [exact H4|]. split; [exact Hr|].
  split; [exact Hc|].
  exact (eye_todense_is_banded_identity (D := Z_dtype) 3 4 (-1) int32 2 1
           H3 H4 Hr Hc).
Defined.

(** ** The product with a matrix, column by column *)

Section Columns.
Context {D : Dtype}.

Add Ring dtype_ring_columns : dtype_ring.

Lemma nth_map2 {A B C : Type} (f : A -> B -> C) (x : list A) (y : list B)
    (j : nat) (da : A) (db : B) (dc : C) :
  (j < length x)%nat -> (j < length y)%nat ->
  nth j (map2 f x y) dc = f (nth j x da) (nth j y db).
Proof.
  revert y j. induction x as [|a x IH]; intros [|b y] [|j] Hx Hy;
    simpl in *; try lia; auto.
  apply IH; lia.
Qed.

Lemma length_col_of (m : ndarray2) (j : nat) :
  length (col_of m j) = fst (arr_shape m).
Proof.
  unfold col_of. destruct (arr_shape m) as [R C].
  now rewrite length_map, length_seq.
Qed.

Lemma nth_col_of (m : ndarray2) (j p : nat) :
  (p < fst (arr_shape m))%nat ->
  nth p (col_of m j) zero = nth (p * snd (arr_shape m) + j) (buf m) zero.
Proof.
  unfold col_of. destruct (arr_shape m) as [R C]. cbn [fst snd].
  intros H. now rewrite nth_map_seq.
Qed.

Lemma row_below (C p j : nat) (R : nat) :
  (p < R)%nat -> (j < C)%nat -> (p * C + j < R * C)%nat.
Proof.
  intros Hp Hj.
  assert (S p * C <= R * C)%nat by (apply Nat.mul_le_mono_r; lia).
  simpl in *. lia.
Qed.

Lemma length_row_of (m : ndarray2) (p : nat) :
  wf_ndarray2 m -> (p < fst (arr_shape m))%nat ->
  length (row_of m p) = snd (arr_shape m).
Proof.
  unfold wf_ndarray2, row_of. destruct m as [[R C] b]. cbn [arr_shape buf fst snd].
  intros Hw Hp. rewrite length_firstn, length_skipn.
  assert (S p * C <= R * C)%nat by (apply Nat.mul_le_mono_r; lia).
  simpl in *. lia.
Qed.

Lemma nth_row_of (m : ndarray2) (p j : nat) :
  (j < snd (arr_shape m))%nat ->
  nth j (row_of m p) zero = nth (p * snd (arr_shape m) + j) (buf m) zero.
Proof.
  unfold row_of. intros Hj. rewrite nth_firstn.
  destruct (Nat.ltb_spec j (snd (arr_shape m))); [|lia].
  now rewrite nth_skipn.
Qed.

Lemma at_add_row1_shape (m : ndarray2) (i : Z) (u : list elt) :
  arr_shape (at_add_row1 m i u) = arr_shape m.
Proof.
  unfold at_add_row1. destruct (arr_shape m) as [R C] eqn:E.
  destruct (in_bounds R (normalize_index R i)); [reflexivity|exact E].
Qed.

Lemma at_add_row1_wf (m : ndarray2) (i : Z) (u : list elt) :
  wf_ndarray2 m -> length u = snd (arr_shape m) ->
  wf_ndarray2 (at_add_row1 m i u).
Proof.
  intros Hw Hu. unfold wf_ndarray2. rewrite at_add_row1_shape.
  unfold at_add_row1. destruct (arr_shape m) as [R C] eqn:E.
  destruct (in_bounds R (normalize_index R i)) eqn:Hb.
  - cbn [buf fst snd]. unfold in_bounds in Hb.
    apply andb_true_iff in Hb. destruct Hb as [H0 H1].
    apply Z.leb_le in H0. apply Z.ltb_lt in H1.
    set (p := Z.to_nat (normalize_index R i)).
    assert (Hp : (p < R)%nat) by (subst p; lia).
    rewrite !length_app, length_map2_min, length_firstn, length_skipn.
    rewrite length_row_of by (rewrite ?E; cbn [fst snd]; auto).
    rewrite E in *. cbn [fst snd] in *. unfold wf_ndarray2 in Hw.
    rewrite E in Hw. cbn [fst snd] in Hw. rewrite Hw, Hu.
    assert (S p * C <= R * C)%nat by (apply Nat.mul_le_mono_r; lia).
    simpl in *. lia.
  - unfold wf_ndarray2 in Hw. now rewrite E in Hw.
Qed.

Lemma col_of_at_add_row1 (m : ndarray2) (i : Z) (u : list elt) (j : nat) :
  wf_ndarray2 m -> length u = snd (arr_shape m) ->
  (j < snd (arr_shape m))%nat ->
  col_of (at_add_row1 m i u) j = at_add1 (col_of m j) i (nth j u zero).
Proof.
  intros Hw Hu Hj.
  unfold at_add1. rewrite length_col_of.
  pose proof (at_add_row1_shape m i u) as Hs.
  unfold at_add_row1 in *. destruct (arr_shape m) as [R C] eqn:E.
  cbn [fst snd] in *.
  destruct (in_bounds R (normalize_index R i)) eqn:Hb; [|reflexivity].
  unfold in_bounds in Hb. apply andb_true_iff in Hb. destruct Hb as [H0 H1].
  apply Z.leb_le in H0. apply Z.ltb_lt in H1.
  set (p := Z.to_nat (normalize_index R i)) in *.
  assert (Hp : (p < R)%nat) by (subst p; lia).
  assert (Hlb : length (buf m) = (R * C)%nat).
  { unfold wf_ndarray2 in Hw. now rewrite E in Hw. }
  assert (Hpc : (S p * C <= R * C)%nat) by (apply Nat.mul_le_mono_r; lia).
  assert (Hrow : length (row_of m p) = C).
  { rewrite length_row_of; rewrite ?E; auto. }
  apply (nth_ext _ _ zero zero).
  - now rewrite length_set_nth, !length_col_of, E.
  - rewrite length_col_of. cbn [arr_shape fst]. intros r Hr.
    rewrite nth_col_of by (cbn [arr_shape fst]; exact Hr).
    cbn [arr_shape buf snd].
    assert (Hf : length (firstn (p * C) (buf m)) = (p * C)%nat).
    { rewrite length_firstn. simpl in Hpc. lia. }
    destruct (Nat.eq_dec r p) as [->|Hne].
    + rewrite nth_set_nth_eq by (now rewrite length_col_of, E).
      rewrite app_nth2 by lia. rewrite Hf.
      replace (p * C + j - p * C)%nat with j by lia.
      rewrite app_nth1 by (rewrite length_map2_min; lia).
      rewrite (nth_map2 add _ _ j zero zero) by lia.
      rewrite nth_row_of by (rewrite E; auto).
      rewrite nth_col_of by (rewrite E; auto).
      now rewrite E.
    + rewrite nth_set_nth_neq by exact Hne.
      rewrite nth_col_of by (rewrite E; auto). rewrite E. cbn [snd].
      destruct (Nat.lt_ge_cases r p) as [Hlt|Hge].
      * assert (S r * C <= p * C)%nat by (apply Nat.mul_le_mono_r; lia).
        rewrite app_nth1 by (rewrite Hf; simpl in *; lia).
        rewrite nth_firstn.
        destruct (Nat.ltb_spec (r * C + j) (p * C)); [reflexivity|].
        simpl in *; lia.
      * assert (S p * C <= r * C)%nat by (apply Nat.mul_le_mono_r; lia).
        rewrite app_nth2 by (rewrite Hf; simpl in *; lia). rewrite Hf.
        rewrite app_nth2 by (rewrite length_map2_min; simpl in *; lia).
        rewrite length_map2_min, Hrow, Hu, Nat.min_id, nth_skipn.
        f_equal. simpl in *. lia.
Qed.

Lemma col_of_at_add_rows (j : nat) (idx : list Z) :
  forall (rows : list (list elt)) (m : ndarray2),
    wf_ndarray2 m -> (j < snd (arr_shape m))%nat ->
    Forall (fun u => length u = snd (arr_shape m)) rows ->
    col_of (at_add_rows m idx rows) j
    = at_add (col_of m j) idx (map (fun u => nth j u zero) rows)
    /\ wf_ndarray2 (at_add_rows m idx rows)
    /\ arr_shape (at_add_rows m idx rows) = arr_shape m.
Proof.
  induction idx as [|i idx IH]; intros [|u rows] m Hw Hj Hf;
    cbn [at_add_rows at_add map]; auto.
  inversion Hf as [|? ? Hu Hf']; subst.
  destruct (IH rows (at_add_row1 m i u)) as (Hc & Hw' & Hs).
  - now apply at_add_row1_wf.
  - now rewrite at_add_row1_shape.
  - now rewrite at_add_row1_shape.
  - rewrite Hc, Hs, at_add_row1_shape, col_of_at_add_row1 by assumption.
    auto.
Qed.

Lemma col_of_zeros2 (R C j : nat) : col_of (zeros2 (R, C)) j = zeros R.
Proof.
  unfold col_of, zeros2, zeros. cbn [arr_shape buf fst snd].
  rewrite (map_ext _ (fun _ => zero)) by (intros; apply nth_repeat).
  now rewrite map_const, length_seq.
Qed.

Lemma clamp_index_lt_pos (n : nat) (i : Z) :
  (0 < n)%nat -> (clamp_index n i < n)%nat.
Proof. unfold clamp_index, normalize_index. destruct (i <? 0); lia. Qed.

Lemma scaled_rows (B : ndarray2) (j : nat) (col : list Z) :
  wf_ndarray2 B -> (0 < fst (arr_shape B))%nat ->
  (j < snd (arr_shape B))%nat ->
  forall data : list elt,
    Forall (fun u => length u = snd (arr_shape B))
           (map2 (fun d r => map (mul d) r) data (take_rows B col))
    /\ map (fun u => nth j u zero)
           (map2 (fun d r => map (mul d) r) data (take_rows B col))
       = map2 mul data (take (col_of B j) col).
Proof.
  intros Hw HR Hj. induction col as [|c col IH]; intros [|d data];
    cbn [take_rows take map map2]; auto.
  destruct (IH data) as [Hf He]. split.
  - constructor; [|exact Hf]. rewrite length_map. unfold take_row.
    apply length_row_of; auto. now apply clamp_index_lt_pos.
  - unfold take_rows, take in He. rewrite He. f_equal.
    unfold take_row, take1. rewrite length_col_of.
    pose proof (clamp_index_lt_pos (fst (arr_shape B)) c HR) as Hp.
    rewrite <- (length_row_of B _ Hw Hp) in Hj.
    rewrite (nth_indep _ zero (mul d zero)) by now rewrite length_map.
    rewrite map_nth. rewrite length_row_of in Hj by auto.
    now rewrite nth_row_of, nth_col_of.
Qed.

Lemma matmat_impl_columns (data : list elt) (row col : list Z) (B : ndarray2)
    (spinfo : COOInfo) (t : bool) (j : nat) :
  wf_ndarray2 B -> (0 < fst (arr_shape B))%nat ->
  (j < snd (arr_shape B))%nat ->
  col_of (_coo_matmat_impl data row col B spinfo t) j
  = _coo_matvec_impl data row col (col_of B j) spinfo t
  /\ wf_ndarray2 (_coo_matmat_impl data row col B spinfo t)
  /\ arr_shape (_coo_matmat_impl data row col B spinfo t)
     = (if t then snd (shape spinfo) else fst (shape spinfo),
        snd (arr_shape B)).
Proof.
  intros Hw HR Hj. unfold _coo_matmat_impl, _coo_matvec_impl.
  destruct t.
  - destruct (scaled_rows B j row Hw HR Hj data) as [Hf He].
    destruct (col_of_at_add_rows j col
                (map2 (fun d r => map (mul d) r) data (take_rows B row))
                (zeros2 (snd (shape spinfo), snd (arr_shape B))))
      as (Hc & Hw' & Hs).
    + unfold wf_ndarray2, zeros2. cbn [arr_shape buf]. apply length_zeros.
    + exact Hj.
    + exact Hf.
    + rewrite Hc, He, col_of_zeros2. auto.
  - destruct (scaled_rows B j col Hw HR Hj data) as [Hf He].
    destruct (col_of_at_add_rows j row
                (map2 (fun d r => map (mul d) r) data (take_rows B col))
                (zeros2 (fst (shape spinfo), snd (arr_shape B))))
      as (Hc & Hw' & Hs).
    + unfold wf_ndarray2, zeros2. cbn [arr_shape buf]. apply length_zeros.
    + exact Hj.
    + exact Hf.
    + rewrite Hc, He, col_of_zeros2. auto.
Qed.

End Columns.

(** X18.  The product with a matrix is the product with each of its
    columns: for a well-formed dense matrix [B] with at least one row,
    column [j] of [coo_matmat(mat, B)] is [coo_matvec(mat, B[:, j])], with
    or without the transpose flag, and the result is a well-formed array of
    the shape [(out_shape, B.shape[1])] that the abstract evaluation rule
    declares. *)
Theorem matmat_column_is_matvec {D : Dtype} (mat : COO) (B : ndarray2)
    (transpose : bool) (j : nat) :
  wf_ndarray2 B -> (0 < fst (arr_shape B))%nat ->
  (j < snd (arr_shape B))%nat ->
  col_of (coo_matmat mat B transpose) j
  = coo_matvec mat (col_of B j) transpose
  /\ wf_ndarray2 (coo_matmat mat B transpose)
  /\ arr_shape (coo_matmat mat B transpose)
     = (if transpose then snd (coo_shape mat) else fst (coo_shape mat),
        snd (arr_shape B)).
Proof.
  intros Hw HR Hj. unfold coo_matmat, coo_matvec, _coo_matmat, _coo_matvec.
  apply (matmat_impl_columns (data mat) (row mat) (col mat) B (_info mat)
           transpose j Hw HR Hj).
Qed.

Lemma matmat_column_is_matvec_witness :
  wf_ndarray2 (mk_ndarray2 (D := Z_dtype) (2, 2)%nat [1; 2; 3; 4])
  /\ (0 < 2)%nat /\ (1 < 2)%nat
  /\ col_of (coo_matmat (mk_COO (D := Z_dtype) [5; 7] [0; 1] [1; 0]
                                (2, 2)%nat false false)
                        (mk_ndarray2 (D := Z_dtype) (2, 2)%nat [1; 2; 3; 4])
                        false) 1
     = coo_matvec (mk_COO (D := Z_dtype) [5; 7] [0; 1] [1; 0]
                          (2, 2)%nat false false) [2; 4] false.
Proof.
  assert (Hw : wf_ndarray2 (mk_ndarray2 (D := Z_dtype) (2, 2)%nat [1; 2; 3; 4]))
    by reflexivity.
  assert (HR : (0 < 2)%nat) by lia.
  assert (Hj : (1 < 2)%nat) by lia.
  split; [exact Hw|]. split; [exact HR|]. split; [exact Hj|].
  exact (proj1 (matmat_column_is_matvec (D := Z_dtype)
                  (mk_COO (D := Z_dtype) [5; 7] [0; 1] [1; 0]
                          (2, 2)%nat false false)
                  (mk_ndarray2 (D := Z_dtype) (2, 2)%nat [1; 2; 3; 4])
                  false 1%nat Hw HR Hj)).
Defined.

(** ** The differentiation rule of [coo_fromdense] *)

Section FromDenseJvp.
Context {D : Dtype}.

Add Ring dtype_ring_fromdense_jvp : dtype_ring.

Lemma fromdense_jvp_padded (M Mdot : ndarray2) (n : nat) (t : int_dtype) :
  wf_ndarray2 M -> arr_shape Mdot = arr_shape M ->
  fits t (fst (arr_shape M)) -> fits t (snd (arr_shape M)) ->
  (count_nonzero M <= n)%nat ->
  _coo_fromdense_jvp M (Tangent Mdot) n t
  = (_coo_fromdense M n t,
     (Tangent (map (fun i => nth i (buf Mdot) zero) (flatnonzero (buf M))
               ++ repeat (take2_1 Mdot 0 0) (n - count_nonzero M)),
      TZero, TZero)).
Proof.
  intros Hw Hs HR HC Hn. unfold _coo_fromdense_jvp, _coo_fromdense.
  rewrite fromdense_impl_padded by assumption.
  f_equal. f_equal. f_equal. f_equal.
  unfold _coo_extract, take2.
  rewrite map2_app by now rewrite !length_map.
  rewrite map2_map, map2_repeat. f_equal.
  apply map_ext_in. intros i Hi.
  destruct M as [[R C] b]. cbn [arr_shape buf fst snd] in *.
  apply (take2_1_ravel Mdot R C); [exact Hs|].
  pose proof (flatnonzero_from_range 0 b) as Hp.
  rewrite Forall_forall in Hp. specialize (Hp i Hi).
  unfold wf_ndarray2 in Hw. cbn [arr_shape buf fst snd] in Hw. lia.
Qed.

(** Scattering the values that a second buffer holds at the nonzero
    positions of [x] gives that buffer masked by the pattern of [x]. *)
Lemma at_add_masked (x : list elt) :
  forall p q y : list elt,
    length q = length p -> length y = length x ->
    at_add (p ++ zeros (length x))
           (map Z.of_nat (flatnonzero_from (length p) x))
           (map (fun i => nth i (q ++ y) zero)
                (flatnonzero_from (length p) x))
    = p ++ where0 (map nonzero x) y.
Proof.
  induction x as [|a x IH]; intros p q [|b y] Hq Hy; simpl in Hy;
    try discriminate; [reflexivity|].
  assert (E : forall (u : list elt) c v, u ++ c :: v = (u ++ [c]) ++ v)
    by (intros; now rewrite <- app_assoc).
  assert (L : S (length p) = length (p ++ [b]))
    by (rewrite length_app; simpl; lia).
  assert (L0 : S (length p) = length (p ++ [zero]))
    by (rewrite length_app; simpl; lia).
  cbn [flatnonzero_from map where0 map2 length].
  change (zeros (S (length x))) with (zero :: zeros (length x)).
  destruct (nonzero a) eqn:Ha.
  - cbn [map at_add]. rewrite at_add1_in.
    2:{ unfold index_in. rewrite length_app. simpl. lia. }
    rewrite Nat2Z.id, nth_middle, set_nth_middle.
    rewrite <- Hq at 1. rewrite nth_middle.
    replace (add zero b) with b by ring.
    rewrite (E p b), (E q b), L.
    rewrite (IH (p ++ [b]) (q ++ [b]) y).
    + rewrite <- app_assoc. reflexivity.
    + rewrite !length_app. simpl. lia.
    + lia.
  - rewrite (E p zero), (E q b), L0.
    rewrite (IH (p ++ [zero]) (q ++ [b]) y).
    + rewrite <- app_assoc. reflexivity.
    + rewrite !length_app. simpl. lia.
    + lia.
Qed.

Lemma fromdense_jvp_dense (M Mdot : ndarray2) (t : int_dtype) (rs cs : bool) :
  wf_ndarray2 M -> wf_ndarray2 Mdot -> arr_shape Mdot = arr_shape M ->
  fits t (fst (arr_shape M)) -> fits t (snd (arr_shape M)) ->
  exists data row col data_dot,
    _coo_fromdense_jvp M (Tangent Mdot) (count_nonzero M) t
    = ((data, row, col), (Tangent data_dot, TZero, TZero))
    /\ _coo_todense data_dot row col (mk_COOInfo (arr_shape M) rs cs)
       = mk_ndarray2 (arr_shape M) (where0 (map nonzero (buf M)) (buf Mdot)).
Proof.
  intros Hw Hwd Hs HR HC.
  rewrite fromdense_jvp_padded by (auto; lia).
  unfold _coo_fromdense. rewrite fromdense_impl_padded by (auto; lia).
  rewrite Nat.sub_diag. cbn [repeat]. rewrite !app_nil_r.
  do 4 eexists. split; [reflexivity|].
  unfold _coo_todense, _coo_todense_impl. cbn [shape].
  destruct M as [[R C] b]. unfold wf_ndarray2 in *.
  cbn [arr_shape buf fst snd] in *. rewrite Hs in Hwd. cbn [fst snd] in Hwd.
  rewrite (at_add2_ravel R C).
  - f_equal. cbn [zeros2 buf fst snd]. rewrite <- Hw.
    apply (at_add_masked b [] [] (buf Mdot)); [reflexivity | lia].
  - reflexivity.
  - cbn [zeros2 buf fst snd]. apply length_zeros.
  - eapply Forall_impl; [|apply (flatnonzero_from_range 0 b)].
    simpl. intros; lia.
Qed.

End FromDenseJvp.

(** X19.  The differentiation rule of [coo_fromdense] returns the primal
    outputs unchanged and symbolic zeros for the two index outputs; the
    tangent of [data] reads [Mdot] at the nonzero positions of [M], in
    row-major order, and every padding entry (when [nse] exceeds the number
    of nonzero entries) carries [Mdot[0, 0]], not zero, although the primal
    padding values are the constant zero. *)
Theorem fromdense_jvp_tangent {D : Dtype} (M Mdot : ndarray2) (nse : nat)
    (index_dtype : int_dtype) :
  wf_ndarray2 M -> arr_shape Mdot = arr_shape M ->
  fits index_dtype (fst (arr_shape M)) ->
  fits index_dtype (snd (arr_shape M)) ->
  (count_nonzero M <= nse)%nat ->
  _coo_fromdense_jvp M (Tangent Mdot) nse index_dtype
  = (_coo_fromdense M nse index_dtype,
     (Tangent (map (fun i => nth i (buf Mdot) zero) (flatnonzero (buf M))
               ++ repeat (take2_1 Mdot 0 0) (nse - count_nonzero M)),
      TZero, TZero)).
Proof. apply fromdense_jvp_padded. Qed.

Lemma fromdense_jvp_tangent_witness :
  wf_ndarray2 (mk_ndarray2 (D := Z_dtype) (2, 2)%nat [0; 5; 7; 0])
  /\ fits int32 2
  /\ (count_nonzero (mk_ndarray2 (D := Z_dtype) (2, 2) [0; 5; 7; 0]%Z)
      <= 4)%nat
  /\ _coo_fromdense_jvp (mk_ndarray2 (D := Z_dtype) (2, 2)%nat [0; 5; 7; 0])
       (Tangent (mk_ndarray2 (D := Z_dtype) (2, 2)%nat [10; 20; 30; 40]))
       4 int32
     = (([5; 7; 0; 0], [0; 1; 0; 0], [1; 0; 0; 0]),
        (Tangent [20; 30; 10; 10], TZero, TZero)).
Proof.
  assert (Hw : wf_ndarray2 (mk_ndarray2 (D := Z_dtype) (2, 2)%nat [0; 5; 7; 0]))
    by reflexivity.
  assert (Hf : fits int32 2) by (unfold fits; simpl; lia).
  assert (Hn : (count_nonzero
                  (mk_ndarray2 (D := Z_dtype) (2, 2) [0; 5; 7; 0]%Z)
                <= 4)%nat) by (vm_compute; lia).
  split; [exact Hw|]. split; [exact Hf|]. split; [exact Hn|].
  exact (fromdense_jvp_tangent (D := Z_dtype)
           (mk_ndarray2 (D := Z_dtype) (2, 2)%nat [0; 5; 7; 0])
           (mk_ndarray2 (D := Z_dtype) (2, 2)%nat [10; 20; 30; 40])
           4 int32 Hw eq_refl Hf Hf Hn).
Defined.

(** X20.  With [nse] the number of nonzero entries of [M], the tangent that
    the differentiation rule of [coo_fromdense] returns for [data] is the
    sparse form of [Mdot] restricted to the sparsity pattern of [M]:
    scattered back by [coo_todense] at the returned indices it gives
    [where(M != 0, Mdot, 0)]. *)
Theorem fromdense_jvp_is_masked_tangent {D : Dtype} (M Mdot : ndarray2)
    (index_dtype : int_dtype) (rows_sorted cols_sorted : bool) :
  wf_ndarray2 M -> wf_ndarray2 Mdot -> arr_shape Mdot = arr_shape M ->
  fits index_dtype (fst (arr_shape M)) ->
  fits index_dtype (snd (arr_shape M)) ->
  exists data row col data_dot,
    _coo_fromdense_jvp M (Tangent Mdot) (count_nonzero M) index_dtype
    = ((data, row, col), (Tangent data_dot, TZero, TZero))
    /\ _coo_todense data_dot row col
         (mk_COOInfo (arr_shape M) rows_sorted cols_sorted)
       = mk_ndarray2 (arr_shape M) (where0 (map nonzero (buf M)) (buf Mdot)).
Proof. apply fromdense_jvp_dense. Qed.

Lemma fromdense_jvp_is_masked_tangent_witness :
  wf_ndarray2 (mk_ndarray2 (D := Z_dtype) (2, 2)%nat [0; 5; 7; 0])
  /\ wf_ndarray2 (mk_ndarray2 (D := Z_dtype) (2, 2)%nat [10; 20; 30; 40])
  /\ fits int32 2
  /\ exists data row col data_dot,
       _coo_fromdense_jvp (mk_ndarray2 (D := Z_dtype) (2, 2)%nat [0; 5; 7; 0])
         (Tangent (mk_ndarray2 (D := Z_dtype) (2, 2)%nat [10; 20; 30; 40]))
         2 int32
       = ((data, row, col), (Tangent data_dot, TZero, TZero))
       /\ _coo_todense data_dot row col (mk_COOInfo (2, 2)%nat true false)
          = mk_ndarray2 (2, 2)%nat [0; 20; 30; 0].
Proof.
  assert (Hw : wf_ndarray2 (mk_ndarray2 (D := Z_dtype) (2, 2)%nat [0; 5; 7; 0]))
    by reflexivity.
  assert (Hd : wf_ndarray2
                 (mk_ndarray2 (D := Z_dtype) (2, 2)%nat [10; 20; 30; 40]))
    by reflexivity.
  assert (Hf : fits int32 2) by (unfold fits; simpl; lia).
  split; [exact Hw|]. split; [exact Hd|]. split; [exact Hf|].
  exact (fromdense_jvp_is_masked_tangent (D := Z_dtype)
           (mk_ndarray2 (D := Z_dtype) (2, 2)%nat [0; 5; 7; 0])
           (mk_ndarray2 (D := Z_dtype) (2, 2)%nat [10; 20; 30; 40])
           int32 true false Hw Hd eq_refl Hf Hf).
Defined.

(** ** The transposition rule of [coo_matmat] *)

Section MatmatTranspose.
Context {D : Dtype}.

Add Ring dtype_ring_matmat_transpose : dtype_ring.

Lemma sum_map_zero {A : Type} (l : list A) :
  sum (map (fun _ => zero) l) = zero.
Proof.
  induction l as [|a l IH]; [reflexivity|].
  cbn [map]. rewrite sum_cons, IH. ring.
Qed.

Lemma sum_map_add {A : Type} (g h : A -> elt) (l : list A) :
  sum (map (fun j => add (g j) (h j)) l)
  = add (sum (map g l)) (sum (map h l)).
Proof.
  induction l as [|a l IH]; cbn [map]; rewrite ?sum_cons.
  - unfold sum. simpl. ring.
  - rewrite IH. ring.
Qed.

Lemma sum_map_scale {A : Type} (d : elt) (f g : A -> elt) (l : list A) :
  mul d (sum (map (fun j => mul (f j) (g j)) l))
  = sum (map (fun j => mul (mul d (g j)) (f j)) l).
Proof.
  induction l as [|a l IH]; cbn [map]; rewrite ?sum_cons.
  - unfold sum. simpl. ring.
  - rewrite <- IH. ring.
Qed.

(** Exchanging the sum over the entries with the sum over the columns. *)
Lemma inner_columns {A : Type} (F G : A -> Z -> elt) (js : list A)
    (ddata : list elt) :
  forall row col : list Z,
    inner ddata
          (map2 (fun r c => sum (map (fun j => mul (F j r) (G j c)) js))
                row col)
    = sum (map (fun j => sum (map2 mul (map2 mul ddata (map (G j) col))
                                       (map (F j) row))) js).
Proof.
  induction ddata as [|d ddata IH]; intros [|r row] [|c col];
    cbn [map2 map]; rewrite ?inner_nil_r;
    try (change (sum []) with zero; rewrite sum_map_zero; reflexivity);
    try (rewrite (map_ext _ (fun _ => zero))
           by (intros; rewrite ?map2_nil_r; reflexivity);
         rewrite sum_map_zero; reflexivity).
  rewrite inner_cons, IH.
    rewrite (map_ext
               (fun j => sum (mul (mul d (G j c)) (F j r)
                              :: map2 mul (map2 mul ddata (map (G j) col))
                                          (map (F j) row)))
               (fun j => add (mul (mul d (G j c)) (F j r))
                             (sum (map2 mul (map2 mul ddata (map (G j) col))
                                            (map (F j) row)))))
    by (intros; apply sum_cons).
  rewrite sum_map_add, sum_map_scale. reflexivity.
Qed.

Lemma map2_as_map_seq (f : elt -> elt -> elt) (n : nat) (x y : list elt) :
  length x = n -> length y = n ->
  map2 f x y = map (fun j => f (nth j x zero) (nth j y zero)) (seq 0 n).
Proof.
  intros Hx Hy. apply (nth_ext _ _ zero zero).
  - rewrite length_map2_min, length_map, length_seq. lia.
  - rewrite length_map2_min. intros j Hj.
    rewrite nth_map_seq by lia.
    apply nth_map2; lia.
Qed.

Lemma nth_take_row (m : ndarray2) (i : Z) (j : nat) :
  (0 < fst (arr_shape m))%nat -> (j < snd (arr_shape m))%nat ->
  nth j (take_row m i) zero = take1 (col_of m j) i.
Proof.
  intros HR Hj. unfold take_row, take1. rewrite length_col_of.
  pose proof (clamp_index_lt_pos (fst (arr_shape m)) i HR) as Hp.
  now rewrite nth_row_of, nth_col_of.
Qed.

Lemma length_take_row (m : ndarray2) (i : Z) :
  wf_ndarray2 m -> (0 < fst (arr_shape m))%nat ->
  length (take_row m i) = snd (arr_shape m).
Proof.
  intros Hw HR. unfold take_row. apply length_row_of; auto.
  now apply clamp_index_lt_pos.
Qed.

Lemma matmat_data_cotangent (ct B : ndarray2) (row col : list Z) :
  wf_ndarray2 ct -> wf_ndarray2 B ->
  (0 < fst (arr_shape ct))%nat -> (0 < fst (arr_shape B))%nat ->
  snd (arr_shape ct) = snd (arr_shape B) ->
  map2 (fun u w => sum (map2 mul u w)) (take_rows ct row) (take_rows B col)
  = map2 (fun r c =>
            sum (map (fun j => mul (take1 (col_of ct j) r)
                                   (take1 (col_of B j) c))
                     (seq 0 (snd (arr_shape B)))))
         row col.
Proof.
  intros Hwc HwB Hc HB Hs. unfold take_rows. rewrite map2_map_map.
  apply map2_ext. intros r c. f_equal.
  rewrite (map2_as_map_seq mul (snd (arr_shape B)))
    by (rewrite length_take_row by assumption; auto).
  apply map_ext_in. intros j Hj. apply in_seq in Hj.
  rewrite !nth_take_row by (assumption || lia). reflexivity.
Qed.

Lemma matmat_adjoint_column (data : list elt) (row col : list Z)
    (B ct : ndarray2) (spinfo : COOInfo) (t : bool) (j : nat) :
  coo_valid data row col (shape spinfo) ->
  wf_ndarray2 B -> wf_ndarray2 ct ->
  _coo_matmat_abstract_eval data row col B spinfo t = Some (arr_shape ct) ->
  (0 < fst (arr_shape B))%nat -> (0 < fst (arr_shape ct))%nat ->
  (j < snd (arr_shape B))%nat ->
  inner (col_of (_coo_matmat_impl data row col B spinfo t) j) (col_of ct j)
  = inner (col_of B j)
          (col_of (_coo_matmat_impl data row col ct spinfo (negb t)) j).
Proof.
  intros Hv HwB Hwc Ha HB Hc Hj.
  unfold _coo_matmat_abstract_eval in Ha.
  destruct (_ && _ && (fst (arr_shape B) =? _)%nat) eqn:E; [|discriminate].
  injection Ha as Hs.
  assert (Hjc : (j < snd (arr_shape ct))%nat) by (rewrite <- Hs; exact Hj).
  rewrite (proj1 (matmat_impl_columns data row col B spinfo t j HwB HB Hj)).
  rewrite (proj1 (matmat_impl_columns data row col ct spinfo (negb t) j
                    Hwc Hc Hjc)).
  apply (inner_matvec_adjoint data row col (col_of B j) (col_of ct j)
           spinfo t Hv).
  unfold _coo_matvec_abstract_eval. rewrite !length_col_of.
  rewrite E. now rewrite <- Hs.
Qed.

Lemma matmat_data_adjoint (ddata : list elt) (row col : list Z)
    (B ct : ndarray2) (spinfo : COOInfo) :
  Forall (index_in (fst (shape spinfo))) row ->
  wf_ndarray2 B -> wf_ndarray2 ct ->
  arr_shape ct = (fst (shape spinfo), snd (arr_shape B)) ->
  (0 < fst (arr_shape B))%nat -> (0 < fst (shape spinfo))%nat ->
  sum (map (fun j => inner (col_of (_coo_matmat_impl ddata row col B spinfo
                                                     false) j)
                           (col_of ct j))
           (seq 0 (snd (arr_shape B))))
  = inner ddata
          (map2 (fun u w => sum (map2 mul u w))
                (take_rows ct row) (take_rows B col)).
Proof.
  intros Hrow HwB Hwc Hs HB HR.
  rewrite matmat_data_cotangent;
    try assumption; try (rewrite Hs; cbn [fst snd]; auto).
  rewrite (inner_columns (fun j => take1 (col_of ct j))
                         (fun j => take1 (col_of B j))).
  f_equal. apply map_ext_in. intros j Hj. apply in_seq in Hj.
  rewrite (proj1 (matmat_impl_columns ddata row col B spinfo false j HwB HB
                    ltac:(lia))).
  rewrite inner_matvec; [reflexivity | exact Hrow |].
  rewrite length_col_of, Hs. reflexivity.
Qed.

End MatmatTranspose.

(** X21.  For a valid COO matrix and well-formed dense matrices [B] and
    [ct] with at least one row each, such that the abstract evaluation rule
    accepts the product and gives the shape of [ct] for its output: the
    cotangent that the transposition rule of [coo_matmat] returns for [B]
    is [matmat(data, row, col, ct, transpose = not transpose)], and it is
    the adjoint of the product column by column:
    [<matmat(data, B)[:, j], ct[:, j]> = <B[:, j], cotangent[:, j]>]. *)
Theorem matmat_transpose_rule_adjoint {D : Dtype}
    (data : list elt) (row col : list Z) (B ct : ndarray2) (aval : Shape)
    (spinfo : COOInfo) (transpose : bool) (j : nat) :
  coo_valid data row col (shape spinfo) ->
  wf_ndarray2 B -> wf_ndarray2 ct ->
  _coo_matmat_abstract_eval data row col B spinfo transpose
  = Some (arr_shape ct) ->
  (0 < fst (arr_shape B))%nat -> (0 < fst (arr_shape ct))%nat ->
  (j < snd (arr_shape B))%nat ->
  _coo_matmat_transpose ct data row col (UndefinedPrimal aval) spinfo
                        transpose
  = (data, row, col, _coo_matmat data row col ct spinfo (negb transpose))
  /\ inner (col_of (_coo_matmat data row col B spinfo transpose) j)
           (col_of ct j)
     = inner (col_of B j)
             (col_of (snd (_coo_matmat_transpose ct data row col
                             (UndefinedPrimal aval) spinfo transpose)) j).
Proof.
  intros Hv HwB Hwc Ha HB Hc Hj. split; [reflexivity|].
  cbn [_coo_matmat_transpose snd]. unfold _coo_matmat.
  now apply matmat_adjoint_column.
Qed.

Lemma matmat_transpose_rule_adjoint_witness :
  coo_valid (D := Z_dtype) [5; 7] [0; 1] [1; 0] (2, 2)%nat
  /\ wf_ndarray2 (mk_ndarray2 (D := Z_dtype) (2, 2)%nat [1; 2; 3; 4])
  /\ (0 < 2)%nat /\ (1 < 2)%nat
  /\ inner (col_of (_coo_matmat (D := Z_dtype) [5; 7] [0; 1] [1; 0]
                      (mk_ndarray2 (2, 2)%nat [1; 2; 3; 4])
                      (mk_COOInfo (2, 2)%nat false false) false) 1)
           (col_of (mk_ndarray2 (D := Z_dtype) (2, 2)%nat [1; -1; 2; 3]) 1)
     = inner (col_of (mk_ndarray2 (D := Z_dtype) (2, 2)%nat [1; 2; 3; 4]) 1)
             (col_of (snd (_coo_matmat_transpose
                             (mk_ndarray2 (D := Z_dtype) (2, 2)%nat
                                          [1; -1; 2; 3])
                             [5; 7] [0; 1] [1; 0] (UndefinedPrimal (2, 2)%nat)
                             (mk_COOInfo (2, 2)%nat false false) false)) 1).
Proof.
  assert (Hv : coo_valid (D := Z_dtype) [5; 7] [0; 1] [1; 0] (2, 2)%nat).
  { unfold coo_valid, index_in. cbn [fst snd].
    repeat split; try reflexivity; repeat constructor; lia. }
  assert (HwB : wf_ndarray2
                  (mk_ndarray2 (D := Z_dtype) (2, 2)%nat [1; 2; 3; 4]))
    by reflexivity.
  assert (Hwc : wf_ndarray2
                  (mk_ndarray2 (D := Z_dtype) (2, 2)%nat [1; -1; 2; 3]))
    by reflexivity.
  assert (H0 : (0 < 2)%nat) by lia.
  assert (H1 : (1 < 2)%nat) by lia.
  split; [exact Hv|]. split; [exact HwB|]. split; [exact H0|].
  split; [exact H1|].
  exact (proj2 (matmat_transpose_rule_adjoint (D := Z_dtype)
                  [5; 7] [0; 1] [1; 0]
                  (mk_ndarray2 (2, 2)%nat [1; 2; 3; 4])
                  (mk_ndarray2 (2, 2)%nat [1; -1; 2; 3]) (2, 2)%nat
                  (mk_COOInfo (2, 2)%nat false false) false 1%nat
                  Hv HwB Hwc eq_refl H0 H0 H1)).
Defined.

(** X22.  Without the transpose flag the cotangent that the transposition
    rule of [coo_matmat] returns for [data], [(ct[row] * B[col]).sum(1)],
    is the adjoint of the product in [data]: for row indices inside the
    shape and well-formed [B] and [ct] of the shapes of the operand and of
    the output, the inner products of the columns of
    [matmat(ddata, row, col, B)] with the columns of [ct] add up to
    [<ddata, cotangent>]. *)
Theorem matmat_transpose_rule_data_adjoint {D : Dtype}
    (ddata data : list elt) (row col : list Z) (B ct : ndarray2)
    (spinfo : COOInfo) :
  Forall (index_in (fst (shape spinfo))) row ->
  wf_ndarray2 B -> wf_ndarray2 ct ->
  arr_shape ct = (fst (shape spinfo), snd (arr_shape B)) ->
  (0 < fst (arr_shape B))%nat -> (0 < fst (shape spinfo))%nat ->
  sum (map (fun j => inner (col_of (_coo_matmat ddata row col B spinfo false)
                                   j)
                           (col_of ct j))
           (seq 0 (snd (arr_shape B))))
  = inner ddata
          (fst (fst (fst (_coo_matmat_transpose ct data row col (Known B)
                                                spinfo false)))).
Proof.
  intros Hrow HwB Hwc Hs HB HR. cbn [_coo_matmat_transpose fst].
  unfold _coo_matmat. now apply matmat_data_adjoint.
Qed.

Lemma matmat_transpose_rule_data_adjoint_witness :
  Forall (index_in 2) [0; 1]
  /\ wf_ndarray2 (mk_ndarray2 (D := Z_dtype) (2, 2)%nat [1; 2; 3; 4])
  /\ (0 < 2)%nat
  /\ sum (map (fun j =>
                 inner (col_of (_coo_matmat (D := Z_dtype) [1; 1] [0; 1] [1; 0]
                                  (mk_ndarray2 (2, 2)%nat [1; 2; 3; 4])
                                  (mk_COOInfo (2, 2)%nat false false) false)
                               j)
                       (col_of (mk_ndarray2 (D := Z_dtype) (2, 2)%nat
                                            [1; -1; 2; 3]) j))
              (seq 0 2))
     = inner (D := Z_dtype) [1; 1]
             (fst (fst (fst (_coo_matmat_transpose
                               (mk_ndarray2 (D := Z_dtype) (2, 2)%nat
                                            [1; -1; 2; 3])
                               [5; 7] [0; 1] [1; 0]
                               (Known (mk_ndarray2 (2, 2)%nat [1; 2; 3; 4]))
                               (mk_COOInfo (2, 2)%nat false false) false)))).
Proof.
  assert (Hr : Forall (index_in 2) [0; 1])
    by (unfold index_in; repeat constructor; lia).
  assert (HwB : wf_ndarray2
                  (mk_ndarray2 (D := Z_dtype) (2, 2)%nat [1; 2; 3; 4]))
    by reflexivity.
  assert (Hwc : wf_ndarray2
                  (mk_ndarray2 (D := Z_dtype) (2, 2)%nat [1; -1; 2; 3]))
    by reflexivity.
  assert (H0 : (0 < 2)%nat) by lia.
  split; [exact Hr|]. split; [exact HwB|]. split; [exact H0|].
  exact (matmat_transpose_rule_data_adjoint (D := Z_dtype)
           [1; 1] [5; 7] [0; 1] [1; 0]
           (mk_ndarray2 (2, 2)%nat [1; 2; 3; 4])
           (mk_ndarray2 (2, 2)%nat [1; -1; 2; 3])
           (mk_COOInfo (2, 2)%nat false false) Hr HwB Hwc eq_refl H0 H0).
Defined.

(** ** Linearity of the product with a matrix *)

Section MatmatLinear.
Context {D : Dtype}.

Add Ring dtype_ring_matmat_linear : dtype_ring.

(** Two well-formed matrices of one shape with the same columns are
    equal. *)
Lemma ndarray2_ext_cols (X Y : ndarray2) :
  wf_ndarray2 X -> wf_ndarray2 Y -> arr_shape X = arr_shape Y ->
  (forall j, (j < snd (arr_shape X))%nat -> col_of X j = col_of Y j) ->
  X = Y.
Proof.
  destruct X as [[R C] bx], Y as [sy b']. unfold wf_ndarray2.
  cbn [arr_shape buf fst snd]. intros Hx Hy <- Hc. cbn [fst snd] in Hy.
  f_equal. apply (nth_ext _ _ zero zero); [lia|].
  intros k Hk. rewrite Hx in Hk.
  assert (HC : C <> 0%nat) by (intros ->; lia).
  assert (Hr : (k / C < R)%nat)
    by (apply Nat.Div0.div_lt_upper_bound; lia).
  assert (Hj : (k mod C < C)%nat) by (apply Nat.mod_upper_bound; lia).
  pose proof (nth_col_of (mk_ndarray2 (R, C) bx) (k mod C) (k / C) Hr) as E1.
  pose proof (nth_col_of (mk_ndarray2 (R, C) b') (k mod C) (k / C) Hr) as E2.
  cbn [arr_shape buf snd] in E1, E2.
  assert (Ek : (k / C * C + k mod C)%nat = k)
    by (rewrite (Nat.div_mod_eq k C) at 3; lia).
  rewrite Ek in E1, E2. rewrite <- E1, <- E2. now rewrite (Hc _ Hj).
Qed.

Lemma axpby2_wf (a b : elt) (X Y : ndarray2) :
  wf_ndarray2 X -> wf_ndarray2 Y -> arr_shape X = arr_shape Y ->
  wf_ndarray2 (axpby2 a b X Y).
Proof.
  unfold wf_ndarray2, axpby2. cbn [arr_shape buf]. intros Hx Hy Hs.
  rewrite length_axpby; [exact Hx|]. rewrite Hx, Hy, Hs. reflexivity.
Qed.

Lemma col_of_axpby2 (a b : elt) (X Y : ndarray2) (j : nat) :
  wf_ndarray2 X -> wf_ndarray2 Y -> arr_shape X = arr_shape Y ->
  col_of (axpby2 a b X Y) j = axpby a b (col_of X j) (col_of Y j).
Proof.
  intros Hx Hy Hs.
  assert (Hl : length (buf X) = length (buf Y)).
  { unfold wf_ndarray2 in *. rewrite Hx, Hy, Hs. reflexivity. }
  assert (Hlc : length (col_of X j) = length (col_of Y j))
    by (rewrite !length_col_of; now rewrite Hs).
  apply (nth_ext _ _ zero zero).
  - rewrite length_axpby by exact Hlc. now rewrite !length_col_of.
  - rewrite length_col_of. intros r Hr.
    rewrite nth_col_of by exact Hr.
    rewrite nth_axpby by exact Hlc.
    cbn [axpby2 arr_shape buf fst] in *.
    rewrite nth_axpby by exact Hl.
    rewrite !nth_col_of by (rewrite <- ?Hs; exact Hr).
    now rewrite Hs.
Qed.

Lemma matmat_axpby_data (a b : elt) (d1 d2 : list elt) (row col : list Z)
    (B : ndarray2) (spinfo : COOInfo) (t : bool) :
  length d1 = length d2 -> wf_ndarray2 B ->
  (0 < fst (arr_shape B))%nat -> (0 < snd (arr_shape B))%nat ->
  _coo_matmat_impl (axpby a b d1 d2) row col B spinfo t
  = axpby2 a b (_coo_matmat_impl d1 row col B spinfo t)
               (_coo_matmat_impl d2 row col B spinfo t).
Proof.
  intros Hl Hw HR HC.
  destruct (matmat_impl_columns (axpby a b d1 d2) row col B spinfo t 0
              Hw HR HC) as (_ & W & S).
  destruct (matmat_impl_columns d1 row col B spinfo t 0 Hw HR HC)
    as (_ & W1 & S1).
  destruct (matmat_impl_columns d2 row col B spinfo t 0 Hw HR HC)
    as (_ & W2 & S2).
  assert (S12 : arr_shape (_coo_matmat_impl d1 row col B spinfo t)
                = arr_shape (_coo_matmat_impl d2 row col B spinfo t))
    by now rewrite S1, S2.
  apply ndarray2_ext_cols.
  - exact W.
  - now apply axpby2_wf.
  - cbn [axpby2 arr_shape]. now rewrite S, S1.
  - rewrite S. cbn [snd]. intros j Hj.
    rewrite col_of_axpby2 by assumption.
    rewrite !(proj1 (matmat_impl_columns _ row col B spinfo t j Hw HR Hj)).
    now apply matvec_axpby_data.
Qed.

Lemma matmat_axpby_operand (a b : elt) (data : list elt) (row col : list Z)
    (B1 B2 : ndarray2) (spinfo : COOInfo) (t : bool) :
  wf_ndarray2 B1 -> wf_ndarray2 B2 -> arr_shape B1 = arr_shape B2 ->
  (0 < fst (arr_shape B1))%nat -> (0 < snd (arr_shape B1))%nat ->
  _coo_matmat_impl data row col (axpby2 a b B1 B2) spinfo t
  = axpby2 a b (_coo_matmat_impl data row col B1 spinfo t)
               (_coo_matmat_impl data row col B2 spinfo t).
Proof.
  intros W1 W2 Hs HR HC.
  assert (W : wf_ndarray2 (axpby2 a b B1 B2)) by now apply axpby2_wf.
  assert (HR2 : (0 < fst (arr_shape B2))%nat) by now rewrite <- Hs.
  assert (HC2 : (0 < snd (arr_shape B2))%nat) by now rewrite <- Hs.
  destruct (matmat_impl_columns data row col (axpby2 a b B1 B2) spinfo t 0
              W HR HC) as (_ & V & S).
  destruct (matmat_impl_columns data row col B1 spinfo t 0 W1 HR HC)
    as (_ & V1 & S1).
  destruct (matmat_impl_columns data row col B2 spinfo t 0 W2 HR2 HC2)
    as (_ & V2 & S2).
  assert (S12 : arr_shape (_coo_matmat_impl data row col B1 spinfo t)
                = arr_shape (_coo_matmat_impl data row col B2 spinfo t))
    by now rewrite S1, S2, Hs.
  apply ndarray2_ext_cols.
  - exact V.
  - now apply axpby2_wf.
  - cbn [axpby2 arr_shape] in *. now rewrite S, S1.
  - rewrite S. cbn [axpby2 arr_shape snd]. intros j Hj.
    rewrite col_of_axpby2 by assumption.
    rewrite (proj1 (matmat_impl_columns data row col (axpby2 a b B1 B2)
                      spinfo t j W HR Hj)).
    rewrite (proj1 (matmat_impl_columns data row col B1 spinfo t j W1 HR Hj)).
    rewrite (proj1 (matmat_impl_columns data row col B2 spinfo t j W2 HR2
                      ltac:(rewrite <- Hs; exact Hj))).
    rewrite col_of_axpby2 by assumption.
    apply matvec_axpby_vec. rewrite !length_col_of. now rewrite Hs.
Qed.

End MatmatLinear.

(** X23.  [matmat] is linear in [data] and in the dense operand, for
    either value of the transpose flag and all indices, when the operand
    is a well-formed matrix with at least one cell:
    [matmat(a * d1 + b * d2, B) = a * matmat(d1, B) + b * matmat(d2, B)]
    for value arrays of one length, and
    [matmat(d, a * B1 + b * B2) = a * matmat(d, B1) + b * matmat(d, B2)]
    for operands of one shape; so the two forward rules give the exact
    change of the product in each argument. *)
Theorem matmat_linear {D : Dtype} (a b : elt) (d1 d2 : list elt)
    (row col : list Z) (B1 B2 : ndarray2) (spinfo : COOInfo)
    (transpose : bool) :
  length d1 = length d2 ->
  wf_ndarray2 B1 -> wf_ndarray2 B2 -> arr_shape B1 = arr_shape B2 ->
  (0 < fst (arr_shape B1))%nat -> (0 < snd (arr_shape B1))%nat ->
  _coo_matmat (axpby a b d1 d2) row col B1 spinfo transpose
  = axpby2 a b (_coo_matmat d1 row col B1 spinfo transpose)
               (_coo_matmat d2 row col B1 spinfo transpose)
  /\ _coo_matmat d1 row col (axpby2 a b B1 B2) spinfo transpose
     = axpby2 a b (_coo_matmat d1 row col B1 spinfo transpose)
                  (_coo_matmat d1 row col B2 spinfo transpose)
  /\ _coo_matmat (axpby one one d1 d2) row col B1 spinfo transpose
     = axpby2 one one (_coo_matmat d1 row col B1 spinfo transpose)
         (_coo_matmat_jvp_left d2 d1 row col B1 spinfo transpose)
  /\ _coo_matmat d1 row col (axpby2 one one B1 B2) spinfo transpose
     = axpby2 one one (_coo_matmat d1 row col B1 spinfo transpose)
         (_coo_matmat_jvp_right B2 d1 row col B1 spinfo transpose).
Proof.
  intros Hl W1 W2 Hs HR HC.
  unfold _coo_matmat_jvp_left, _coo_matmat_jvp_right, _coo_matmat.
  repeat split.
  - now apply matmat_axpby_data.
  - now apply matmat_axpby_operand.
  - now apply matmat_axpby_data.
  - now apply matmat_axpby_operand.
Qed.

Lemma matmat_linear_witness :
  wf_ndarray2 (mk_ndarray2 (D := Z_dtype) (2, 2)%nat [1; 2; 3; 4])
  /\ wf_ndarray2 (mk_ndarray2 (D := Z_dtype) (2, 2)%nat [0; 1; 1; 0])
  /\ (0 < 2)%nat
  /\ _coo_matmat (D := Z_dtype) (axpby 2 3 [5; 7] [1; -1]) [0; 1] [1; 0]
       (mk_ndarray2 (2, 2)%nat [1; 2; 3; 4])
       (mk_COOInfo (2, 2)%nat false false) false
     = axpby2 2 3
         (_coo_matmat [5; 7] [0; 1] [1; 0]
            (mk_ndarray2 (2, 2)%nat [1; 2; 3; 4])
            (mk_COOInfo (2, 2)%nat false false) false)
         (_coo_matmat [1; -1] [0; 1] [1; 0]
            (mk_ndarray2 (2, 2)%nat [1; 2; 3; 4])
            (mk_COOInfo (2, 2)%nat false false) false).
Proof.
  assert (W1 : wf_ndarray2
                 (mk_ndarray2 (D := Z_dtype) (2, 2)%nat [1; 2; 3; 4]))
    by reflexivity.
  assert (W2 : wf_ndarray2
                 (mk_ndarray2 (D := Z_dtype) (2, 2)%nat [0; 1; 1; 0]))
    by reflexivity.
  assert (H0 : (0 < 2)%nat) by lia.
  split; [exact W1|]. split; [exact W2|]. split; [exact H0|].
  exact (proj1 (matmat_linear (D := Z_dtype) 2 3 [5; 7] [1; -1]
                  [0; 1] [1; 0]
                  (mk_ndarray2 (2, 2)%nat [1; 2; 3; 4])
                  (mk_ndarray2 (2, 2)%nat [0; 1; 1; 0])
                  (mk_COOInfo (2, 2)%nat false false) false
                  eq_refl W1 W2 eq_refl H0 H0)).
Defined.

(** X24.  The operator [@] of the container: a sparse right operand and an
    operand that has neither one nor two dimensions raise
    [NotImplementedError]; for a well-formed two-dimensional operand [B]
    with at least one row the result is a well-formed matrix of shape
    [(shape[0], B.shape[1])] whose column [j] is [coo_matvec(self, B[:, j])],
    the product of [self] with column [j] of [B]. *)
Theorem matmul_operator {D : Dtype} (self : COO) :
  (forall other : COO,
      __matmul__ self (Sparse other) = inl matmul_between_two_sparse_objects)
  /\ (forall buffer : list elt,
         __matmul__ self (Array [] buffer)
         = inl (matmul_with_object_of_shape []))
  /\ (forall (n k l : nat) (s : list nat) (buffer : list elt),
         __matmul__ self (Array (n :: k :: l :: s) buffer)
         = inl (matmul_with_object_of_shape (n :: k :: l :: s)))
  /\ (forall (n k : nat) (buffer : list elt) (j : nat),
         length buffer = (n * k)%nat -> (0 < n)%nat -> (j < k)%nat ->
         exists C : ndarray2,
           __matmul__ self (Array [n; k] buffer) = inr (Matrix C)
           /\ wf_ndarray2 C
           /\ arr_shape C = (fst (coo_shape self), k)
           /\ col_of C j
              = coo_matvec self (col_of (mk_ndarray2 (n, k) buffer) j) false).
Proof.
  repeat split; try reflexivity.
  intros n k buffer j Hl Hn Hj.
  eexists. split; [reflexivity|].
  destruct (matmat_impl_columns (data self) (row self) (col self)
              (mk_ndarray2 (n, k) buffer) (_info self) false j)
    as (Hc & Hw & Hs); try assumption.
  unfold coo_matmat, _coo_matmat, coo_matvec, _coo_matvec, COO_init, _info.
  unfold _info in Hc, Hw, Hs.
  cbn [data row col coo_shape _rows_sorted _cols_sorted shape arr_shape snd]
    in *.
  auto.
Qed.

Lemma matmul_operator_witness :
  length [1; 2; 3; 4] = (2 * 2)%nat /\ (0 < 2)%nat /\ (1 < 2)%nat
  /\ exists C : ndarray2,
       __matmul__ (mk_COO (D := Z_dtype) [5; 7] [0; 1] [1; 0] (2, 2)%nat
                          false false)
                  (Array [2; 2]%nat [1; 2; 3; 4])
       = inr (Matrix C)
       /\ wf_ndarray2 C
       /\ arr_shape C = (2, 2)%nat
       /\ col_of C 1
          = coo_matvec (mk_COO (D := Z_dtype) [5; 7] [0; 1] [1; 0] (2, 2)%nat
                               false false)
                       (col_of (mk_ndarray2 (2, 2)%nat [1; 2; 3; 4]) 1) false.
Proof.
  assert (Hl : length [1; 2; 3; 4] = (2 * 2)%nat) by reflexivity.
  assert (H0 : (0 < 2)%nat) by lia.
  assert (H1 : (1 < 2)%nat) by lia.
  split; [exact Hl|]. split; [exact H0|]. split; [exact H1|].
  exact (proj2 (proj2 (proj2
           (matmul_operator (D := Z_dtype)
              (mk_COO (D := Z_dtype) [5; 7] [0; 1] [1; 0] (2, 2)%nat
                      false false))))
           2%nat 2%nat [1; 2; 3; 4] 1%nat Hl H0 H1).
Defined.
